(** * webperf: measurement runner, batch scheduler, result log and
      process lifecycle manager, embedded from the TypeScript sources.

    Sources embedded here:
    - [lib/lighthouse-runner.ts]  ([average], [runSingleMeasurement],
      [runMeasurements], [printResults]);
    - [lib/results.ts]            ([generateTimestamp], [appendToJsonlLog],
      [saveResults], [loadSummary], [compareResults], [saveBatchResult]);
    - [lib/process-manager.ts]    ([isPortInUse], [getProcessOnPort],
      [waitForPort], [killProcess], [startAllServices], [stopAll],
      [getStatus], [printStatus], [ensurePortsFree], [waitForServices]);
    - [perf.ts]                   ([parseArgs]; the [measure], [batch] and
      [start-measure] commands of [main]).

    Modelling conventions.
    - A JavaScript [number] is an exact rational extended with [NaN] and the
      two infinities; rounding error and the sign of zero are not modelled.
      Run counts, ports, pids and the concurrency bound are integers.
    - A character of a string is one code unit of the JavaScript string;
      code units above 255 are not modelled.
    - A thrown value is an [Error] object with its [message].
    - External collaborators (browser, audit engine, port lookup, tree kill)
      are transitions of an abstract [World]; they may throw.  Starting a
      process goes through a [Launcher]: whether a directory exists, and
      the pid that [spawn] gives the child.
    - Stateful code is written in a state-and-exception monad [M] over the
      world, a virtual clock that advances in [sleep] only, the files, the
      registry side file and the console.  File operations do not fail and
      directories are not modelled.
    - The console holds the text handed to the logger, one entry per call;
      colours, prefixes, blank lines and rules are left out.
    - Scenarios of a batch run as two atomic steps: the start of
      [runScenario] when the scenario is taken from the queue, and the rest
      (measurement included) when it resolves; which running scenarios
      resolve during a suspension of the main loop is given by a
      [Schedule]. *)

From Stdlib Require Import ZArith QArith Qcanon Qround List String Ascii Lia.
From stdpp Require Import base numbers list strings pretty gmap.
Import ListNotations.

Local Open Scope Z_scope.
Local Open Scope list_scope.

(* ===================================================================== *)
(** * JavaScript numbers                                                  *)
(* ===================================================================== *)

Module JS.

Inductive number : Type :=
| NaN
| NegInf
| Fin (q : Qc)
| PosInf.

Definition of_Z (z : Z) : number := Fin (Qc_of_Z z).
Definition of_nat (n : nat) : number := of_Z (Z.of_nat n).
Definition zero : number := of_Z 0.

Definition is_zero (q : Qc) : bool :=
  match (q ?= 0)%Qc with Eq => true | _ => false end.
Definition is_pos (q : Qc) : bool :=
  match (q ?= 0)%Qc with Gt => true | _ => false end.
Definition is_neg (q : Qc) : bool :=
  match (q ?= 0)%Qc with Lt => true | _ => false end.

(** [a + b] *)
Definition add (a b : number) : number :=
  match a, b with
  | NaN, _ | _, NaN => NaN
  | PosInf, NegInf | NegInf, PosInf => NaN
  | PosInf, _ | _, PosInf => PosInf
  | NegInf, _ | _, NegInf => NegInf
  | Fin x, Fin y => Fin (x + y)%Qc
  end.

(** [-a] *)
Definition neg (a : number) : number :=
  match a with
  | NaN => NaN
  | NegInf => PosInf
  | PosInf => NegInf
  | Fin x => Fin (- x)%Qc
  end.

(** [a - b] *)
Definition sub (a b : number) : number := add a (neg b).

(** the infinity carrying the sign of a non-zero rational *)
Definition inf_of_sign (positive : bool) : number :=
  if positive then PosInf else NegInf.

(** [a * b] *)
Definition mul (a b : number) : number :=
  match a, b with
  | NaN, _ | _, NaN => NaN
  | Fin x, Fin y => Fin (x * y)%Qc
  | Fin x, PosInf | PosInf, Fin x =>
      if is_zero x then NaN else inf_of_sign (is_pos x)
  | Fin x, NegInf | NegInf, Fin x =>
      if is_zero x then NaN else inf_of_sign (is_neg x)
  | PosInf, PosInf | NegInf, NegInf => PosInf
  | PosInf, NegInf | NegInf, PosInf => NegInf
  end.

(** [a / b]; a zero divisor is the positive zero *)
Definition div (a b : number) : number :=
  match a, b with
  | NaN, _ | _, NaN => NaN
  | Fin x, Fin y =>
      if is_zero y
      then (if is_zero x then NaN else inf_of_sign (is_pos x))
      else Fin (x / y)%Qc
  | Fin _, PosInf | Fin _, NegInf => zero
  | PosInf, Fin y => inf_of_sign (negb (is_neg y))
  | NegInf, Fin y => inf_of_sign (is_neg y)
  | PosInf, PosInf | PosInf, NegInf | NegInf, PosInf | NegInf, NegInf => NaN
  end.

(** [a < b] *)
Definition ltb (a b : number) : bool :=
  match a, b with
  | NaN, _ | _, NaN => false
  | NegInf, NegInf => false
  | NegInf, _ => true
  | Fin _, NegInf => false
  | Fin x, Fin y => match (x ?= y)%Qc with Lt => true | _ => false end
  | Fin _, PosInf => true
  | PosInf, _ => false
  end.

(** [a > b] *)
Definition gtb (a b : number) : bool := ltb b a.

(** [a === b] on numbers *)
Definition eqb (a b : number) : bool :=
  match a, b with
  | NegInf, NegInf | PosInf, PosInf => true
  | Fin x, Fin y => match (x ?= y)%Qc with Eq => true | _ => false end
  | _, _ => false
  end.

(** truthiness of a number: [NaN] and zero are falsy *)
Definition truthy (a : number) : bool :=
  match a with
  | NaN => false
  | Fin x => negb (is_zero x)
  | NegInf | PosInf => true
  end.

(** [v || 0] where [v] may be [undefined] or [null] *)
Definition or_zero (v : option number) : number :=
  match v with
  | Some a => if truthy a then a else zero
  | None => zero
  end.

(** [Math.round(a)]: nearest integer, ties towards +Infinity *)
Definition Math_round (a : number) : number :=
  match a with
  | Fin x => of_Z (Qfloor (this x + (1 # 2)))
  | _ => a
  end.

(** one step of [Math.min]: [NaN] is contagious *)
Definition min2 (acc x : number) : number :=
  match acc, x with
  | NaN, _ | _, NaN => NaN
  | _, _ => if ltb x acc then x else acc
  end.

Definition max2 (acc x : number) : number :=
  match acc, x with
  | NaN, _ | _, NaN => NaN
  | _, _ => if ltb acc x then x else acc
  end.

(** [Math.min(...xs)]: [+Infinity] when there is no argument *)
Definition Math_min (xs : list number) : number := fold_left min2 xs PosInf.

(** [Math.max(...xs)]: [-Infinity] when there is no argument *)
Definition Math_max (xs : list number) : number := fold_left max2 xs NegInf.

(** [a <= b] as a proposition, on numbers that are not [NaN] *)
Definition le (a b : number) : Prop :=
  match a, b with
  | NaN, _ | _, NaN => False
  | NegInf, _ => True
  | _, PosInf => True
  | Fin x, Fin y => (x <= y)%Qc
  | _, _ => False
  end.

Definition is_NaN (a : number) : bool :=
  match a with NaN => true | _ => false end.

End JS.

Abbreviation number := JS.number.

(* ===================================================================== *)
(** * Data model ([lib/types.ts])                                         *)
(* ===================================================================== *)

Record Service : Type := {
  service_id : string;
  service_cwd : string;
  service_command : string;
  service_port : Z;
}.

Record MeasurementResult : Type := {
  score : number;
  fcp : number;
  lcp : number;
  tbt : number;
  cls : number;
  si : number;
}.

Record ScoreRange : Type := {
  minScore : number;
  maxScore : number;
}.

Record MeasurementSummary : Type := {
  summary_url : string;
  summary_runs : Z;
  summary_timestamp : string;
  overridesApplied : bool;
  summary_note : option string;
  averages : MeasurementResult;
  range : ScoreRange;
  rawScores : list number;
}.

Record MeasureOptions : Type := {
  opt_url : string;
  opt_runs : Z;
  opt_note : option string;
  opt_applyOverrides : bool;
}.

Record ComparisonResult : Type := {
  metric : string;
  before : number;
  after : number;
  diff : number;
  percentChange : number;
  improved : bool;
}.

Record TestScenario : Type := {
  scenario_id : string;
  scenario_note : string;
  scenario_url : string;
  scenario_runs : option Z;
  scenario_applyOverrides : option bool;
  scenario_enabled : option bool;
  scenario_tags : option (list string);
}.

(** One entry of [BatchResult.results]: [summary] is present on success,
    [error] on failure. *)
Record ScenarioOutcome : Type := {
  outcome_scenario : TestScenario;
  outcome_summary : option MeasurementSummary;
  outcome_error : option string;
  outcome_startedAt : string;
  outcome_completedAt : string;
}.

Record BatchResult : Type := {
  batchId : string;
  batch_startedAt : string;
  batch_completedAt : string;
  batch_tags : option (list string);
  totalScenarios : nat;
  completed : nat;
  failed : nat;
  duration : Z;
  results : list ScenarioOutcome;
}.

(** An entry of the process registry ([RunningProcess]). *)
Record RunningProcess : Type := {
  proc_name : string;
  proc_port : Z;
  proc_pid : Z;
}.

(** An entry returned by the port-ownership lookup. *)
Record ProcessEntry : Type := {
  entry_pid : Z;
  entry_name : string;
}.

(** The part of a Lighthouse report the runner reads. *)
Record LighthouseResult : Type := {
  performance_score : option number;
  audit_numericValue : string -> option number;
}.

(* ===================================================================== *)
(** * Exceptions, collaborators, program state                           *)
(* ===================================================================== *)

(** A thrown [Error] object. *)
Record Error : Type := { message : string }.

Inductive Result (A : Type) : Type :=
| Ok (a : A)
| Throw (e : Error).
Arguments Ok {A} a.
Arguments Throw {A} e.

(** External collaborators.  Each call is a transition of the outside
    [World]; the pure formatting primitives are functions. *)
Class Collaborators : Type := {
  World : Type;
  puppeteer_launch : World -> Result unit * World;
  browser_newPage : World -> Result unit * World;
  page_goto : string -> World -> Result unit * World;
  page_close : World -> Result unit * World;
  browser_close : World -> Result unit * World;
  lighthouse : string -> World -> Result LighthouseResult * World;
  (** [findProcess('port', port)] *)
  findProcess : Z -> World -> Result (list ProcessEntry) * World;
  (** [treeKill(pid, 'SIGKILL', cb)]: the error handed to the callback *)
  treeKill : Z -> World -> option Error * World;
  (** [new Date(ms).toISOString()] *)
  toISOString : Z -> string;
  number_toString : number -> string;
  JSON_stringify_summary : MeasurementSummary -> string;
  (** [JSON.stringify] of a log entry: summary, [loggedAt], tags, scenario *)
  JSON_stringify_entry :
    MeasurementSummary -> string -> option (list string) -> option string ->
    string;
  (** [JSON.stringify] of a batch entry: [loggedAt] and the batch result *)
  JSON_stringify_batch : string -> BatchResult -> string;
  (** [JSON.parse] of a summary document; [None] is a syntax error *)
  JSON_parse_summary : string -> option MeasurementSummary;
  (** [n.toFixed(digits)] *)
  toFixed : nat -> number -> string;
}.

(** The content of the registry side file. *)
Inductive PidFile : Type :=
| NoPidFile
| UnparsablePidFile
| SavedPids (l : list RunningProcess).

Section Program.
Context `{Collaborators}.

Record WebperfConfig : Type := {
  services : list Service;
  defaultUrl : string;
  defaultRuns : Z;
  applyOverrides : option (World -> Result unit * World);
}.

(** Program state: the outside world, the virtual clock (milliseconds),
    the files written so far (each file is the list of chunks written to
    it), the registry side file and the console. *)
Record State : Type := {
  world : World;
  now : Z;
  files : gmap string (list string);
  pidFile : PidFile;
  console : list string;
}.

Definition M (A : Type) : Type := State -> Result A * State.

Definition ret {A} (a : A) : M A := fun st => (Ok a, st).

Definition bind {A B} (m : M A) (k : A -> M B) : M B :=
  fun st =>
    match m st with
    | (Ok a, st') => k a st'
    | (Throw e, st') => (Throw e, st')
    end.

Definition throw {A} (e : Error) : M A := fun st => (Throw e, st).

(** [try { body } catch (e) { handler(e) }] *)
Definition try_catch {A} (body : M A) (handler : Error -> M A) : M A :=
  fun st =>
    match body st with
    | (Ok a, st') => (Ok a, st')
    | (Throw e, st') => handler e st'
    end.

(** [try { body } finally { fin }] *)
Definition try_finally {A} (body : M A) (fin : M unit) : M A :=
  fun st =>
    match body st with
    | (r, st') =>
        match fin st' with
        | (Ok _, st'') => (r, st'')
        | (Throw e, st'') => (Throw e, st'')
        end
    end.

(** a call to a collaborator that may throw *)
Definition call {A} (op : World -> Result A * World) : M A :=
  fun st =>
    let '(r, w) := op (world st) in
    (r, {| world := w; now := now st; files := files st;
           pidFile := pidFile st; console := console st |}).

(** [logger.log] and its variants ([logSuccess], [logError], [logWarn],
    [header], [boxHeader]): one console line *)
Definition log (line : string) : M unit :=
  fun st =>
    (Ok tt, {| world := world st; now := now st; files := files st;
               pidFile := pidFile st; console := console st ++ [line] |}).

(** [Date.now()] *)
Definition Date_now : M Z := fun st => (Ok (now st), st).

(** [new Date().toISOString()] *)
Definition Date_iso : M string := fun st => (Ok (toISOString (now st)), st).

(** [await new Promise(r => setTimeout(r, ms))] *)
Definition sleep (ms : Z) : M unit :=
  fun st =>
    (Ok tt, {| world := world st; now := now st + ms; files := files st;
               pidFile := pidFile st; console := console st |}).

Definition set_files (fs : gmap string (list string)) (st : State) : State :=
  {| world := world st; now := now st; files := fs;
     pidFile := pidFile st; console := console st |}.

Definition set_pidFile (pf : PidFile) (st : State) : State :=
  {| world := world st; now := now st; files := files st;
     pidFile := pf; console := console st |}.

(** [for (const x of l) { body(x) }] *)
Fixpoint for_each {A} (l : list A) (body : A -> M unit) : M unit :=
  match l with
  | [] => ret tt
  | x :: l' => bind (body x) (fun _ => for_each l' body)
  end.

End Program.

Declare Scope prog_scope.
Delimit Scope prog_scope with prog.
Notation "x <- m ;; k" := (bind m (fun x => k))
  (at level 100, m at next level, right associativity) : prog_scope.
Notation "m ;;; k" := (bind m (fun _ => k))
  (at level 100, right associativity) : prog_scope.
Local Open Scope prog_scope.

(* ===================================================================== *)
(** * Measurement runner ([lib/lighthouse-runner.ts])                     *)
(* ===================================================================== *)

Record RunOutput : Type := {
  out_metrics : list MeasurementResult;
  out_averages : MeasurementResult;
  out_minScore : number;
  out_maxScore : number;
}.

(** [average]: the mean of an array, 0 for the empty array. *)
Definition average (arr : list number) : number :=
  if (length arr =? 0)%nat then JS.zero
  else JS.div (fold_left JS.add arr JS.zero) (JS.of_nat (length arr)).

(** The metrics read off one Lighthouse report. *)
Definition metrics_of_lhr (lhr : LighthouseResult) : MeasurementResult :=
  {| score :=
       JS.Math_round (JS.mul (JS.or_zero (performance_score lhr)) (JS.of_Z 100));
     fcp := JS.or_zero (audit_numericValue lhr "first-contentful-paint");
     lcp := JS.or_zero (audit_numericValue lhr "largest-contentful-paint");
     tbt := JS.or_zero (audit_numericValue lhr "total-blocking-time");
     cls := JS.or_zero (audit_numericValue lhr "cumulative-layout-shift");
     si := JS.or_zero (audit_numericValue lhr "speed-index") |}.

(** The reduction at the end of [runMeasurements]. *)
Definition reduce_metrics (metrics : list MeasurementResult) : RunOutput :=
  let scores := map score metrics in
  {| out_metrics := metrics;
     out_averages :=
       {| score := average scores;
          fcp := average (map fcp metrics);
          lcp := average (map lcp metrics);
          tbt := average (map tbt metrics);
          cls := average (map cls metrics);
          si := average (map si metrics) |};
     out_minScore := JS.Math_min scores;
     out_maxScore := JS.Math_max scores |}.

Section Runner.
Context `{Collaborators}.

(** [applyCustomOverrides]: a failing override is reported, not thrown. *)
Definition applyCustomOverrides (config : WebperfConfig) : M unit :=
  match applyOverrides config with
  | None => log "No override function configured - skipping overrides."
  | Some f =>
      log "Applying custom overrides from config...";;;
      try_catch
        (call f;;;
         log "  ✓ Custom overrides applied successfully")
        (fun e => log ("  ✗ Override failed: " ++ message e))
  end.

(** [runSingleMeasurement] *)
Definition runSingleMeasurement (url : string) (runNumber totalRuns : Z)
  : M MeasurementResult :=
  log ("  Run " ++ pretty runNumber ++ "/" ++ pretty totalRuns ++ "...");;;
  lhr <- call (lighthouse url);;
  let metrics := metrics_of_lhr lhr in
  log ("    Score: " ++ number_toString (score metrics) ++ " | TBT: "
       ++ number_toString (JS.Math_round (tbt metrics)) ++ "ms");;;
  ret metrics.

(** The loop [for (let i = 1; i <= runs; i++)] with [n] iterations left. *)
Fixpoint run_loop (n : nat) (url : string) (i runs : Z)
    (metrics : list MeasurementResult) : M (list MeasurementResult) :=
  match n with
  | O => ret metrics
  | S n' =>
      result <- runSingleMeasurement url i runs;;
      let metrics := metrics ++ [result] in
      (if i <? runs then sleep 2000 else ret tt);;;
      run_loop n' url (i + 1) runs metrics
  end.

(** [runMeasurements] *)
Definition runMeasurements (options : MeasureOptions)
    (config : WebperfConfig) : M RunOutput :=
  log "Lighthouse Performance Measurement";;;
  log ("Target URL: " ++ opt_url options);;;
  log ("Number of runs: " ++ pretty (opt_runs options));;;
  match opt_note options with
  | Some n => if String.eqb n EmptyString then ret tt else log ("Note: " ++ n)
  | None => ret tt
  end;;;
  log ("Apply Overrides: "
       ++ if opt_applyOverrides options then "Yes" else "No");;;
  log "Launching Chrome...";;;
  call puppeteer_launch;;;
  try_finally
    ((if opt_applyOverrides options
      then match applyOverrides config with
           | Some _ =>
               call browser_newPage;;;
               call (page_goto (opt_url options));;;
               applyCustomOverrides config;;;
               call page_close
           | None =>
               log "Note: --applyOverrides requested but no applyOverrides function in config."
           end
      else ret tt);;;
     log "Running Lighthouse tests...";;;
     metrics <- run_loop (Z.to_nat (opt_runs options)) (opt_url options) 1
                  (opt_runs options) [];;
     ret (reduce_metrics metrics))
    (call browser_close).

End Runner.

(* ===================================================================== *)
(** * Strings and paths                                                   *)
(* ===================================================================== *)

(** [s.includes(sub)] *)
Fixpoint includes (s sub : string) : bool :=
  if String.prefix sub s then true
  else match s with
       | EmptyString => false
       | String _ s' => includes s' sub
       end.

(** [s.endsWith(suffix)] *)
Definition endsWith (s suffix : string) : bool :=
  let n := String.length s in
  let k := String.length suffix in
  (k <=? n)%nat && String.eqb (String.substring (n - k) k s) suffix.

Fixpoint map_string (f : ascii -> ascii) (s : string) : string :=
  match s with
  | EmptyString => EmptyString
  | String c s' => String (f c) (map_string f s')
  end.

Definition in_range (lo hi c : ascii) : bool :=
  (nat_of_ascii lo <=? nat_of_ascii c)%nat
  && (nat_of_ascii c <=? nat_of_ascii hi)%nat.

(** one character through [replace(/[^a-zA-Z0-9-_]/g, '-')] *)
Definition safe_char (c : ascii) : ascii :=
  if in_range "a" "z" c || in_range "A" "Z" c || in_range "0" "9" c
     || Ascii.eqb c "-" || Ascii.eqb c "_"
  then c else "-"%char.

(** one character through [toLowerCase()] *)
Definition lower_char (c : ascii) : ascii :=
  if in_range "A" "Z" c then ascii_of_nat (nat_of_ascii c + 32) else c.

(** [name.replace(/[^a-zA-Z0-9-_]/g, '-').toLowerCase()] *)
Definition sanitize (name : string) : string :=
  map_string lower_char (map_string safe_char name).

(** one character through [replace(/[:.]/g, '-')] *)
Definition stamp_char (c : ascii) : ascii :=
  if Ascii.eqb c ":" || Ascii.eqb c "." then "-"%char else c.

(** [path.join(dir, name)] for a plain file or directory name *)
Definition join (dir name : string) : string := dir ++ "/" ++ name.

(** a string used as a condition: the empty string is falsy *)
Definition nonempty (s : string) : bool := negb (String.eqb s EmptyString).

(** an optional string used as a condition *)
Definition truthy_str (s : option string) : bool :=
  match s with Some x => nonempty x | None => false end.

(** [tags && tags.length > 0] *)
Definition has_tags (tags : option (list string)) : bool :=
  match tags with Some (_ :: _) => true | _ => false end.

(** the tags iterated over by [for (const tag of tags)] under that guard *)
Definition tag_list (tags : option (list string)) : list string :=
  match tags with Some l => l | None => [] end.

(** [s.padEnd(n)] and [s.padStart(n)] with spaces *)
Fixpoint spaces (n : nat) : string :=
  match n with O => EmptyString | S n' => String " " (spaces n') end.
Definition padEnd (s : string) (n : nat) : string :=
  s ++ spaces (n - String.length s).
Definition padStart (s : string) (n : nat) : string :=
  spaces (n - String.length s) ++ s.

(** The settings the result log reads, with both paths already resolved
    ([getResultsPath], [getJsonlLogPath]). *)
Record UserSettings : Type := {
  resultsPath : string;
  jsonlLogPath : string;
  notePrefix : option string;
  maxConcurrency : option Z;
  scenarios : option (list TestScenario);
}.

(** [getLogPathForTag] *)
Definition getLogPathForTag (settings : UserSettings) (tag : string) : string :=
  let tagsDir := join (resultsPath settings) "tags" in
  join tagsDir (sanitize tag ++ ".jsonl").

(** [getLogPathForScenario] *)
Definition getLogPathForScenario (settings : UserSettings) (scenarioId : string)
  : string :=
  let scenariosDir := join (resultsPath settings) "scenarios" in
  join scenariosDir (sanitize scenarioId ++ ".jsonl").

(** Content of a file: the chunks written to it, oldest first; a missing
    file has none. *)
Definition file_chunks (fs : gmap string (list string)) (path : string)
  : list string :=
  default [] (fs !! path).

(** effect of [appendFileSync(path, data)] on the files *)
Definition append_file (path data : string) (fs : gmap string (list string))
  : gmap string (list string) :=
  <[path := file_chunks fs path ++ [data]]> fs.

(** effect of [writeFileSync(path, data)] on the files *)
Definition write_file (path data : string) (fs : gmap string (list string))
  : gmap string (list string) :=
  <[path := [data]]> fs.

(** Options of [saveResults]. *)
Record SaveResultsOptions : Type := {
  save_url : string;
  save_runs : Z;
  save_averages : MeasurementResult;
  save_minScore : number;
  save_maxScore : number;
  save_rawScores : list number;
  save_overridesApplied : bool;
  save_note : option string;
  save_tags : option (list string);
  save_scenarioId : option string;
}.

(* ===================================================================== *)
(** * Result log ([lib/results.ts])                                       *)
(* ===================================================================== *)

Definition newline : string := String (ascii_of_nat 10) EmptyString.
Definition dquote : string := String (ascii_of_nat 34) EmptyString.
Definition backslash : string := String (ascii_of_nat 92) EmptyString.

(** the note suffix of the header lines of [compareResults] *)
Definition quoted_note (note : option string) : string :=
  match note with
  | Some n => if nonempty n then " (" ++ dquote ++ n ++ dquote ++ ")" else EmptyString
  | None => EmptyString
  end.

(** [s.replace(pat, by)]: the first occurrence only *)
Fixpoint replace_first (s pat by_ : string) : string :=
  if String.prefix pat s
  then by_ ++ String.substring (String.length pat)
                (String.length s - String.length pat) s
  else match s with
       | EmptyString => EmptyString
       | String c s' => String c (replace_first s' pat by_)
       end.

(** The six rows built by [compareResults]. *)
Definition compare_metric (name : string) (lower_is_better : bool)
    (b a : number) : ComparisonResult :=
  {| metric := name;
     before := b;
     after := a;
     diff := JS.sub a b;
     percentChange := JS.mul (JS.div (JS.sub a b) b) (JS.of_Z 100);
     improved := if lower_is_better then JS.ltb a b else JS.gtb a b |}.

Definition comparisons (summary1 summary2 : MeasurementSummary)
  : list ComparisonResult :=
  let a1 := averages summary1 in
  let a2 := averages summary2 in
  [ compare_metric "Performance Score" false (score a1) (score a2);
    compare_metric "FCP (ms)" true (fcp a1) (fcp a2);
    compare_metric "LCP (ms)" true (lcp a1) (lcp a2);
    compare_metric "TBT (ms)" true (tbt a1) (tbt a2);
    compare_metric "CLS" true (cls a1) (cls a2);
    compare_metric "Speed Index (ms)" true (si a1) (si a2) ].

Section ResultLog.
Context `{Collaborators}.
Variable settings : UserSettings.

Definition appendFileSync (path data : string) : M unit :=
  fun st => (Ok tt, set_files (append_file path data (files st)) st).

Definition writeFileSync (path data : string) : M unit :=
  fun st => (Ok tt, set_files (write_file path data (files st)) st).

Definition existsSync (path : string) : M bool :=
  fun st => (Ok (bool_decide (is_Some (files st !! path))), st).

Definition readFileSync (path : string) : M string :=
  fun st =>
    match files st !! path with
    | Some chunks => (Ok (String.concat EmptyString chunks), st)
    | None => (Throw {| message := "ENOENT: no such file or directory" |}, st)
    end.

(** [generateTimestamp] *)
Definition generateTimestamp : M string :=
  iso <- Date_iso;;
  ret (String.substring 0 19 (map_string stamp_char iso)).

(** [appendToJsonlLog] *)
Definition appendToJsonlLog (summary : MeasurementSummary)
    (tags : option (list string)) (scenarioId : option string) : M unit :=
  let mainLogPath := jsonlLogPath settings in
  loggedAt <- Date_iso;;
  let jsonLine : string :=
    (JSON_stringify_entry summary loggedAt
       (if has_tags tags then tags else None)
       (if truthy_str scenarioId then scenarioId else None) ++ newline)%string in
  appendFileSync mainLogPath jsonLine;;;
  log ("  → " ++ mainLogPath);;;
  (if has_tags tags
   then for_each (tag_list tags) (fun tag =>
          let tagLogPath := getLogPathForTag settings tag in
          appendFileSync tagLogPath jsonLine;;;
          log ("  → " ++ tagLogPath))
   else ret tt);;;
  match scenarioId with
  | Some id =>
      if nonempty id
      then let scenarioLogPath := getLogPathForScenario settings id in
           appendFileSync scenarioLogPath jsonLine;;;
           log ("  → " ++ scenarioLogPath)
      else ret tt
  | None => ret tt
  end.

(** the session directory name chosen by [saveResults] *)
Definition session_dirName (tags : option (list string))
    (scenarioId : option string) (timestamp : string) : string :=
  let tagsPrefix :=
    if has_tags tags then Some (String.concat "-" (tag_list tags)) else None in
  if truthy_str tagsPrefix
  then default EmptyString tagsPrefix ++ "--"
       ++ (if truthy_str scenarioId then default EmptyString scenarioId else "adhoc")
       ++ "--" ++ timestamp
  else timestamp.

(** the summary document built by [saveResults] *)
Definition summary_of_options (options : SaveResultsOptions)
    (timestamp : string) : MeasurementSummary :=
  {| summary_url := save_url options;
     summary_runs := save_runs options;
     summary_timestamp := timestamp;
     overridesApplied := save_overridesApplied options;
     summary_note :=
       if truthy_str (save_note options) then save_note options else None;
     averages := save_averages options;
     range := {| minScore := save_minScore options;
                 maxScore := save_maxScore options |};
     rawScores := save_rawScores options |}.

(** [saveResults]; returns the session directory *)
Definition saveResults (options : SaveResultsOptions) : M string :=
  let resultsDir := resultsPath settings in
  timestamp <- generateTimestamp;;
  let dirName :=
    session_dirName (save_tags options) (save_scenarioId options) timestamp in
  let sessionDir := join resultsDir dirName in
  let summary := summary_of_options options timestamp in
  let summaryPath := join sessionDir "summary.json" in
  writeFileSync summaryPath (JSON_stringify_summary summary);;;
  appendToJsonlLog summary (save_tags options) (save_scenarioId options);;;
  log ("Results saved to: " ++ sessionDir ++ "/");;;
  ret sessionDir.

(** [loadSummary]: [None] stands for [null] *)
Definition loadSummary (pathOrTimestamp : string)
  : M (option MeasurementSummary) :=
  let resultsDir := resultsPath settings in
  let summaryPath :=
    if negb (includes pathOrTimestamp "/") && negb (includes pathOrTimestamp backslash)
    then join (join resultsDir pathOrTimestamp) "summary.json"
    else if negb (endsWith pathOrTimestamp ".json")
         then join pathOrTimestamp "summary.json"
         else pathOrTimestamp in
  try_catch
    (present <- existsSync summaryPath;;
     if (present : bool)
     then content <- readFileSync summaryPath;;
          match JSON_parse_summary content with
          | Some s => ret (Some s)
          | None => throw {| message := "Unexpected token in JSON" |}
          end
     else ret None)
    (fun _ => ret None).

(** the text of one row printed by [compareResults] *)
Definition comparison_row (comp : ComparisonResult) : string :=
  let sign : string :=
    if JS.gtb (diff comp) JS.zero then "+" else EmptyString in
  let '(beforeStr, afterStr, diffStr) :=
    if String.eqb (metric comp) "CLS"
    then (toFixed 3 (before comp), toFixed 3 (after comp),
          (sign ++ toFixed 3 (diff comp))%string)
    else (number_toString (JS.Math_round (before comp)),
          number_toString (JS.Math_round (after comp)),
          (sign ++ number_toString (JS.Math_round (diff comp)) ++ " ("
            ++ sign ++ toFixed 1 (percentChange comp) ++ "%)")%string) in
  "  " ++ padEnd (metric comp) 30 ++ " " ++ padStart beforeStr 10 ++ " "
    ++ padStart afterStr 10 ++ " " ++ padStart diffStr 15.

(** [compareResults] *)
Definition compareResults (path1 path2 : string) : M unit :=
  summary1 <- loadSummary path1;;
  summary2 <- loadSummary path2;;
  match summary1, summary2 with
  | None, _ => log ("Could not load results from: " ++ path1)
  | Some _, None => log ("Could not load results from: " ++ path2)
  | Some s1, Some s2 =>
      log "COMPARISON RESULTS";;;
      log ("  Before: " ++ summary_timestamp s1
           ++ quoted_note (summary_note s1));;;
      log ("  After:  " ++ summary_timestamp s2
           ++ quoted_note (summary_note s2));;;
      log ("  " ++ padEnd "Metric" 30 ++ " " ++ padStart "Before" 10 ++ " "
           ++ padStart "After" 10 ++ " " ++ padStart "Change" 15);;;
      for_each (comparisons s1 s2) (fun comp => log (comparison_row comp))
  end.

(** [saveBatchResult] *)
Definition saveBatchResult (batchResult : BatchResult) : M unit :=
  let jsonlPath := jsonlLogPath settings in
  let resultsDir := resultsPath settings in
  let batchLogPath := replace_first jsonlPath ".jsonl" ".batch.jsonl" in
  loggedAt <- Date_iso;;
  let jsonLine : string :=
    (JSON_stringify_batch loggedAt batchResult ++ newline)%string in
  appendFileSync batchLogPath jsonLine;;;
  log ("  → " ++ batchLogPath);;;
  if has_tags (batch_tags batchResult)
  then let tagsDir := join resultsDir "tags" in
       for_each (tag_list (batch_tags batchResult)) (fun tag =>
         let tagBatchLogPath := join tagsDir (sanitize tag ++ ".batch.jsonl") in
         appendFileSync tagBatchLogPath jsonLine;;;
         log ("  → " ++ tagBatchLogPath))
  else ret tt.

End ResultLog.

(* ===================================================================== *)
(** * Process lifecycle manager ([lib/process-manager.ts])                *)
(* ===================================================================== *)

(** the test of [killProcess] for an already dead process *)
Definition is_process_not_found (err : Error) : bool :=
  includes (message err) "No such process" || includes (message err) "ESRCH".

(** the line announcing the teardown *)
Definition stopping_line : string := "Stopping all processes...".

Section ProcessManager.
Context `{Collaborators}.

(** [isPortInUse] *)
Definition isPortInUse (port : Z) : M bool :=
  try_catch
    (list <- call (findProcess port);;
     ret (0 <? length list)%nat)
    (fun _ => ret false).

(** [getProcessOnPort]: [None] stands for [null] *)
Definition getProcessOnPort (port : Z) : M (option ProcessEntry) :=
  try_catch
    (list <- call (findProcess port);;
     match list with
     | first :: _ => ret (Some first)
     | [] => ret None
     end)
    (fun _ => ret None).

(** number of polls that fit in [timeoutMs] at one poll per [interval] *)
Definition poll_budget (timeoutMs interval : Z) : nat :=
  S (S (Z.to_nat (timeoutMs / interval))).

(** the loop of [waitForPort], at most [fuel] polls *)
Fixpoint waitForPort_loop (fuel : nat) (port startTime timeoutMs : Z)
  : M bool :=
  match fuel with
  | O => ret false
  | S fuel' =>
      t <- Date_now;;
      if t - startTime <? timeoutMs
      then inUse <- isPortInUse port;;
           if (inUse : bool) then ret true
           else sleep 1000;;; waitForPort_loop fuel' port startTime timeoutMs
      else ret false
  end.

(** [waitForPort] *)
Definition waitForPort (port timeoutMs : Z) : M bool :=
  startTime <- Date_now;;
  waitForPort_loop (poll_budget timeoutMs 1000) port startTime timeoutMs.

(** the loop of [waitForPortFree], at most [fuel] polls *)
Fixpoint waitForPortFree_loop (fuel : nat) (port startTime timeoutMs : Z)
  : M bool :=
  match fuel with
  | O => ret false
  | S fuel' =>
      t <- Date_now;;
      if t - startTime <? timeoutMs
      then inUse <- isPortInUse port;;
           if negb inUse then ret true
           else sleep 500;;; waitForPortFree_loop fuel' port startTime timeoutMs
      else ret false
  end.

(** [waitForPortFree] *)
Definition waitForPortFree (port timeoutMs : Z) : M bool :=
  startTime <- Date_now;;
  waitForPortFree_loop (poll_budget timeoutMs 500) port startTime timeoutMs.

(** [killProcess]: resolves, or rejects with the error of the kill *)
Definition killProcess (pid : Z) : M unit :=
  err <- call (fun w => let '(e, w') := treeKill pid w in (Ok e, w'));;
  match err with
  | Some e => if is_process_not_found e then ret tt else throw e
  | None => ret tt
  end.

(** [savePids] *)
Definition savePids (processes : list RunningProcess) : M unit :=
  fun st => (Ok tt, set_pidFile (SavedPids processes) st).

(** [loadPids]: a missing or unparsable file is an empty registry *)
Definition loadPids : M (list RunningProcess) :=
  fun st =>
    match pidFile st with
    | SavedPids l => (Ok l, st)
    | NoPidFile | UnparsablePidFile => (Ok [], st)
    end.

(** [clearPids] *)
Definition clearPids : M unit :=
  fun st => (Ok tt, set_pidFile NoPidFile st).

(** first phase of [stopAll]: kill the recorded pids, clear the registry *)
Definition stopAll_registry : M unit :=
  savedPids <- loadPids;;
  for_each savedPids (fun proc =>
    try_catch
      (killProcess (proc_pid proc);;;
       log ("  Stopped " ++ proc_name proc ++ " (PID: "
            ++ pretty (proc_pid proc) ++ ")"))
      (fun _ => ret tt));;;
  clearPids.

(** second phase of [stopAll]: kill whatever holds a declared port *)
Definition stopAll_ports (allPorts : list Z) : M unit :=
  for_each allPorts (fun port =>
    proc <- getProcessOnPort port;;
    match proc with
    | Some p =>
        try_catch
          (killProcess (entry_pid p);;;
           log ("  Killed process on port " ++ pretty port ++ " (PID: "
                ++ pretty (entry_pid p) ++ ")"))
          (fun _ => ret tt)
    | None => ret tt
    end).

(** third phase of [stopAll]: wait for the declared ports to go free *)
Definition stopAll_wait (allPorts : list Z) : M unit :=
  if (0 <? length allPorts)%nat
  then log "Waiting for ports to be free...";;;
       for_each allPorts (fun port =>
         _ <- waitForPortFree port 5000;; ret tt)
  else ret tt.

(** [stopAll] *)
Definition stopAll (config : WebperfConfig) : M unit :=
  log stopping_line;;;
  stopAll_registry;;;
  let allPorts := map service_port (services config) in
  stopAll_ports allPorts;;;
  stopAll_wait allPorts;;;
  log "All processes stopped.".

(** the scan of [ensurePortsFree]: stops at the first port in use *)
Fixpoint any_port_in_use (allPorts : list Z) : M bool :=
  match allPorts with
  | [] => ret false
  | port :: rest =>
      inUse <- isPortInUse port;;
      if (inUse : bool) then ret true else any_port_in_use rest
  end.

(** [ensurePortsFree] *)
Definition ensurePortsFree (config : WebperfConfig) : M unit :=
  let allPorts := map service_port (services config) in
  portsInUse <- any_port_in_use allPorts;;
  if (portsInUse : bool)
  then log "Detected running services. Stopping them first...";;;
       stopAll config
  else ret tt.

(** [waitForServices] *)
Fixpoint wait_all_ports (allPorts : list Z) : M bool :=
  match allPorts with
  | [] => log "All services are ready!";;; ret true
  | port :: rest =>
      ready <- waitForPort port 120000;;
      if (ready : bool) then wait_all_ports rest
      else log ("Timeout waiting for port " ++ pretty port);;; ret false
  end.

Definition waitForServices (config : WebperfConfig) : M bool :=
  log "Waiting for services to be ready...";;;
  wait_all_ports (map service_port (services config)).

End ProcessManager.

(* ===================================================================== *)
(** * Batch scheduler (the [batch] command of [perf.ts])                  *)
(* ===================================================================== *)

(** the parsed command line, as far as [batch] reads it *)
Record BatchArgs : Type := {
  arg_runs : Z;
  arg_tags : list string;
  arg_concurrency : option Z;
  arg_scenarioId : option string;
}.

(** [a || b] on an optional integer: [undefined] and 0 are falsy *)
Definition or_Z (a : option Z) (b : Z) : Z :=
  match a with
  | Some x => if x =? 0 then b else x
  | None => b
  end.

(** [s.enabled !== false] *)
Definition is_enabled (s : TestScenario) : bool :=
  match scenario_enabled s with
  | Some false => false
  | _ => true
  end.

(** the tag filter: the scenario carries every requested tag *)
Definition has_all_tags (tags : list string) (s : TestScenario) : bool :=
  match scenario_tags s with
  | Some (t :: ts) =>
      forallb (fun tag => existsb (String.eqb tag) (t :: ts)) tags
  | _ => false
  end.

(** [args.concurrency || settings.maxConcurrency || 1] *)
Definition batch_concurrency (args : BatchArgs) (settings : UserSettings) : Z :=
  or_Z (arg_concurrency args) (or_Z (maxConcurrency settings) 1).

(** A scenario whose [runScenario] call has started and not yet resolved. *)
Record Started : Type := {
  started_scenario : TestScenario;
  scenarioStartedAt : string;
  scenarioRuns : Z;
  fullNote : option string;
}.

(** Which running scenarios resolve while the main loop is suspended in
    round [n] of [await Promise.race(running)]: at least one, by position
    in [running]. *)
Definition Schedule : Type := nat -> nat * list nat.

(** How the command ends. *)
Inductive BatchExit : Type :=
| Exited (code : Z)
| Finished (batchResult : BatchResult).

(** [results.push(outcome); completed++] *)
Definition record_success (outcome : ScenarioOutcome) (b : BatchResult)
  : BatchResult :=
  {| batchId := batchId b; batch_startedAt := batch_startedAt b;
     batch_completedAt := batch_completedAt b; batch_tags := batch_tags b;
     totalScenarios := totalScenarios b;
     completed := S (completed b); failed := failed b;
     duration := duration b; results := results b ++ [outcome] |}.

(** [results.push(outcome); failed++] *)
Definition record_failure (outcome : ScenarioOutcome) (b : BatchResult)
  : BatchResult :=
  {| batchId := batchId b; batch_startedAt := batch_startedAt b;
     batch_completedAt := batch_completedAt b; batch_tags := batch_tags b;
     totalScenarios := totalScenarios b;
     completed := completed b; failed := S (failed b);
     duration := duration b; results := results b ++ [outcome] |}.

(** [batchResult.duration = ...; batchResult.completedAt = ...] *)
Definition finalize (d : Z) (completedAt : string) (b : BatchResult)
  : BatchResult :=
  {| batchId := batchId b; batch_startedAt := batch_startedAt b;
     batch_completedAt := completedAt; batch_tags := batch_tags b;
     totalScenarios := totalScenarios b;
     completed := completed b; failed := failed b;
     duration := d; results := results b |}.

(** [running.splice(i, 1)] *)
Definition splice {A} (i : nat) (l : list A) : list A :=
  take i l ++ drop (S i) l.

(** the [MeasureOptions] built by [runScenario] *)
Definition scenario_options (s : Started) : MeasureOptions :=
  {| opt_url := scenario_url (started_scenario s);
     opt_runs := scenarioRuns s;
     opt_note := fullNote s;
     opt_applyOverrides :=
       default false (scenario_applyOverrides (started_scenario s)) |}.

(** the outcome pushed by the [catch] branch of [runScenario] *)
Definition failed_outcome (s : Started) (err : Error) (completedAt : string)
  : ScenarioOutcome :=
  {| outcome_scenario := started_scenario s;
     outcome_summary := None;
     outcome_error := Some (message err);
     outcome_startedAt := scenarioStartedAt s;
     outcome_completedAt := completedAt |}.

Section Batch.
Context `{Collaborators}.
Variable args : BatchArgs.
Variable config : WebperfConfig.
Variable settings : UserSettings.

(** [runScenario] up to its first suspension *)
Definition runScenario_begin (scenario : TestScenario) : M Started :=
  startedAt <- Date_iso;;
  let runs := or_Z (scenario_runs scenario) (arg_runs args) in
  let note :=
    if nonempty (scenario_note scenario)
    then Some (if truthy_str (notePrefix settings)
               then (default EmptyString (notePrefix settings) ++ " "
                     ++ scenario_note scenario)%string
               else scenario_note scenario)
    else None in
  let tagsLabel :=
    if has_tags (scenario_tags scenario)
    then String.concat ", " (tag_list (scenario_tags scenario))
    else "untagged" in
  log ("Starting: " ++ scenario_id scenario ++ " [" ++ tagsLabel ++ "]");;;
  ret {| started_scenario := scenario; scenarioStartedAt := startedAt;
         scenarioRuns := runs; fullNote := note |}.

(** [runScenario] from the measurement to its end; the shared
    [batchResult] is read and written only here *)
Definition runScenario_settle (s : Started) (batchResult : BatchResult)
  : M BatchResult :=
  let scenario := started_scenario s in
  let overrides := default false (scenario_applyOverrides scenario) in
  let options := scenario_options s in
  try_catch
    (out <- runMeasurements options config;;
     scenarioCompletedAt <- Date_iso;;
     let summary :=
       {| summary_url := scenario_url scenario;
          summary_runs := scenarioRuns s;
          summary_timestamp := scenarioCompletedAt;
          overridesApplied := overrides;
          summary_note := fullNote s;
          averages := out_averages out;
          range := {| minScore := out_minScore out;
                      maxScore := out_maxScore out |};
          rawScores := map score (out_metrics out) |} in
     saveResults settings
       {| save_url := scenario_url scenario;
          save_runs := scenarioRuns s;
          save_averages := out_averages out;
          save_minScore := out_minScore out;
          save_maxScore := out_maxScore out;
          save_rawScores := map score (out_metrics out);
          save_overridesApplied := overrides;
          save_note := fullNote s;
          save_tags := scenario_tags scenario;
          save_scenarioId := Some (scenario_id scenario) |};;;
     let batchResult :=
       record_success
         {| outcome_scenario := scenario;
            outcome_summary := Some summary;
            outcome_error := None;
            outcome_startedAt := scenarioStartedAt s;
            outcome_completedAt := scenarioCompletedAt |} batchResult in
     log ("✓ Completed: " ++ scenario_id scenario ++ " - Score: "
          ++ toFixed 0 (score (out_averages out)));;;
     ret batchResult)
    (fun err =>
       completedAt <- Date_iso;;
       let batchResult :=
         record_failure (failed_outcome s err completedAt) batchResult in
       log ("✗ Failed: " ++ scenario_id scenario ++ " - " ++ message err);;;
       ret batchResult).

(** [await runScenario(scenario)] *)
Definition runScenario (scenario : TestScenario) (batchResult : BatchResult)
  : M BatchResult :=
  s <- runScenario_begin scenario;;
  runScenario_settle s batchResult.

(** sequential execution: [for (const scenario of filteredScenarios)] *)
Fixpoint run_sequential (scenarios : list TestScenario)
    (batchResult : BatchResult) : M BatchResult :=
  match scenarios with
  | [] => ret batchResult
  | scenario :: rest =>
      batchResult <- runScenario scenario batchResult;;
      run_sequential rest batchResult
  end.

(** the inner loop
    [while (running.length < concurrency && queue.length > 0)] *)
Fixpoint start_queued (concurrency : Z) (queue : list TestScenario)
    (running : list Started) : M (list TestScenario * list Started) :=
  match queue with
  | [] => ret ([], running)
  | scenario :: queue' =>
      if Z.of_nat (length running) <? concurrency
      then s <- runScenario_begin scenario;;
           start_queued concurrency queue' (running ++ [s])
      else ret (queue, running)
  end.

(** the running scenario at position [i] (counted cyclically) resolves and
    is spliced out of [running] *)
Definition settle_at (i : nat) (running : list Started)
    (batchResult : BatchResult) : M (list Started * BatchResult) :=
  let k := (i mod length running)%nat in
  match running !! k with
  | Some s =>
      batchResult <- runScenario_settle s batchResult;;
      ret (splice k running, batchResult)
  | None => ret (running, batchResult)
  end.

Fixpoint settle_more (picks : list nat) (running : list Started)
    (batchResult : BatchResult) : M (list Started * BatchResult) :=
  match picks with
  | [] => ret (running, batchResult)
  | i :: picks' =>
      p <- settle_at i running batchResult;;
      settle_more picks' (fst p) (snd p)
  end.

(** [await Promise.race(running)]: the scenarios resolving meanwhile *)
Definition race (picks : nat * list nat) (running : list Started)
    (batchResult : BatchResult) : M (list Started * BatchResult) :=
  p <- settle_at (fst picks) running batchResult;;
  settle_more (snd picks) (fst p) (snd p).

(** the outer loop [while (queue.length > 0 || running.length > 0)],
    at most [fuel] iterations; [None] when it is still looping then *)
Fixpoint run_pool (fuel : nat) (sched : Schedule) (round : nat)
    (concurrency : Z) (queue : list TestScenario) (running : list Started)
    (batchResult : BatchResult) : M (option BatchResult) :=
  match fuel with
  | O => ret None
  | S fuel' =>
      match queue, running with
      | [], [] => ret (Some batchResult)
      | _, _ =>
          started <- start_queued concurrency queue running;;
          let queue := fst started in
          let running := snd started in
          match running with
          | [] =>
              run_pool fuel' sched (S round) concurrency queue running
                batchResult
          | _ :: _ =>
              raced <- race (sched round) running batchResult;;
              run_pool fuel' sched (S round) concurrency queue (fst raced)
                (snd raced)
          end
      end
  end.

(** the execution of a batch: from the creation of [batchResult] to the
    assignment of [completedAt] *)
Definition run_batch (fuel : nat) (sched : Schedule)
    (filteredScenarios : list TestScenario) (concurrency : Z)
  : M (option BatchResult) :=
  iso <- Date_iso;;
  let batchId := map_string stamp_char iso in
  log ("Batch Performance Test (" ++ pretty (length filteredScenarios)
       ++ " scenarios)");;;
  log ("  Batch ID: " ++ batchId);;;
  (if 1 <? concurrency
   then log ("  Concurrency: " ++ pretty concurrency
             ++ " (parallel - may affect accuracy)")
   else log "  Mode: Sequential (recommended for accurate results)");;;
  log ("  Scenarios: "
       ++ String.concat ", " (map scenario_id filteredScenarios));;;
  startTime <- Date_now;;
  startedAt <- Date_iso;;
  let batchResult :=
    {| batchId := batchId; batch_startedAt := startedAt;
       batch_completedAt := EmptyString;
       batch_tags := match arg_tags args with
                     | [] => None
                     | _ :: _ => Some (arg_tags args)
                     end;
       totalScenarios := length filteredScenarios;
       completed := 0; failed := 0; duration := 0; results := [] |} in
  done <- (if concurrency =? 1
           then b <- run_sequential filteredScenarios batchResult;;
                ret (Some b)
           else run_pool fuel sched 0 concurrency filteredScenarios []
                  batchResult);;
  match done with
  | None => ret None
  | Some batchResult =>
      t <- Date_now;;
      completedAt <- Date_iso;;
      ret (Some (finalize (t - startTime) completedAt batchResult))
  end.

End Batch.

Section BatchCommand.
Context `{Collaborators}.
Variable args : BatchArgs.
Variable config : WebperfConfig.
Variable settings : UserSettings.

(** the batch summary printed once every scenario has resolved *)
Definition print_batch_summary (batchResult : BatchResult) : M unit :=
  log "Batch Summary";;;
  log ("  Total scenarios:  " ++ pretty (totalScenarios batchResult));;;
  log ("  Completed:        " ++ pretty (completed batchResult));;;
  log ("  Failed:           " ++ pretty (failed batchResult));;;
  log ("  Duration:         "
       ++ toFixed 1 (JS.div (JS.of_Z (duration batchResult)) (JS.of_Z 1000))
       ++ "s");;;
  match results batchResult with
  | [] => ret tt
  | _ :: _ =>
      log "Results:";;;
      for_each (results batchResult) (fun result =>
        let id := scenario_id (outcome_scenario result) in
        match outcome_summary result with
        | Some summary =>
            log ("  " ++ id ++ ": " ++ toFixed 0 (score (averages summary))
                 ++ " - " ++ scenario_note (outcome_scenario result))
        | None =>
            log ("  " ++ id ++ ": FAILED - "
                 ++ default EmptyString (outcome_error result))
        end)
  end.

(** the [batch] case of [main]; [None] while the pool is still looping
    after [fuel] iterations *)
Definition batch_command (fuel : nat) (sched : Schedule)
  : M (option BatchExit) :=
  let all := default [] (scenarios settings) in
  match all with
  | [] =>
      log "No scenarios defined in settings.";;;
      ret (Some (Exited 1))
  | _ :: _ =>
      let enabled := filter is_enabled all in
      let tagged :=
        match arg_tags args with
        | [] => enabled
        | _ :: _ => filter (has_all_tags (arg_tags args)) enabled
        end in
      match arg_tags args, tagged with
      | _ :: _, [] =>
          log ("No scenarios found with tags: "
               ++ String.concat ", " (arg_tags args));;;
          ret (Some (Exited 1))
      | _, _ =>
          let wanted := truthy_str (arg_scenarioId args) in
          let filteredScenarios :=
            if wanted
            then filter (fun s => String.eqb (scenario_id s)
                                    (default EmptyString (arg_scenarioId args)))
                   tagged
            else tagged in
          match wanted, filteredScenarios with
          | true, [] =>
              log ("Scenario not found: "
                   ++ default EmptyString (arg_scenarioId args));;;
              ret (Some (Exited 1))
          | _, _ =>
              let concurrency := batch_concurrency args settings in
              done <- run_batch args config settings fuel sched
                        filteredScenarios concurrency;;
              match done with
              | None => ret None
              | Some batchResult =>
                  print_batch_summary batchResult;;;
                  saveBatchResult settings batchResult;;;
                  ret (Some (Finished batchResult))
              end
          end
      end
  end.

End BatchCommand.

(* ===================================================================== *)
(** * Starting services and their status ([lib/process-manager.ts])       *)
(* ===================================================================== *)

Record ProcessInfo : Type := {
  info_name : string;
  info_port : Z;
  info_pid : option Z;
  info_running : bool;
}.

(** What the process manager asks of the operating system to start a
    service. *)
Class Launcher `{Collaborators} : Type := {
  (** [process.platform === 'win32'] *)
  isWindows : bool;
  (** [existsSync(dir)] for the working directory of a service *)
  directoryExists : string -> World -> bool;
  (** [spawn(command, {cwd, shell: true, detached, ...})], by command,
      working directory and [detached]: the [pid] of the child, [None] for
      [undefined] *)
  spawn : string -> string -> bool -> World -> Result (option Z) * World;
}.

Section Launching.
Context `{Launcher}.

(** [startProcess]; the child is returned as its [pid] *)
Definition startProcess (name cwd command : string) (port : Z)
  : M (option Z) :=
  child <- call (spawn command cwd (negb isWindows));;
  match child with
  | Some pid =>
      if pid =? 0 then ret child
      else pids <- loadPids;;
           savePids (pids ++ [ {| proc_name := name; proc_port := port;
                                  proc_pid := pid |} ]);;;
           log (name ++ " started (PID: " ++ pretty pid ++ ")");;;
           ret child
  | None => ret child
  end.

(** [startService]: [None] stands for [null] *)
Definition startService (service : Service) : M (option (option Z)) :=
  present <- (fun st =>
                (Ok (directoryExists (service_cwd service) (world st)), st));;
  if negb present
  then log ("Service directory not found: " ++ service_cwd service);;;
       ret None
  else log ("Starting " ++ service_id service ++ "...");;;
       child <- startProcess (service_id service) (service_cwd service)
                  (service_command service) (service_port service);;
       ret (Some child).

(** [startAllServices] *)
Definition startAllServices (config : WebperfConfig) : M unit :=
  if (length (services config) =? 0)%nat
  then log "No services configured."
  else log "Starting all services...";;;
       for_each (services config) (fun service =>
         _ <- startService service;; ret tt);;;
       log "All services started!".

End Launching.

Section Status.
Context `{Collaborators}.

(** the loop of [getStatus] *)
Fixpoint getStatus_loop (l : list Service) (results : list ProcessInfo)
  : M (list ProcessInfo) :=
  match l with
  | [] => ret results
  | service :: rest =>
      proc <- getProcessOnPort (service_port service);;
      getStatus_loop rest
        (results ++ [ {| info_name := service_id service;
                         info_port := service_port service;
                         info_pid := option_map entry_pid proc;
                         info_running :=
                           match proc with Some _ => true | None => false end
                      |} ])
  end.

(** [getStatus] *)
Definition getStatus (config : WebperfConfig) : M (list ProcessInfo) :=
  getStatus_loop (services config) [].

(** the loop of [printStatus]; returns [runningCount] *)
Fixpoint printStatus_loop (statuses : list ProcessInfo) (runningCount : nat)
  : M nat :=
  match statuses with
  | [] => ret runningCount
  | status :: rest =>
      if info_running status
      then log ("  ✓ " ++ padEnd (info_name status) 30
                ++ " → http://localhost:" ++ pretty (info_port status) ++ "/");;;
           printStatus_loop rest (S runningCount)
      else log ("  ✗ " ++ padEnd (info_name status) 30 ++ " → not running");;;
           printStatus_loop rest runningCount
  end.

(** [printStatus] *)
Definition printStatus (config : WebperfConfig) : M unit :=
  log "Service Status:";;;
  statuses <- getStatus config;;
  if (length statuses =? 0)%nat
  then log "  No services configured."
  else runningCount <- printStatus_loop statuses 0;;
       if (runningCount =? length statuses)%nat
       then log ("All " ++ pretty runningCount ++ "/"
                 ++ pretty (length statuses) ++ " services are running!")
       else log (pretty runningCount ++ "/" ++ pretty (length statuses)
                 ++ " services running").

End Status.

(* ===================================================================== *)
(** * Printing a measurement ([printResults] of [lib/lighthouse-runner.ts]) *)
(* ===================================================================== *)

Section PrintResults.
Context `{Collaborators}.

(** [logger.tableRow(label, value, unit)] *)
Definition tableRow (label value unit_ : string) : M unit :=
  log ("  " ++ padEnd label 32 ++ " " ++ padStart value 12 ++ " "
       ++ padStart unit_ 12).

(** [printResults] *)
Definition printResults (averages : MeasurementResult)
    (minScore maxScore : number) (runs : Z) (note : option string) : M unit :=
  log "PERFORMANCE RESULTS";;;
  log ("  " ++ padEnd "Metric" 32 ++ " " ++ padStart "Average" 12 ++ " "
       ++ padStart "Unit" 12);;;
  log ("  " ++ padEnd "Performance Score" 32 ++ " "
       ++ padStart (number_toString (JS.Math_round (score averages))) 12
       ++ " " ++ padStart "/100" 12);;;
  tableRow "First Contentful Paint (FCP)"
    (number_toString (JS.Math_round (fcp averages))) "ms";;;
  tableRow "Largest Contentful Paint (LCP)"
    (number_toString (JS.Math_round (lcp averages))) "ms";;;
  tableRow "Total Blocking Time (TBT)"
    (number_toString (JS.Math_round (tbt averages))) "ms";;;
  tableRow "Cumulative Layout Shift (CLS)" (toFixed 3 (cls averages))
    EmptyString;;;
  tableRow "Speed Index" (number_toString (JS.Math_round (si averages))) "ms";;;
  log ("  Score range: " ++ number_toString minScore ++ " - "
       ++ number_toString maxScore ++ " (across " ++ pretty runs ++ " runs)");;;
  (if truthy_str note
   then log ("Note: " ++ default EmptyString note)
   else ret tt);;;
  log "Quick Interpretation:";;;
  (if JS.gtb (tbt averages) (JS.of_Z 600)
   then log "  ⚠ TBT > 600ms - Main thread is heavily blocked. Look for long tasks."
   else if JS.gtb (tbt averages) (JS.of_Z 200)
        then log "  ⚡ TBT 200-600ms - Some blocking. Room for improvement."
        else log "  ✓ TBT < 200ms - Good interactivity!");;;
  if JS.gtb (lcp averages) (JS.of_Z 4000)
  then log "  ⚠ LCP > 4s - Largest paint is slow. Check images/fonts."
  else if JS.gtb (lcp averages) (JS.of_Z 2500)
       then log "  ⚡ LCP 2.5-4s - Needs improvement."
       else log "  ✓ LCP < 2.5s - Good perceived load speed!".

End PrintResults.

(* ===================================================================== *)
(** * The command line ([parseArgs] of [perf.ts])                         *)
(* ===================================================================== *)

(** A character that [parseInt] skips in front of a number: tab, line
    feed, vertical tab, form feed, carriage return, space, no-break
    space. *)
Definition is_space (c : ascii) : bool :=
  let n := nat_of_ascii c in
  (n =? 9)%nat || (n =? 10)%nat || (n =? 11)%nat || (n =? 12)%nat
  || (n =? 13)%nat || (n =? 32)%nat || (n =? 160)%nat.

Fixpoint skip_spaces (s : string) : string :=
  match s with
  | EmptyString => EmptyString
  | String c s' => if is_space c then skip_spaces s' else s
  end.

Definition digit_value (c : ascii) : option Z :=
  if in_range "0" "9" c then Some (Z.of_nat (nat_of_ascii c - 48)) else None.

(** the decimal digits in front of [s]; [acc] is [None] until one is read *)
Fixpoint read_digits (s : string) (acc : option Z) : option Z :=
  match s with
  | EmptyString => acc
  | String c s' =>
      match digit_value c with
      | Some d => read_digits s' (Some (10 * default 0 acc + d))
      | None => acc
      end
  end.

(** [parseInt(s, 10)]: [None] stands for [NaN]; an argument that is
    [undefined] holds no digit.  The integer read is exact: the rounding
    of a JS number beyond 2^53 is not modelled. *)
Definition parseInt (s : option string) : option Z :=
  match s with
  | None => None
  | Some s =>
      match skip_spaces s with
      | String "-" rest => option_map Z.opp (read_digits rest None)
      | String "+" rest => read_digits rest None
      | rest => read_digits rest None
      end
  end.

(** The result of [parseArgs]; [settingsPath] is never set by it. *)
Record ParsedArgs : Type := {
  parsed_command : string;
  parsed_url : option string;
  parsed_runs : Z;
  parsed_note : option string;
  parsed_file1 : option string;
  parsed_file2 : option string;
  parsed_tags : list (option string);
  parsed_concurrency : option Z;
  parsed_scenarioId : option string;
}.

Definition set_command (v : string) (r : ParsedArgs) : ParsedArgs :=
  {| parsed_command := v; parsed_url := parsed_url r;
     parsed_runs := parsed_runs r; parsed_note := parsed_note r;
     parsed_file1 := parsed_file1 r; parsed_file2 := parsed_file2 r;
     parsed_tags := parsed_tags r;
     parsed_concurrency := parsed_concurrency r;
     parsed_scenarioId := parsed_scenarioId r |}.

Definition set_url (v : option string) (r : ParsedArgs) : ParsedArgs :=
  {| parsed_command := parsed_command r; parsed_url := v;
     parsed_runs := parsed_runs r; parsed_note := parsed_note r;
     parsed_file1 := parsed_file1 r; parsed_file2 := parsed_file2 r;
     parsed_tags := parsed_tags r;
     parsed_concurrency := parsed_concurrency r;
     parsed_scenarioId := parsed_scenarioId r |}.

Definition set_runs (v : Z) (r : ParsedArgs) : ParsedArgs :=
  {| parsed_command := parsed_command r; parsed_url := parsed_url r;
     parsed_runs := v; parsed_note := parsed_note r;
     parsed_file1 := parsed_file1 r; parsed_file2 := parsed_file2 r;
     parsed_tags := parsed_tags r;
     parsed_concurrency := parsed_concurrency r;
     parsed_scenarioId := parsed_scenarioId r |}.

Definition set_note (v : option string) (r : ParsedArgs) : ParsedArgs :=
  {| parsed_command := parsed_command r; parsed_url := parsed_url r;
     parsed_runs := parsed_runs r; parsed_note := v;
     parsed_file1 := parsed_file1 r; parsed_file2 := parsed_file2 r;
     parsed_tags := parsed_tags r;
     parsed_concurrency := parsed_concurrency r;
     parsed_scenarioId := parsed_scenarioId r |}.

Definition set_file1 (v : option string) (r : ParsedArgs) : ParsedArgs :=
  {| parsed_command := parsed_command r; parsed_url := parsed_url r;
     parsed_runs := parsed_runs r; parsed_note := parsed_note r;
     parsed_file1 := v; parsed_file2 := parsed_file2 r;
     parsed_tags := parsed_tags r;
     parsed_concurrency := parsed_concurrency r;
     parsed_scenarioId := parsed_scenarioId r |}.

Definition set_file2 (v : option string) (r : ParsedArgs) : ParsedArgs :=
  {| parsed_command := parsed_command r; parsed_url := parsed_url r;
     parsed_runs := parsed_runs r; parsed_note := parsed_note r;
     parsed_file1 := parsed_file1 r; parsed_file2 := v;
     parsed_tags := parsed_tags r;
     parsed_concurrency := parsed_concurrency r;
     parsed_scenarioId := parsed_scenarioId r |}.

Definition push_tag (v : option string) (r : ParsedArgs) : ParsedArgs :=
  {| parsed_command := parsed_command r; parsed_url := parsed_url r;
     parsed_runs := parsed_runs r; parsed_note := parsed_note r;
     parsed_file1 := parsed_file1 r; parsed_file2 := parsed_file2 r;
     parsed_tags := parsed_tags r ++ [v];
     parsed_concurrency := parsed_concurrency r;
     parsed_scenarioId := parsed_scenarioId r |}.

Definition set_concurrency (v : option Z) (r : ParsedArgs) : ParsedArgs :=
  {| parsed_command := parsed_command r; parsed_url := parsed_url r;
     parsed_runs := parsed_runs r; parsed_note := parsed_note r;
     parsed_file1 := parsed_file1 r; parsed_file2 := parsed_file2 r;
     parsed_tags := parsed_tags r;
     parsed_concurrency := v;
     parsed_scenarioId := parsed_scenarioId r |}.

Definition set_scenarioId (v : option string) (r : ParsedArgs) : ParsedArgs :=
  {| parsed_command := parsed_command r; parsed_url := parsed_url r;
     parsed_runs := parsed_runs r; parsed_note := parsed_note r;
     parsed_file1 := parsed_file1 r; parsed_file2 := parsed_file2 r;
     parsed_tags := parsed_tags r;
     parsed_concurrency := parsed_concurrency r;
     parsed_scenarioId := v |}.

(** the flags of [parseArgs] that take the next argument as their value *)
Inductive Flag : Type :=
| FlagRuns | FlagNote | FlagTag | FlagConcurrency | FlagScenario.

Definition flag_of (arg : string) : option Flag :=
  if String.eqb arg "--runs" || String.eqb arg "-r" then Some FlagRuns
  else if String.eqb arg "--note" || String.eqb arg "-n" then Some FlagNote
  else if String.eqb arg "--tag" || String.eqb arg "-t" then Some FlagTag
  else if String.eqb arg "--concurrency" || String.eqb arg "-c"
       then Some FlagConcurrency
  else if String.eqb arg "--scenario" || String.eqb arg "-s"
       then Some FlagScenario
  else None.

(** the assignment made for a flag; [value] is [args[++i]], [None] when
    the flag is the last argument *)
Definition apply_flag (f : Flag) (value : option string) (r : ParsedArgs)
  : ParsedArgs :=
  match f with
  | FlagRuns => set_runs (or_Z (parseInt value) 5) r
  | FlagNote => set_note value r
  | FlagTag => push_tag value r
  | FlagConcurrency => set_concurrency (Some (or_Z (parseInt value) 1)) r
  | FlagScenario => set_scenarioId value r
  end.

(** the last branch of the loop: a positional argument *)
Definition positional (command : option string) (arg : string)
    (r : ParsedArgs) : ParsedArgs :=
  if match command with Some c => String.eqb c "compare" | None => false end
  then if negb (truthy_str (parsed_file1 r)) then set_file1 (Some arg) r
       else set_file2 (Some arg) r
  else if match command with Some c => String.eqb c "measure" | None => false end
          && negb (truthy_str (parsed_url r))
       then set_url (Some arg) r
       else if negb (truthy_str (parsed_url r)) && String.prefix "http" arg
            then set_url (Some arg) r
            else r.

(** the loop [for (let i = 1; i < args.length; i++)] over the arguments
    that are left *)
Fixpoint parse_loop (command : option string) (args : list string)
    (r : ParsedArgs) : ParsedArgs :=
  match args with
  | [] => r
  | arg :: rest =>
      match flag_of arg with
      | Some f =>
          match rest with
          | [] => apply_flag f None r
          | value :: rest' =>
              parse_loop command rest' (apply_flag f (Some value) r)
          end
      | None =>
          if String.eqb arg "--help" || String.eqb arg "-h"
          then parse_loop command rest (set_command "help" r)
          else if String.prefix "--" arg
               then parse_loop command rest r
               else parse_loop command rest (positional command arg r)
      end
  end.

(** [parseArgs]: [args] is [process.argv.slice(2)], [defaultRuns] the
    setting of that name *)
Definition parseArgs (defaultRuns : option Z) (args : list string)
  : ParsedArgs :=
  let command := head args in
  parse_loop command (tail args)
    {| parsed_command :=
         if truthy_str command then default EmptyString command else "help";
       parsed_url := None;
       parsed_runs := or_Z defaultRuns 5;
       parsed_note := None;
       parsed_file1 := None; parsed_file2 := None;
       parsed_tags := [];
       parsed_concurrency := None;
       parsed_scenarioId := None |}.

(** the arguments as the [batch] command reads them; [None] when a
    [--tag] came without a value *)
Definition batch_args (a : ParsedArgs) : option BatchArgs :=
  match mapM id (parsed_tags a) with
  | Some tags =>
      Some {| arg_runs := parsed_runs a; arg_tags := tags;
              arg_concurrency := parsed_concurrency a;
              arg_scenarioId := parsed_scenarioId a |}
  | None => None
  end.

(* ===================================================================== *)
(** * The commands [measure] and [start-measure] of [perf.ts]             *)
(* ===================================================================== *)

(** how a command ends: it returns to [main], or the process exits *)
Inductive CommandEnd : Type :=
| Returned
| ProcessExit (code : Z).

(** [args.note ? (notePrefix ? `${notePrefix} ${args.note}` : args.note)
    : undefined] *)
Definition full_note (settings : UserSettings) (note : option string)
  : option string :=
  if truthy_str note
  then Some (if truthy_str (notePrefix settings)
             then (default EmptyString (notePrefix settings) ++ " "
                   ++ default EmptyString note)%string
             else default EmptyString note)
  else None.

(** [args.url || config.defaultUrl] *)
Definition target_url `{Collaborators} (args : ParsedArgs)
    (config : WebperfConfig) : string :=
  if truthy_str (parsed_url args) then default EmptyString (parsed_url args)
  else defaultUrl config.

Section Commands.
Context `{Launcher}.
Variable args : ParsedArgs.
Variable config : WebperfConfig.
Variable settings : UserSettings.

Definition measure_options (overrides : bool) : MeasureOptions :=
  {| opt_url := target_url args config;
     opt_runs := parsed_runs args;
     opt_note := full_note settings (parsed_note args);
     opt_applyOverrides := overrides |}.

Definition measured_save (overrides : bool) (out : RunOutput)
  : SaveResultsOptions :=
  {| save_url := target_url args config;
     save_runs := parsed_runs args;
     save_averages := out_averages out;
     save_minScore := out_minScore out;
     save_maxScore := out_maxScore out;
     save_rawScores := map score (out_metrics out);
     save_overridesApplied := overrides;
     save_note := full_note settings (parsed_note args);
     save_tags := None;
     save_scenarioId := None |}.

(** measure, print, save: the part shared by the two commands *)
Definition measure_and_save (overrides : bool) : M unit :=
  out <- runMeasurements (measure_options overrides) config;;
  printResults (out_averages out) (out_minScore out) (out_maxScore out)
    (parsed_runs args) (full_note settings (parsed_note args));;;
  _ <- saveResults settings (measured_save overrides out);;
  ret tt.

(** the [measure] case of [main] *)
Definition measure_command : M CommandEnd :=
  measure_and_save false;;;
  ret Returned.

(** the [start-measure] case of [main] *)
Definition start_measure_command : M CommandEnd :=
  if (length (services config) =? 0)%nat
  then log "No services configured.";;;
       log "  For measure-only mode, use: npx tsx perf.ts measure <url>";;;
       log "  To use service features, set up external config:";;;
       log "    export WEBPERF_CONFIG_PATH=/path/to/your/config.ts";;;
       ret (ProcessExit 1)
  else
    log "Performance Test with Services";;;
    servicesReady <-
      match head (services config) with
      | Some first =>
          if service_port first =? 0 then ret false
          else waitForPort (service_port first) 1000
      | None => ret false
      end;;
    started <-
      (if negb servicesReady
       then ensurePortsFree config;;;
            log "Starting services...";;;
            startAllServices config;;;
            ready <- waitForServices config;;
            if negb ready
            then log "Services failed to start";;;
                 stopAll config;;;
                 ret false
            else log "Waiting for services to stabilize...";;;
                 sleep 5000;;;
                 ret true
       else log "Services already running";;;
            ret true);;
    if negb started then ret (ProcessExit 1)
    else measure_and_save true;;;
         log "Services are still running. Stop with:";;;
         log "  npx tsx perf.ts stop";;;
         ret Returned.

End Commands.

(* ===================================================================== *)
(** * A concrete world, for running the model                             *)
(* ===================================================================== *)

Module Demo.

Definition q (n : Z) (d : positive) : number := JS.Fin (Q2Qc (n # d)).

(** a stored summary with the given averages *)
Definition summary (stamp : string) (s paint : Z) : MeasurementSummary :=
  {| summary_url := "http://home.test"; summary_runs := 5;
     summary_timestamp := stamp; overridesApplied := false;
     summary_note := None;
     averages := {| score := JS.of_Z s; fcp := JS.of_Z paint;
                    lcp := JS.of_Z 2100; tbt := JS.of_Z 150;
                    cls := q 1 20; si := JS.of_Z 1800 |};
     range := {| minScore := JS.of_Z s; maxScore := JS.of_Z s |};
     rawScores := [JS.of_Z s] |}.

Definition summary_before : MeasurementSummary :=
  summary "2024-01-15T10-30-00" 75 1500.
Definition summary_after : MeasurementSummary :=
  summary "2024-01-15T11-00-00" 85 1200.

(** a report with the given category score *)
Definition report (s : number) (paint : Z) : LighthouseResult :=
  {| performance_score := Some s;
     audit_numericValue := fun key =>
       if String.eqb key "first-contentful-paint" then Some (JS.of_Z paint)
       else if String.eqb key "largest-contentful-paint"
            then Some (JS.of_Z (paint + 1000))
       else if String.eqb key "total-blocking-time" then Some (JS.of_Z 150)
       else if String.eqb key "cumulative-layout-shift" then Some (q 1 20)
       else if String.eqb key "speed-index" then Some (JS.of_Z 1800)
       else None |}.

(** The world counts the audits made so far.  Audits alternate between
    the scores 0.80 and 0.90; the URL [http://down.test] cannot be
    audited.  Port 3000 is held by pid 123 and the lookup of port 9999 is
    refused.  Pid 100 can be killed, pid 101 is already dead and killing
    any other pid is not permitted. *)
#[export] Instance collab : Collaborators := {|
  World := nat;
  puppeteer_launch := fun w => (Ok tt, w);
  browser_newPage := fun w => (Ok tt, w);
  page_goto := fun _ w => (Ok tt, w);
  page_close := fun w => (Ok tt, w);
  browser_close := fun w => (Ok tt, w);
  lighthouse := fun url w =>
    if String.eqb url "http://down.test"
    then (Throw {| message := "net::ERR_CONNECTION_REFUSED" |}, w)
    else if Nat.even w then (Ok (report (q 4 5) 1000), S w)
         else (Ok (report (q 9 10) 1400), S w);
  findProcess := fun port w =>
    if port =? 3000
    then (Ok [ {| entry_pid := 123; entry_name := "node" |} ], w)
    else if port =? 9999
         then (Throw {| message := "EPERM: operation not permitted" |}, w)
         else (Ok [], w);
  treeKill := fun pid w =>
    if pid =? 100 then (None, w)
    else if pid =? 101
         then (Some {| message := "kill ESRCH" |}, w)
         else (Some {| message := "EPERM: operation not permitted" |}, w);
  toISOString := fun ms => "2024-01-15T10:30:00.000Z";
  number_toString := fun _ => "0";
  JSON_stringify_summary := fun s =>
    ("{summary of " ++ summary_url s ++ "}")%string;
  JSON_stringify_entry := fun s loggedAt tags scenarioId =>
    ("{entry of " ++ summary_url s ++ "}")%string;
  JSON_stringify_batch := fun loggedAt b =>
    ("{batch " ++ batchId b ++ "}")%string;
  JSON_parse_summary := fun doc =>
    if String.eqb doc "{before}" then Some summary_before
    else if String.eqb doc "{after}" then Some summary_after
    else None;
  toFixed := fun _ _ => "0";
|}.

Definition config : WebperfConfig :=
  {| services :=
       [ {| service_id := "frontend"; service_cwd := "/apps/frontend";
            service_command := "npm start"; service_port := 3000 |};
         {| service_id := "api"; service_cwd := "/apps/api";
            service_command := "npm run dev"; service_port := 4000 |} ];
     defaultUrl := "https://example.com";
     defaultRuns := 5;
     applyOverrides := None |}.

Definition settings : UserSettings :=
  {| resultsPath := "/webperf/results";
     jsonlLogPath := "/webperf/results/measurements.jsonl";
     notePrefix := None;
     maxConcurrency := None;
     scenarios := None |}.

Definition state0 : State :=
  {| world := 0%nat; now := 0; files := ∅; pidFile := NoPidFile;
     console := [] |}.

Definition scenario (id url : string) (tags : option (list string))
  : TestScenario :=
  {| scenario_id := id; scenario_note := "note"; scenario_url := url;
     scenario_runs := Some 2; scenario_applyOverrides := None;
     scenario_enabled := None; scenario_tags := tags |}.

Definition args (c : option Z) : BatchArgs :=
  {| arg_runs := 5; arg_tags := []; arg_concurrency := c;
     arg_scenarioId := None |}.

(** three scenarios; the second one cannot be measured *)
Definition three : list TestScenario :=
  [ scenario "home" "http://home.test" (Some ["prod"]);
    scenario "down" "http://down.test" None;
    scenario "docs" "http://docs.test" (Some ["prod"; "docs"]) ].

(** every round, the second running scenario (if any) resolves *)
Definition second_first : Schedule := fun _ => (1%nat, []).

(** two stored sessions *)
Definition state_two_sessions : State :=
  {| world := 0%nat; now := 0;
     files :=
       {[ "/webperf/results/2024-01-15T10-30-00/summary.json" := ["{before}"];
          "/webperf/results/2024-01-15T11-00-00/summary.json" := ["{after}"] ]};
     pidFile := NoPidFile; console := [] |}.

(** a registry with one process *)
Definition state_tracking (pid : Z) : State :=
  {| world := 0%nat; now := 0; files := ∅;
     pidFile := SavedPids [ {| proc_name := "api"; proc_port := 4000;
                               proc_pid := pid |} ];
     console := [] |}.

Definition options (runs : Z) : MeasureOptions :=
  {| opt_url := "http://home.test"; opt_runs := runs; opt_note := None;
     opt_applyOverrides := false |}.

(** an ad hoc save under two tags that differ by case only *)
Definition twice_tagged_save : SaveResultsOptions :=
  {| save_url := "http://home.test"; save_runs := 2;
     save_averages := averages summary_before;
     save_minScore := JS.of_Z 75; save_maxScore := JS.of_Z 75;
     save_rawScores := [JS.of_Z 75; JS.of_Z 75];
     save_overridesApplied := false; save_note := None;
     save_tags := Some ["Prod"; "prod"]; save_scenarioId := None |}.

(** a save of a scenario that carries no tag *)
Definition untagged_save : SaveResultsOptions :=
  {| save_url := "http://home.test"; save_runs := 2;
     save_averages := averages summary_before;
     save_minScore := JS.of_Z 75; save_maxScore := JS.of_Z 75;
     save_rawScores := [JS.of_Z 75; JS.of_Z 75];
     save_overridesApplied := false; save_note := None;
     save_tags := None; save_scenarioId := Some "home" |}.

End Demo.

(* ===================================================================== *)
(** * A second concrete world: a launcher, an archive, a command line     *)
(* ===================================================================== *)

Module Bench.

(** Every directory exists but [/apps/missing]; the child of the [n]-th
    call of [spawn] has pid [500 + n], and the command [false] gives no
    child. *)
Definition spawn_child (command cwd : string) (detached : bool) (w : nat)
  : Result (option Z) * nat :=
  if String.eqb command "false" then (Ok None, S w)
  else (Ok (Some (500 + Z.of_nat w)), S w).

#[export] Instance launcher : @Launcher Demo.collab :=
  @Build_Launcher Demo.collab false
    (fun dir _ => negb (String.eqb dir "/apps/missing")) spawn_child.

(** one service, on a port that nothing listens on *)
Definition config_down : @WebperfConfig Demo.collab :=
  {| services :=
       [ {| service_id := "api"; service_cwd := "/apps/api";
            service_command := "npm run dev"; service_port := 4000 |} ];
     defaultUrl := "https://example.com";
     defaultRuns := 5;
     applyOverrides := None |}.

(** the settings of [Demo] with its three scenarios declared *)
Definition settings : UserSettings :=
  {| resultsPath := "/webperf/results";
     jsonlLogPath := "/webperf/results/measurements.jsonl";
     notePrefix := None;
     maxConcurrency := None;
     scenarios := Some Demo.three |}.

(** [perf.ts measure http://home.test --runs 2] *)
Definition measure_args : ParsedArgs :=
  parseArgs None ["measure"; "http://home.test"; "--runs"; "2"].

(** [perf.ts batch --tag prod] and [perf.ts batch --concurrency -1] *)
Definition tagged_args : BatchArgs :=
  default (Demo.args None)
    (batch_args (parseArgs None ["batch"; "--tag"; "prod"])).
Definition pool_args : BatchArgs :=
  default (Demo.args None)
    (batch_args (parseArgs None ["batch"; "--concurrency"; "-1"])).

(** the summary saved for [Demo.untagged_save] at the date of [Demo] *)
Definition saved : MeasurementSummary :=
  summary_of_options Demo.untagged_save "2024-01-15T10-30-00".

(** The world of [Demo], with a [JSON.parse] that reads the document of
    [saved] back. *)
Definition archive : Collaborators := {|
  World := nat;
  puppeteer_launch := @puppeteer_launch Demo.collab;
  browser_newPage := @browser_newPage Demo.collab;
  page_goto := @page_goto Demo.collab;
  page_close := @page_close Demo.collab;
  browser_close := @browser_close Demo.collab;
  lighthouse := @lighthouse Demo.collab;
  findProcess := @findProcess Demo.collab;
  treeKill := @treeKill Demo.collab;
  toISOString := @toISOString Demo.collab;
  number_toString := @number_toString Demo.collab;
  JSON_stringify_summary := @JSON_stringify_summary Demo.collab;
  JSON_stringify_entry := @JSON_stringify_entry Demo.collab;
  JSON_stringify_batch := @JSON_stringify_batch Demo.collab;
  JSON_parse_summary := fun doc =>
    if String.eqb doc "{summary of http://home.test}" then Some saved
    else None;
  toFixed := @toFixed Demo.collab;
|}.

Definition archive_state0 : @State archive :=
  @Build_State archive 0%nat 0 ∅ NoPidFile [].

End Bench.

(* ===================================================================== *)
(** * Vocabulary of the properties                                        *)
(* ===================================================================== *)

(** [mean] follows the words of the specification: the sum of the samples
    divided by their number. *)
Definition mean (samples : list number) : number :=
  JS.div (fold_right JS.add JS.zero samples) (JS.of_nat (length samples)).

(** [m] is the least (greatest) of the samples. *)
Definition is_minimum (m : number) (samples : list number) : Prop :=
  In m samples /\ forall x, In x samples -> JS.le m x.
Definition is_maximum (m : number) (samples : list number) : Prop :=
  In m samples /\ forall x, In x samples -> JS.le x m.

Definition no_NaN (samples : list number) : Prop :=
  Forall (fun x => JS.is_NaN x = false) samples.

(** a sample read off some report *)
Definition is_sample (m : MeasurementResult) : Prop :=
  exists lhr, m = metrics_of_lhr lhr.

(** What the specification says of the outcome of [runs] audits: as many
    samples as runs, each averaged field the mean of that field over the
    samples, and the score spread taken from the raw scores. *)
Definition samples_reduced (runs : Z) (out : RunOutput) : Prop :=
  let metrics := out_metrics out in
  Z.of_nat (length metrics) = runs
  /\ Forall is_sample metrics
  /\ score (out_averages out) = mean (map score metrics)
  /\ fcp (out_averages out) = mean (map fcp metrics)
  /\ lcp (out_averages out) = mean (map lcp metrics)
  /\ tbt (out_averages out) = mean (map tbt metrics)
  /\ cls (out_averages out) = mean (map cls metrics)
  /\ si (out_averages out) = mean (map si metrics)
  /\ is_minimum (out_minScore out) (map score metrics)
  /\ is_maximum (out_maxScore out) (map score metrics).

(** the averages of an empty sample set *)
Definition zero_result : MeasurementResult :=
  {| score := JS.zero; fcp := JS.zero; lcp := JS.zero; tbt := JS.zero;
     cls := JS.zero; si := JS.zero |}.

(** the six metrics of a comparison, in the order of the table *)
Definition metric_fields : list (MeasurementResult -> number) :=
  [score; fcp; lcp; tbt; cls; si].

(** the header printed by [compareResults] above the rows *)
Definition comparison_header (s1 s2 : MeasurementSummary) : list string :=
  [ "COMPARISON RESULTS";
    ("  Before: " ++ summary_timestamp s1 ++ quoted_note (summary_note s1))%string;
    ("  After:  " ++ summary_timestamp s2 ++ quoted_note (summary_note s2))%string;
    ("  " ++ padEnd "Metric" 30 ++ " " ++ padStart "Before" 10 ++ " "
     ++ padStart "After" 10 ++ " " ++ padStart "Change" 15)%string ].

(** the last character of a path *)
Fixpoint last_char (s : string) : option ascii :=
  match s with
  | EmptyString => None
  | String c EmptyString => Some c
  | String _ s' => last_char s'
  end.

(** The log files one save appends to, in the order of the appends: the
    global log, the log of each tag, the log of the scenario. *)
Definition log_paths (settings : UserSettings)
    (tags : option (list string)) (scenarioId : option string) : list string :=
  jsonlLogPath settings
  :: map (getLogPathForTag settings) (tag_list tags)
  ++ match scenarioId with
     | Some id =>
         if nonempty id then [getLogPathForScenario settings id] else []
     | None => []
     end.

(** How many lines one save appends to the file at [path]. *)
Definition lines_appended (settings : UserSettings)
    (tags : option (list string)) (scenarioId : option string)
    (path : string) : nat :=
  count_occ string_dec (log_paths settings tags scenarioId) path.

(** [b'] is [b] with one more outcome, for scenario [sc], counted either as
    completed or as failed. *)
Definition one_more (sc : TestScenario) (b b' : BatchResult) : Prop :=
  exists o,
    outcome_scenario o = sc
    /\ ((b' = record_success o b
         /\ outcome_error o = None /\ is_Some (outcome_summary o))
        \/ (b' = record_failure o b
            /\ outcome_summary o = None /\ is_Some (outcome_error o))).

(** an outcome is a success with a summary or a failure with a message *)
Definition outcome_tagged (o : ScenarioOutcome) : Prop :=
  (is_Some (outcome_summary o) /\ outcome_error o = None)
  \/ (outcome_summary o = None /\ is_Some (outcome_error o)).

(** Every scenario of the batch is in exactly one place: resolved (in
    [results]), running, or still queued; the two counters count the
    resolved ones. *)
Definition accounted (filtered queue : list TestScenario)
    (running : list Started) (b : BatchResult) : Prop :=
  totalScenarios b = length filtered
  /\ (completed b + failed b)%nat = length (results b)
  /\ map outcome_scenario (results b) ++ map started_scenario running ++ queue
     ≡ₚ filtered
  /\ Forall outcome_tagged (results b).

Section Vocabulary.
Context `{Collaborators}.

(** a collaborator call that never throws *)
Definition always_ok {A} (op : World -> Result A * World) : Prop :=
  forall w, exists a w', op w = (Ok a, w').

(** the browser can be launched, driven and closed *)
Definition browser_works : Prop :=
  always_ok puppeteer_launch /\ always_ok browser_newPage
  /\ (forall url, always_ok (page_goto url))
  /\ always_ok page_close /\ always_ok browser_close.

(** [m] returns from every state, with a value satisfying [P] *)
Definition returns {A} (m : M A) (P : A -> Prop) : Prop :=
  forall st, exists a st', m st = (Ok a, st') /\ P a.

(** whenever [m] returns, its value satisfies [P] *)
Definition ensures {A} (m : M A) (P : A -> Prop) : Prop :=
  forall st a st', m st = (Ok a, st') -> P a.

(** [m] returns from every state and only adds lines to the console *)
Definition prints {A} (m : M A) : Prop :=
  forall st, exists a st' lines,
    m st = (Ok a, st') /\ console st' = console st ++ lines.

Definition set_world (w : World) (st : State) : State :=
  {| world := w; now := now st; files := files st;
     pidFile := pidFile st; console := console st |}.

(** the lookup finds at least one process on the port *)
Definition port_answers (port : Z) (w : World) : Prop :=
  exists first others, fst (findProcess port w) = Ok (first :: others).

(** the lookup throws *)
Definition lookup_fails (port : Z) (w : World) : Prop :=
  exists e, fst (findProcess port w) = Throw e.

(** the lookup is a query: it leaves the world as it is *)
Definition lookup_is_query : Prop :=
  forall port w, snd (findProcess port w) = w.

(** the registry read by [loadPids] *)
Definition registry (pf : PidFile) : list RunningProcess :=
  match pf with
  | SavedPids l => l
  | NoPidFile | UnparsablePidFile => []
  end.

(** [killProcess pid] resolves in world [w] *)
Definition kill_resolves (pid : Z) (w : World) : bool :=
  match fst (treeKill pid w) with
  | None => true
  | Some e => is_process_not_found e
  end.

(** the world after the kills of the recorded pids, in registry order *)
Definition world_after_kills (saved : list RunningProcess) (w : World)
  : World :=
  fold_left (fun w proc => snd (treeKill (proc_pid proc) w)) saved w.

(** the lines printed by the first phase of [stopAll]: one per recorded
    process whose kill resolved *)
Fixpoint stopped_lines (saved : list RunningProcess) (w : World)
  : list string :=
  match saved with
  | [] => []
  | proc :: rest =>
      (if kill_resolves (proc_pid proc) w
       then [("  Stopped " ++ proc_name proc ++ " (PID: "
              ++ pretty (proc_pid proc) ++ ")")%string]
       else [])
      ++ stopped_lines rest (snd (treeKill (proc_pid proc) w))
  end.

(** the line written by [appendToJsonlLog] in state [st] *)
Definition json_line (summary : MeasurementSummary)
    (tags : option (list string)) (scenarioId : option string) (st : State)
  : string :=
  (JSON_stringify_entry summary (toISOString (now st))
     (if has_tags tags then tags else None)
     (if truthy_str scenarioId then scenarioId else None) ++ newline)%string.

End Vocabulary.

(* ===================================================================== *)
(** * Vocabulary of further properties                                    *)
(* ===================================================================== *)

(** every character of [s] passes the test [p] *)
Fixpoint string_forall (p : ascii -> bool) (s : string) : bool :=
  match s with
  | EmptyString => true
  | String c s' => p c && string_forall p s'
  end.

(** a character that may appear in the name of a log file: a lower-case
    letter, a digit, a dash or an underscore *)
Definition is_safe_char (c : ascii) : bool :=
  in_range "a" "z" c || in_range "0" "9" c
  || Ascii.eqb c "-" || Ascii.eqb c "_".

(** a character other than the colon and the dot *)
Definition is_stamp_char (c : ascii) : bool :=
  negb (Ascii.eqb c ":" || Ascii.eqb c ".").

(** the document found at the path [loadSummary] resolves its argument to *)
Definition resolved_summary_path (settings : UserSettings)
    (pathOrTimestamp : string) : string :=
  if negb (includes pathOrTimestamp "/")
     && negb (includes pathOrTimestamp backslash)
  then join (join (resultsPath settings) pathOrTimestamp) "summary.json"
  else if negb (endsWith pathOrTimestamp ".json")
       then join pathOrTimestamp "summary.json"
       else pathOrTimestamp.

(** the batch log of [saveBatchResult] *)
Definition batch_log_path (settings : UserSettings) : string :=
  replace_first (jsonlLogPath settings) ".jsonl" ".batch.jsonl".

(** the batch log of a tag *)
Definition tag_batch_log_path (settings : UserSettings) (tag : string)
  : string :=
  join (join (resultsPath settings) "tags") (sanitize tag ++ ".batch.jsonl").

(** The files one [saveBatchResult] appends to, in the order of the
    appends. *)
Definition batch_log_paths (settings : UserSettings)
    (tags : option (list string)) : list string :=
  batch_log_path settings
  :: map (tag_batch_log_path settings) (tag_list tags).

Section FurtherVocabulary.
Context `{Collaborators}.

(** the document [JSON.stringify] writes for [s] is read back by
    [JSON.parse] as [s] (a document with [NaN] or an infinity is not) *)
Definition parses_back (s : MeasurementSummary) : Prop :=
  JSON_parse_summary (JSON_stringify_summary s) = Some s.

(** the stamp [generateTimestamp] gives in a state *)
Definition stamp_of (st : State) : string :=
  String.substring 0 19 (map_string stamp_char (toISOString (now st))).

(** Whatever [m] does, and whether it returns or throws, the state it
    ends in is related by [R] to the state it started in. *)
Definition preserves {A} (R : State -> State -> Prop) (m : M A) : Prop :=
  forall st r st', m st = (r, st') -> R st st'.

Definition same_files (st st' : State) : Prop := files st' = files st.
Definition same_registry (st st' : State) : Prop := pidFile st' = pidFile st.
Definition same_world (st st' : State) : Prop := world st' = world st.
Definition same_clock (st st' : State) : Prop := now st' = now st.
Definition same_console (st st' : State) : Prop := console st' = console st.

(** nothing printed is taken back *)
Definition console_grows (st st' : State) : Prop :=
  exists lines, console st' = console st ++ lines.

(** the clock does not go back *)
Definition clock_forward (st st' : State) : Prop := now st <= now st'.

(** the line written by [saveBatchResult] in state [st] *)
Definition batch_line (b : BatchResult) (st : State) : string :=
  (JSON_stringify_batch (toISOString (now st)) b ++ newline)%string.

(** the session directory [saveResults] chooses in state [st] *)
Definition session_dir (settings : UserSettings)
    (options : SaveResultsOptions) (st : State) : string :=
  join (resultsPath settings)
    (session_dirName (save_tags options) (save_scenarioId options)
       (stamp_of st)).

End FurtherVocabulary.

(** the registry entry written for a service started with the given pid *)
Definition launched (p : Service * Z) : RunningProcess :=
  {| proc_name := service_id (fst p); proc_port := service_port (fst p);
     proc_pid := snd p |}.

(** [spawn] reports a failure through a missing pid, never by throwing *)
Definition spawn_never_throws `{Launcher} : Prop :=
  forall command cwd detached, always_ok (spawn command cwd detached).

(** the lookup finds a process on the port, as a test *)
Definition answers `{Collaborators} (w : World) (port : Z) : bool :=
  match fst (findProcess port w) with
  | Ok (_ :: _) => true
  | _ => false
  end.

(** every declared service has its directory and gets a pid from [spawn] *)
Definition always_starts `{Launcher} (l : list Service) : Prop :=
  forall s w, In s l ->
    directoryExists (service_cwd s) w = true
    /\ exists pid w',
         pid <> 0
         /\ spawn (service_command s) (service_cwd s) (negb isWindows) w
            = (Ok (Some pid), w').

(** what holds of the record all along the loop of [parseArgs] *)
Definition args_invariant (defaultRuns : option Z) (args : list string)
    (r : ParsedArgs) : Prop :=
  parsed_runs r <> 0
  /\ parsed_concurrency r <> Some 0
  /\ (parsed_runs r = or_Z defaultRuns 5 \/ parsed_runs r = 5
      \/ exists v, In v args /\ parseInt (Some v) = Some (parsed_runs r))
  /\ (forall c, parsed_concurrency r = Some c ->
                c = 1 \/ exists v, In v args /\ parseInt (Some v) = Some c)
  /\ (parsed_command r = "help" \/ head args = Some (parsed_command r))
  /\ Forall (fun t => forall v, t = Some v -> In v args) (parsed_tags r)
  /\ (forall v, parsed_note r = Some v -> In v args)
  /\ (forall v, parsed_scenarioId r = Some v -> In v args)
  /\ (forall v, parsed_url r = Some v -> In v args)
  /\ (forall v, parsed_file1 r = Some v -> In v args)
  /\ (forall v, parsed_file2 r = Some v -> In v args).

(** [m] returns from every state, having only added lines to the console *)
Definition only_prints `{Collaborators} {A} (m : M A) : Prop :=
  forall st, exists a lines,
    m st = (Ok a, {| world := world st; now := now st; files := files st;
                     pidFile := pidFile st;
                     console := console st ++ lines |}).

(** what the [batch] command asks of a scenario: it is not disabled, it
    carries every requested tag, and it has the requested id if one is
    requested *)
Definition selected_by (args : BatchArgs) (s : TestScenario) : Prop :=
  scenario_enabled s <> Some false
  /\ (forall t, In t (arg_tags args) -> In t (tag_list (scenario_tags s)))
  /\ (forall id, arg_scenarioId args = Some id -> id <> EmptyString ->
                 scenario_id s = id).

Local Open Scope prog_scope.

(* ===================================================================== *)
(** * Numbers: algebra and order *)
(* ===================================================================== *)

Lemma add_comm (a b : number) : JS.add a b = JS.add b a.
Proof.
  destruct a, b; simpl; try reflexivity.
  f_equal. apply Qcplus_comm.
Qed.

Lemma add_assoc (a b c : number) :
  JS.add a (JS.add b c) = JS.add (JS.add a b) c.
Proof.
  destruct a, b, c; simpl; try reflexivity.
  f_equal. apply Qcplus_assoc.
Qed.

Lemma add_zero_l (a : number) : JS.add JS.zero a = a.
Proof.
  destruct a; simpl; try reflexivity.
  f_equal. apply Qcplus_0_l.
Qed.

(** Summing from the left, as [reduce] does, or from the right. *)
Lemma fold_left_add (l : list number) :
  fold_left JS.add l JS.zero = fold_right JS.add JS.zero l.
Proof.
  apply fold_symmetric.
  - intros x y z. apply add_assoc.
  - intros y. apply add_comm.
Qed.

Lemma ltb_le (a b : number) : JS.ltb a b = true -> JS.le a b.
Proof.
  destruct a, b; simpl; try discriminate; try (intros; exact I).
  destruct (q ?= q0)%Qc eqn:E; try discriminate.
  intros _. apply Qclt_le_weak. apply Qclt_alt. exact E.
Qed.

Lemma not_ltb_le (a b : number) :
  JS.is_NaN a = false -> JS.is_NaN b = false ->
  JS.ltb a b = false -> JS.le b a.
Proof.
  destruct a, b; simpl; try discriminate; try (intros; exact I).
  intros _ _. destruct (q ?= q0)%Qc eqn:E; try discriminate; intros _.
  - apply Qceq_alt in E. subst. apply Qcle_refl.
  - apply Qclt_le_weak. apply Qcgt_alt in E. exact E.
Qed.

Lemma le_refl (a : number) : JS.is_NaN a = false -> JS.le a a.
Proof. destruct a; simpl; try discriminate; intros; try exact I. apply Qcle_refl. Qed.

Lemma le_trans (a b c : number) : JS.le a b -> JS.le b c -> JS.le a c.
Proof.
  destruct a, b, c; simpl; try tauto.
  apply Qcle_trans.
Qed.

Lemma le_PosInf (a : number) : JS.le JS.PosInf a -> a = JS.PosInf.
Proof. destruct a; simpl; tauto. Qed.

Lemma le_NegInf (a : number) : JS.le a JS.NegInf -> a = JS.NegInf.
Proof. destruct a; simpl; tauto. Qed.

Lemma average_mean (arr : list number) :
  arr <> [] -> average arr = mean arr.
Proof.
  intros Hne. unfold average, mean.
  destruct arr as [|a arr]; [congruence|].
  cbn [length Nat.eqb]. now rewrite fold_left_add.
Qed.

Lemma min2_spec (acc x : number) :
  JS.is_NaN acc = false -> JS.is_NaN x = false ->
  JS.is_NaN (JS.min2 acc x) = false
  /\ JS.le (JS.min2 acc x) acc /\ JS.le (JS.min2 acc x) x
  /\ (JS.min2 acc x = acc \/ JS.min2 acc x = x).
Proof.
  intros Ha Hx.
  assert (E : JS.min2 acc x = if JS.ltb x acc then x else acc)
    by (destruct acc, x; simpl in *; congruence).
  rewrite E. destruct (JS.ltb x acc) eqn:L.
  - repeat split; auto using ltb_le, le_refl.
  - repeat split; auto using not_ltb_le, le_refl.
Qed.

Lemma max2_spec (acc x : number) :
  JS.is_NaN acc = false -> JS.is_NaN x = false ->
  JS.is_NaN (JS.max2 acc x) = false
  /\ JS.le acc (JS.max2 acc x) /\ JS.le x (JS.max2 acc x)
  /\ (JS.max2 acc x = acc \/ JS.max2 acc x = x).
Proof.
  intros Ha Hx.
  assert (E : JS.max2 acc x = if JS.ltb acc x then x else acc)
    by (destruct acc, x; simpl in *; congruence).
  rewrite E. destruct (JS.ltb acc x) eqn:L.
  - repeat split; auto using ltb_le, le_refl.
  - repeat split; auto using not_ltb_le, le_refl.
Qed.

Lemma fold_min2 (l : list number) : forall acc,
  JS.is_NaN acc = false -> no_NaN l ->
  let m := fold_left JS.min2 l acc in
  JS.le m acc /\ (forall x, In x l -> JS.le m x) /\ (m = acc \/ In m l).
Proof.
  induction l as [|a l IH]; intros acc Ha Hl; simpl.
  - split; [now apply le_refl|]. split; [tauto|now left].
  - inversion Hl as [|? ? Hna Hl']; subst.
    destruct (min2_spec acc a Ha Hna) as (Hn & Hacc & Hxa & Hsel).
    destruct (IH (JS.min2 acc a) Hn Hl') as (H1 & H2 & H3).
    split; [eauto using le_trans|].
    split.
    + intros x [->|Hin]; eauto using le_trans.
    + destruct H3 as [H3|H3]; [|now right; right].
      rewrite H3. destruct Hsel as [->| ->]; [now left|now right; left].
Qed.

Lemma fold_max2 (l : list number) : forall acc,
  JS.is_NaN acc = false -> no_NaN l ->
  let m := fold_left JS.max2 l acc in
  JS.le acc m /\ (forall x, In x l -> JS.le x m) /\ (m = acc \/ In m l).
Proof.
  induction l as [|a l IH]; intros acc Ha Hl; simpl.
  - split; [now apply le_refl|]. split; [tauto|now left].
  - inversion Hl as [|? ? Hna Hl']; subst.
    destruct (max2_spec acc a Ha Hna) as (Hn & Hacc & Hxa & Hsel).
    destruct (IH (JS.max2 acc a) Hn Hl') as (H1 & H2 & H3).
    split; [eauto using le_trans|].
    split.
    + intros x [->|Hin]; eauto using le_trans.
    + destruct H3 as [H3|H3]; [|now right; right].
      rewrite H3. destruct Hsel as [->| ->]; [now left|now right; left].
Qed.

Lemma Math_min_minimum (l : list number) :
  l <> [] -> no_NaN l -> is_minimum (JS.Math_min l) l.
Proof.
  intros Hne Hl. unfold JS.Math_min.
  destruct (fold_min2 l JS.PosInf eq_refl Hl) as (_ & Hlow & Hsel).
  split; [|exact Hlow].
  destruct Hsel as [E|Hin]; [|exact Hin].
  destruct l as [|a l]; [congruence|].
  pose proof (Hlow a (or_introl eq_refl)) as Ha.
  rewrite E in Ha. apply le_PosInf in Ha. subst a. rewrite E. now left.
Qed.

Lemma Math_max_maximum (l : list number) :
  l <> [] -> no_NaN l -> is_maximum (JS.Math_max l) l.
Proof.
  intros Hne Hl. unfold JS.Math_max.
  destruct (fold_max2 l JS.NegInf eq_refl Hl) as (_ & Hup & Hsel).
  split; [|exact Hup].
  destruct Hsel as [E|Hin]; [|exact Hin].
  destruct l as [|a l]; [congruence|].
  pose proof (Hup a (or_introl eq_refl)) as Ha.
  rewrite E in Ha. apply le_NegInf in Ha. subst a. rewrite E. now left.
Qed.

(** The score read off a report is never [NaN]: a missing or [NaN] category
    score counts as 0. *)
Lemma or_zero_not_NaN (v : option number) : JS.is_NaN (JS.or_zero v) = false.
Proof. destruct v as [[]|]; simpl; try reflexivity. now destruct (JS.is_zero q). Qed.

Lemma score_not_NaN (lhr : LighthouseResult) :
  JS.is_NaN (score (metrics_of_lhr lhr)) = false.
Proof.
  unfold metrics_of_lhr; cbn [score].
  pose proof (or_zero_not_NaN (performance_score lhr)) as Hz.
  destruct (JS.or_zero (performance_score lhr)); simpl in *;
    try discriminate; reflexivity.
Qed.

(* ===================================================================== *)
(** * The monad                                                           *)
(* ===================================================================== *)

Section MonadLemmas.
Context `{Collaborators}.

Lemma bind_Ok {A B} (m : M A) (k : A -> M B) st a st1 :
  m st = (Ok a, st1) -> bind m k st = k a st1.
Proof. intros E. unfold bind. now rewrite E. Qed.

Lemma bind_Throw {A B} (m : M A) (k : A -> M B) st e st1 :
  m st = (Throw e, st1) -> bind m k st = (Throw e, st1).
Proof. intros E. unfold bind. now rewrite E. Qed.

Lemma bind_inv_Ok {A B} (m : M A) (k : A -> M B) st b st' :
  bind m k st = (Ok b, st') ->
  exists a st1, m st = (Ok a, st1) /\ k a st1 = (Ok b, st').
Proof.
  unfold bind. destruct (m st) as [[a|e] st1]; [eauto|discriminate].
Qed.

Lemma returns_ret {A} (a : A) (P : A -> Prop) : P a -> returns (ret a) P.
Proof. intros Ha st. exists a, st. now split. Qed.

Lemma returns_bind {A B} (m : M A) (k : A -> M B) P Q :
  returns m P -> (forall a, P a -> returns (k a) Q) -> returns (bind m k) Q.
Proof.
  intros Hm Hk st. destruct (Hm st) as (a & st1 & E & Pa).
  rewrite (bind_Ok _ _ _ _ _ E). apply (Hk a Pa).
Qed.

Lemma returns_weaken {A} (m : M A) (P Q : A -> Prop) :
  returns m P -> (forall a, P a -> Q a) -> returns m Q.
Proof.
  intros Hm HPQ st. destruct (Hm st) as (a & st' & E & Pa). eauto.
Qed.

Lemma returns_log line : returns (log line) (fun _ => True).
Proof. intros st. unfold log. eauto. Qed.

Lemma returns_sleep ms : returns (sleep ms) (fun _ => True).
Proof. intros st. unfold sleep. eauto. Qed.

Lemma returns_Date_iso : returns Date_iso (fun _ => True).
Proof. intros st. unfold Date_iso. eauto. Qed.

Lemma returns_Date_now : returns Date_now (fun _ => True).
Proof. intros st. unfold Date_now. eauto. Qed.

Lemma returns_call {A} (op : World -> Result A * World) :
  always_ok op -> returns (call op) (fun _ => True).
Proof.
  intros Hop st. unfold call. destruct (Hop (world st)) as (a & w' & E).
  rewrite E. eauto.
Qed.

(** a [catch] whose handler returns makes the whole statement return *)
Lemma returns_try_catch {A} (body : M A) (handler : Error -> M A) :
  (forall e, returns (handler e) (fun _ => True)) ->
  returns (try_catch body handler) (fun _ => True).
Proof.
  intros Hh st. unfold try_catch. destruct (body st) as [[a|e] st1].
  - eauto.
  - apply Hh.
Qed.

Lemma returns_try_finally {A} (body : M A) (fin : M unit) P :
  returns body P -> returns fin (fun _ => True) ->
  returns (try_finally body fin) P.
Proof.
  intros Hb Hf st. unfold try_finally.
  destruct (Hb st) as (a & st1 & E & Pa). rewrite E.
  destruct (Hf st1) as (u & st2 & E2 & _). rewrite E2. eauto.
Qed.

Lemma returns_for_each {A} (l : list A) (body : A -> M unit) :
  (forall x, returns (body x) (fun _ => True)) ->
  returns (for_each l body) (fun _ => True).
Proof.
  intros Hb. induction l as [|x l IH]; simpl.
  - now apply returns_ret.
  - eapply returns_bind; [apply Hb|]. intros _ _. exact IH.
Qed.

Lemma ensures_ret {A} (a : A) (P : A -> Prop) : P a -> ensures (ret a) P.
Proof. intros Ha st a' st' [= <- _]. exact Ha. Qed.

Lemma ensures_bind {A B} (m : M A) (k : A -> M B) P Q :
  ensures m P -> (forall a, P a -> ensures (k a) Q) -> ensures (bind m k) Q.
Proof.
  intros Hm Hk st b st' E.
  destruct (bind_inv_Ok _ _ _ _ _ E) as (a & st1 & E1 & E2).
  exact (Hk a (Hm _ _ _ E1) _ _ _ E2).
Qed.

Lemma ensures_weaken {A} (m : M A) (P Q : A -> Prop) :
  ensures m P -> (forall a, P a -> Q a) -> ensures m Q.
Proof. intros Hm HPQ st a st' E. exact (HPQ a (Hm _ _ _ E)). Qed.

Lemma ensures_True {A} (m : M A) : ensures m (fun _ => True).
Proof. intros st a st' _. exact I. Qed.

(** a [finally] block cannot change the value its [try] block returns *)
Lemma ensures_try_finally {A} (body : M A) (fin : M unit) P :
  ensures body P -> ensures (try_finally body fin) P.
Proof.
  intros Hb st a st' E. unfold try_finally in E.
  destruct (body st) as [r st1] eqn:Eb.
  destruct (fin st1) as [[u|e] st2]; [|discriminate].
  injection E as -> _. exact (Hb _ _ _ Eb).
Qed.

End MonadLemmas.

(** a step of a proof that a program returns: a statement that only
    prints *)
Ltac returns_log_step :=
  eapply returns_bind; [apply returns_log|]; intros _ _.

(** a step of a proof about the value a program returns: a statement whose
    own value does not matter *)
Ltac ensures_skip :=
  eapply ensures_bind; [apply ensures_True|]; intros _ _.

(* ===================================================================== *)
(** * Measurement runner                                                  *)
(* ===================================================================== *)

Section RunnerLemmas.
Context `{Collaborators}.

Lemma returns_runSingleMeasurement url i runs :
  always_ok (lighthouse url) ->
  returns (runSingleMeasurement url i runs) is_sample.
Proof.
  intros Hl. unfold runSingleMeasurement.
  returns_log_step.
  eapply returns_bind; [apply returns_call, Hl|]. intros lhr _.
  returns_log_step.
  apply returns_ret. now exists lhr.
Qed.

Lemma ensures_runSingleMeasurement url i runs :
  ensures (runSingleMeasurement url i runs) is_sample.
Proof.
  unfold runSingleMeasurement. ensures_skip.
  eapply ensures_bind; [apply ensures_True|]. intros lhr _.
  ensures_skip. apply ensures_ret. now exists lhr.
Qed.

Lemma returns_run_loop url runs n : forall i acc,
  n = 0%nat \/ always_ok (lighthouse url) ->
  returns (run_loop n url i runs acc)
    (fun metrics => exists new, metrics = acc ++ new
                    /\ length new = n /\ Forall is_sample new).
Proof.
  induction n as [|n IH]; intros i acc Hl; simpl.
  - apply returns_ret. exists []. now rewrite app_nil_r.
  - destruct Hl as [Hl|Hl]; [discriminate|].
    eapply returns_bind; [now apply returns_runSingleMeasurement|].
    intros m Hm.
    eapply returns_bind;
      [destruct (i <? runs); [apply returns_sleep|now apply returns_ret]|].
    intros _ _.
    eapply returns_weaken; [apply (IH (i + 1) (acc ++ [m])); now right|].
    intros metrics (new & -> & Hlen & Hnew).
    exists (m :: new). rewrite <- app_assoc. simpl.
    repeat split; auto.
Qed.

(** the loop adds one sample per iteration, whatever the audits answer *)
Lemma ensures_run_loop url runs n : forall i acc,
  ensures (run_loop n url i runs acc)
    (fun metrics => exists new, metrics = acc ++ new
                    /\ length new = n /\ Forall is_sample new).
Proof.
  induction n as [|n IH]; intros i acc; simpl.
  - apply ensures_ret. exists []. now rewrite app_nil_r.
  - eapply ensures_bind; [apply ensures_runSingleMeasurement|].
    intros m Hm. ensures_skip.
    eapply ensures_weaken; [apply (IH (i + 1) (acc ++ [m]))|].
    intros metrics (new & -> & Hlen & Hnew).
    exists (m :: new). rewrite <- app_assoc. simpl.
    repeat split; auto.
Qed.

Lemma returns_applyCustomOverrides config :
  returns (applyCustomOverrides config) (fun _ => True).
Proof.
  unfold applyCustomOverrides. destruct (applyOverrides config).
  - returns_log_step.
    apply returns_try_catch. intros e. apply returns_log.
  - apply returns_log.
Qed.

(** With a working browser and an audit engine that answers,
    [runMeasurements] returns. *)
Lemma returns_runMeasurements options config :
  browser_works ->
  Z.to_nat (opt_runs options) = 0%nat
  \/ always_ok (lighthouse (opt_url options)) ->
  returns (runMeasurements options config) (fun _ => True).
Proof.
  intros (Hlaunch & Hpage & Hgoto & Hpclose & Hclose) Hl.
  unfold runMeasurements.
  do 3 returns_log_step.
  eapply returns_bind.
  { instantiate (1 := fun _ => True).
    destruct (opt_note options) as [n|]; [|now apply returns_ret].
    destruct (String.eqb n EmptyString);
      [now apply returns_ret|apply returns_log]. }
  intros _ _.
  do 2 returns_log_step.
  eapply returns_bind; [now apply returns_call|]. intros _ _.
  apply returns_try_finally; [|now apply returns_call].
  eapply returns_bind.
  { instantiate (1 := fun _ => True).
    destruct (opt_applyOverrides options); [|now apply returns_ret].
    destruct (applyOverrides config) eqn:E; [|apply returns_log].
    eapply returns_bind; [now apply returns_call|]. intros _ _.
    eapply returns_bind; [apply returns_call, Hgoto|]. intros _ _.
    eapply returns_bind; [apply returns_applyCustomOverrides|]. intros _ _.
    now apply returns_call. }
  intros _ _.
  returns_log_step.
  eapply returns_bind; [now apply returns_run_loop|].
  intros metrics _. now apply returns_ret.
Qed.

(** Whatever the collaborators do, a value returned by [runMeasurements] is
    the reduction of as many samples as the loop has iterations. *)
Lemma ensures_runMeasurements options config :
  ensures (runMeasurements options config)
    (fun out => exists metrics,
       out = reduce_metrics metrics
       /\ length metrics = Z.to_nat (opt_runs options)
       /\ Forall is_sample metrics).
Proof.
  unfold runMeasurements.
  do 7 ensures_skip.
  apply ensures_try_finally.
  do 2 ensures_skip.
  eapply ensures_bind; [apply ensures_run_loop|].
  intros metrics (new & -> & Hlen & Hnew).
  apply ensures_ret. exists new. auto.
Qed.

Lemma scores_no_NaN (metrics : list MeasurementResult) :
  Forall is_sample metrics -> no_NaN (map score metrics).
Proof.
  intros Hm. unfold no_NaN. rewrite Forall_map.
  eapply Forall_impl; [exact Hm|].
  intros m (lhr & ->). apply score_not_NaN.
Qed.

(** the reduction of at least one sample is as the specification says *)
Lemma reduce_metrics_reduced (metrics : list MeasurementResult) :
  metrics <> [] -> Forall is_sample metrics ->
  samples_reduced (Z.of_nat (length metrics)) (reduce_metrics metrics).
Proof.
  intros Hne Hsamples. unfold samples_reduced.
  cbn [reduce_metrics out_metrics out_averages out_minScore out_maxScore
       score fcp lcp tbt cls si].
  assert (Hmap : forall f : MeasurementResult -> number,
             map f metrics <> []).
  { intros f Hf. apply map_eq_nil in Hf. contradiction. }
  split; [reflexivity|].
  split; [exact Hsamples|].
  repeat (split; [now apply average_mean|]).
  split.
  - apply Math_min_minimum; [apply Hmap|now apply scores_no_NaN].
  - apply Math_max_maximum; [apply Hmap|now apply scores_no_NaN].
Qed.

(** what [runMeasurements] returns when there is nothing to run *)
Lemma runMeasurements_no_runs (options : MeasureOptions)
    (config : WebperfConfig) (st : State) (out : RunOutput) (st' : State) :
  opt_runs options = 0 ->
  runMeasurements options config st = (Ok out, st') ->
  out = reduce_metrics [].
Proof.
  intros Hruns E.
  destruct (ensures_runMeasurements options config _ _ _ E)
    as (metrics & -> & Hlen & _).
  rewrite Hruns in Hlen. apply length_zero_iff_nil in Hlen. now subst.
Qed.

End RunnerLemmas.

Section RunnerTheorems.
Context `{Collaborators}.


(** C4.  With [runs = 0], a call of [runMeasurements] that returns gives no
    sample and every averaged field is 0; with a working browser the call
    does return.  The 0 comes from the guard of [average]: the division it
    skips would give [NaN]. *)
Theorem runMeasurements_zero_runs_averages
    (options : MeasureOptions) (config : WebperfConfig) (st : State) :
  opt_runs options = 0 ->
  (forall out st',
      runMeasurements options config st = (Ok out, st') ->
      out_metrics out = []
      /\ map score (out_metrics out) = []
      /\ out_averages out = zero_result)
  /\ (browser_works ->
      exists out st', runMeasurements options config st = (Ok out, st'))
  /\ average [] = JS.zero
  /\ JS.div (fold_left JS.add [] JS.zero) (JS.of_nat (length (@nil number)))
     = JS.NaN.
Proof.
  intros Hruns. split; [|split; [|split; reflexivity]].
  - intros out st' E.
    rewrite (runMeasurements_no_runs options config st out st' Hruns E).
    repeat split.
  - intros Hb.
    assert (Hz : Z.to_nat (opt_runs options) = 0%nat)
      by (rewrite Hruns; reflexivity).
    destruct (returns_runMeasurements options config Hb (or_introl Hz) st)
      as (out & st' & E & _).
    eauto.
Qed.

(** C10.  With [runs = 0], a call of [runMeasurements] that returns gives
    [minScore = +Infinity] and [maxScore = -Infinity], although the averages
    of the same call are 0; with a working browser the call does return. *)
Theorem runMeasurements_zero_runs_spread
    (options : MeasureOptions) (config : WebperfConfig) (st : State) :
  opt_runs options = 0 ->
  (forall out st',
      runMeasurements options config st = (Ok out, st') ->
      out_minScore out = JS.PosInf
      /\ out_maxScore out = JS.NegInf
      /\ out_averages out = zero_result)
  /\ (browser_works ->
      exists out st', runMeasurements options config st = (Ok out, st')).
Proof.
  intros Hruns. split.
  - intros out st' E.
    rewrite (runMeasurements_no_runs options config st out st' Hruns E).
    repeat split.
  - intros Hb.
    assert (Hz : Z.to_nat (opt_runs options) = 0%nat)
      by (rewrite Hruns; reflexivity).
    destruct (returns_runMeasurements options config Hb (or_introl Hz) st)
      as (out & st' & E & _).
    eauto.
Qed.

End RunnerTheorems.

(* ===================================================================== *)
(** * Comparison *)
(* ===================================================================== *)

Section CompareLemmas.
Context `{Collaborators}.

Lemma for_each_log (lines : list string) (st : State) :
  for_each lines log st
  = (Ok tt, {| world := world st; now := now st; files := files st;
               pidFile := pidFile st; console := console st ++ lines |}).
Proof.
  revert st. induction lines as [|l lines IH]; intros st; simpl.
  - unfold ret. rewrite app_nil_r. now destruct st.
  - unfold bind, log at 1. rewrite IH. simpl.
    now rewrite <- app_assoc.
Qed.

Lemma for_each_log_map {A} (f : A -> string) (l : list A) (st : State) :
  for_each l (fun x => log (f x)) st = for_each (map f l) log st.
Proof.
  revert st. induction l as [|x l IH]; intros st; simpl; [reflexivity|].
  unfold bind. destruct (log (f x) st) as [[u|e] st1]; [apply IH|reflexivity].
Qed.

(** C5.  Once both summaries are loaded, [compareResults] prints one row
    per metric, in the order score, FCP, LCP, TBT, CLS, Speed Index.  Each
    row holds the two averages of its metric, [diff = after - before] and
    [percentChange = diff / before * 100]; [improved] is [after > before]
    for the score and [after < before] for each of the other five. *)
Theorem compareResults_rows
    (settings : UserSettings) (path1 path2 : string)
    (s1 s2 : MeasurementSummary) (st st1 st2 : State) :
  loadSummary settings path1 st = (Ok (Some s1), st1) ->
  loadSummary settings path2 st1 = (Ok (Some s2), st2) ->
  let rows := comparisons s1 s2 in
  (exists st',
     compareResults settings path1 path2 st = (Ok tt, st')
     /\ console st'
        = console st2 ++ comparison_header s1 s2
            ++ map comparison_row rows)
  /\ map before rows = map (fun f => f (averages s1)) metric_fields
  /\ map after rows = map (fun f => f (averages s2)) metric_fields
  /\ Forall (fun c =>
               diff c = JS.sub (after c) (before c)
               /\ percentChange c
                  = JS.mul (JS.div (diff c) (before c)) (JS.of_Z 100)) rows
  /\ (exists c rest,
        rows = c :: rest
        /\ metric c = "Performance Score"
        /\ (improved c = true <-> JS.gtb (after c) (before c) = true)
        /\ Forall (fun c' =>
                     improved c' = true
                     <-> JS.ltb (after c') (before c') = true) rest).
Proof.
  intros L1 L2 rows. split; [|split; [reflexivity|split; [reflexivity|split]]].
  - unfold compareResults.
    rewrite (bind_Ok _ _ _ _ _ L1), (bind_Ok _ _ _ _ _ L2).
    unfold bind at 1, log at 1. unfold bind at 1, log at 1.
    unfold bind at 1, log at 1. unfold bind at 1, log at 1.
    rewrite for_each_log_map, for_each_log. cbn [console].
    eexists. split; [reflexivity|]. cbn [console].
    unfold comparison_header. rewrite <- !app_assoc. reflexivity.
  - repeat constructor.
  - eexists _, _. split; [reflexivity|].
    split; [reflexivity|]. split; [reflexivity|].
    repeat constructor; cbn [improved after before compare_metric]; auto.
Qed.

End CompareLemmas.

(* ===================================================================== *)
(** * Process lifecycle manager: properties *)
(* ===================================================================== *)

Section ProcessLemmas.
Context `{Collaborators}.

Lemma isPortInUse_eq (port : Z) (st : State) :
  isPortInUse port st
  = (Ok match fst (findProcess port (world st)) with
        | Ok (_ :: _) => true
        | _ => false
        end,
     set_world (snd (findProcess port (world st))) st).
Proof.
  unfold isPortInUse, try_catch, bind, call, ret, set_world.
  destruct (findProcess port (world st)) as [[l|e] w]; simpl.
  - now destruct l.
  - reflexivity.
Qed.

(** one poll of [waitForPortFree] *)
Lemma waitForPortFree_loop_step (port startTime timeoutMs : Z) (fuel : nat)
    (st : State) :
  waitForPortFree_loop (S fuel) port startTime timeoutMs st
  = if now st - startTime <? timeoutMs
    then let st1 := set_world (snd (findProcess port (world st))) st in
         match fst (findProcess port (world st)) with
         | Ok (_ :: _) =>
             waitForPortFree_loop fuel port startTime timeoutMs
               (snd (sleep 500 st1))
         | _ => (Ok true, st1)
         end
    else (Ok false, st).
Proof.
  cbn [waitForPortFree_loop]. unfold bind at 1, Date_now.
  destruct (now st - startTime <? timeoutMs); [|reflexivity].
  unfold bind at 1. rewrite isPortInUse_eq.
  destruct (fst (findProcess port (world st))) as [[|p l]|e]; reflexivity.
Qed.

(** The polls of [waitForPortFree] are half a second of virtual time apart,
    so one more poll than the time left allows changes nothing. *)
Lemma waitForPortFree_loop_spare (port startTime timeoutMs : Z) (fuel : nat) :
  forall st,
    timeoutMs - (now st - startTime) < 500 * Z.of_nat fuel ->
    waitForPortFree_loop (S fuel) port startTime timeoutMs st
    = waitForPortFree_loop fuel port startTime timeoutMs st.
Proof.
  induction fuel as [|fuel IH]; intros st Hleft.
  - rewrite waitForPortFree_loop_step.
    assert (E : (now st - startTime <? timeoutMs) = false)
      by (apply Z.ltb_ge; lia).
    now rewrite E.
  - rewrite (waitForPortFree_loop_step _ _ _ (S fuel)).
    rewrite (waitForPortFree_loop_step _ _ _ fuel).
    destruct (now st - startTime <? timeoutMs); [|reflexivity].
    destruct (fst (findProcess port (world st))) as [[|p l]|e];
      try reflexivity.
    apply IH. cbn [sleep snd now set_world]. lia.
Qed.

(** [waitForPortFree] with any larger poll budget gives the same answer:
    it is the clock, never the budget, that ends the wait. *)
Lemma waitForPortFree_budget (port timeoutMs : Z) (spare : nat) (st : State) :
  waitForPortFree_loop (spare + poll_budget timeoutMs 500) port (now st)
    timeoutMs st
  = waitForPortFree port timeoutMs st.
Proof.
  unfold waitForPortFree, bind, Date_now.
  induction spare as [|spare IH]; [reflexivity|].
  cbn [Nat.add]. rewrite waitForPortFree_loop_spare; [exact IH|].
  unfold poll_budget.
  assert (Hdiv : timeoutMs < 500 * (timeoutMs / 500) + 500).
  { pose proof (Z.mod_pos_bound timeoutMs 500 ltac:(lia)).
    pose proof (Z.div_mod timeoutMs 500 ltac:(lia)). lia. }
  assert (Hnat : timeoutMs / 500 <= Z.of_nat (Z.to_nat (timeoutMs / 500)))
    by lia.
  lia.
Qed.

(** one poll of [waitForPort] *)
Lemma waitForPort_loop_step (port startTime timeoutMs : Z) (fuel : nat)
    (st : State) :
  waitForPort_loop (S fuel) port startTime timeoutMs st
  = if now st - startTime <? timeoutMs
    then let st1 := set_world (snd (findProcess port (world st))) st in
         match fst (findProcess port (world st)) with
         | Ok (_ :: _) => (Ok true, st1)
         | _ =>
             waitForPort_loop fuel port startTime timeoutMs
               (snd (sleep 1000 st1))
         end
    else (Ok false, st).
Proof.
  cbn [waitForPort_loop]. unfold bind at 1, Date_now.
  destruct (now st - startTime <? timeoutMs); [|reflexivity].
  unfold bind at 1. rewrite isPortInUse_eq.
  destruct (fst (findProcess port (world st))) as [[|p l]|e]; reflexivity.
Qed.

Lemma waitForPort_loop_spare (port startTime timeoutMs : Z) (fuel : nat) :
  forall st,
    timeoutMs - (now st - startTime) < 1000 * Z.of_nat fuel ->
    waitForPort_loop (S fuel) port startTime timeoutMs st
    = waitForPort_loop fuel port startTime timeoutMs st.
Proof.
  induction fuel as [|fuel IH]; intros st Hleft.
  - rewrite waitForPort_loop_step.
    assert (E : (now st - startTime <? timeoutMs) = false)
      by (apply Z.ltb_ge; lia).
    now rewrite E.
  - rewrite (waitForPort_loop_step _ _ _ (S fuel)).
    rewrite (waitForPort_loop_step _ _ _ fuel).
    destruct (now st - startTime <? timeoutMs); [|reflexivity].
    destruct (fst (findProcess port (world st))) as [[|p l]|e];
      try reflexivity; apply IH; cbn [sleep snd now set_world]; lia.
Qed.

(** the same for [waitForPort], whose polls are one second apart *)
Lemma waitForPort_budget (port timeoutMs : Z) (spare : nat) (st : State) :
  waitForPort_loop (spare + poll_budget timeoutMs 1000) port (now st)
    timeoutMs st
  = waitForPort port timeoutMs st.
Proof.
  unfold waitForPort, bind, Date_now.
  induction spare as [|spare IH]; [reflexivity|].
  cbn [Nat.add]. rewrite waitForPort_loop_spare; [exact IH|].
  unfold poll_budget.
  assert (Hdiv : timeoutMs < 1000 * (timeoutMs / 1000) + 1000).
  { pose proof (Z.mod_pos_bound timeoutMs 1000 ltac:(lia)).
    pose proof (Z.div_mod timeoutMs 1000 ltac:(lia)). lia. }
  assert (Hnat : timeoutMs / 1000 <= Z.of_nat (Z.to_nat (timeoutMs / 1000)))
    by lia.
  lia.
Qed.

(** C8.  [isPortInUse] returns a boolean from every state, whatever the
    lookup does: [true] exactly when the lookup succeeds with a non-empty
    list, [false] whenever the lookup throws. *)
Theorem isPortInUse_never_throws (port : Z) (st : State) :
  exists b st',
    isPortInUse port st = (Ok b, st')
    /\ (b = true <-> port_answers port (world st))
    /\ (lookup_fails port (world st) -> b = false).
Proof.
  rewrite isPortInUse_eq. eexists _, _. split; [reflexivity|].
  unfold port_answers, lookup_fails.
  destruct (fst (findProcess port (world st))) as [[|p l]|e].
  - split; [|reflexivity]. split; [discriminate|].
    intros (? & ? & ?). discriminate.
  - split; [|intros (? & ?); discriminate]. split; eauto.
  - split; [|reflexivity]. split; [discriminate|].
    intros (? & ? & ?). discriminate.
Qed.

Lemma killProcess_eq (pid : Z) (st : State) :
  killProcess pid st
  = (match fst (treeKill pid (world st)) with
     | None => Ok tt
     | Some e => if is_process_not_found e then Ok tt else Throw e
     end,
     set_world (snd (treeKill pid (world st))) st).
Proof.
  unfold killProcess, bind, call, ret, throw, set_world.
  destruct (treeKill pid (world st)) as [[e|] w]; simpl; [|reflexivity].
  now destruct (is_process_not_found e).
Qed.

(** one iteration of the first loop of [stopAll] *)
Lemma stop_one_eq (proc : RunningProcess) (st : State) :
  try_catch
    (killProcess (proc_pid proc);;;
     log ("  Stopped " ++ proc_name proc ++ " (PID: "
          ++ pretty (proc_pid proc) ++ ")"))
    (fun _ => ret tt) st
  = (Ok tt,
     {| world := snd (treeKill (proc_pid proc) (world st));
        now := now st; files := files st; pidFile := pidFile st;
        console := console st ++ stopped_lines [proc] (world st) |}).
Proof.
  unfold try_catch, bind. rewrite killProcess_eq.
  cbn [stopped_lines]. unfold kill_resolves. rewrite app_nil_r.
  destruct (fst (treeKill (proc_pid proc) (world st))) as [e|]; simpl.
  - destruct (is_process_not_found e); simpl; [reflexivity|].
    unfold ret. now rewrite app_nil_r.
  - reflexivity.
Qed.

Lemma stop_loop_eq (saved : list RunningProcess) : forall st,
  for_each saved (fun proc =>
    try_catch
      (killProcess (proc_pid proc);;;
       log ("  Stopped " ++ proc_name proc ++ " (PID: "
            ++ pretty (proc_pid proc) ++ ")"))
      (fun _ => ret tt)) st
  = (Ok tt,
     {| world := world_after_kills saved (world st);
        now := now st; files := files st; pidFile := pidFile st;
        console := console st ++ stopped_lines saved (world st) |}).
Proof.
  induction saved as [|proc saved IH]; intros st.
  - simpl. unfold ret. rewrite app_nil_r. now destruct st.
  - cbn [for_each]. unfold bind at 1. rewrite stop_one_eq.
    rewrite IH. cbn [world now files pidFile console world_after_kills
                     fold_left].
    f_equal. f_equal. cbn [stopped_lines]. rewrite app_nil_r.
    now rewrite <- app_assoc.
Qed.

(** the first phase of [stopAll], in one step *)
Lemma stopAll_registry_eq (st : State) :
  stopAll_registry st
  = (Ok tt,
     {| world := world_after_kills (registry (pidFile st)) (world st);
        now := now st; files := files st; pidFile := NoPidFile;
        console := console st
                   ++ stopped_lines (registry (pidFile st)) (world st) |}).
Proof.
  unfold stopAll_registry, bind at 1.
  assert (E : loadPids st = (Ok (registry (pidFile st)), st)).
  { unfold loadPids, registry. now destruct (pidFile st). }
  rewrite E. unfold bind. rewrite stop_loop_eq.
  reflexivity.
Qed.

(** C7 (amended).  [killProcess] resolves when the kill reports no error or
    a "process not found" error, and rejects with the error otherwise.  The
    first phase of [stopAll] requests the kill of every recorded pid, in
    registry order, whatever the earlier kills answered; it catches a
    rejected kill, which only costs that process its "Stopped" line.  So the
    phase itself never throws, and the registry is empty afterwards. *)
Theorem stopAll_registry_best_effort (st : State) :
  let saved := registry (pidFile st) in
  (forall pid st0,
      exists st1,
        killProcess pid st0
        = (match fst (treeKill pid (world st0)) with
           | None => Ok tt
           | Some e => if is_process_not_found e then Ok tt else Throw e
           end, st1))
  /\ exists st',
       stopAll_registry st = (Ok tt, st')
       /\ world st' = world_after_kills saved (world st)
       /\ console st' = console st ++ stopped_lines saved (world st)
       /\ pidFile st' = NoPidFile
       /\ fst (loadPids st') = Ok [].
Proof.
  intros saved. split.
  - intros pid st0. rewrite killProcess_eq. eauto.
  - rewrite stopAll_registry_eq. eexists. split; [reflexivity|].
    repeat split; reflexivity.
Qed.

End ProcessLemmas.

Section Teardown.
Context `{Collaborators}.

Lemma prints_ret {A} (a : A) : prints (ret a).
Proof. intros st. exists a, st, []. now rewrite app_nil_r. Qed.

Lemma prints_bind {A B} (m : M A) (k : A -> M B) :
  prints m -> (forall a, prints (k a)) -> prints (bind m k).
Proof.
  intros Hm Hk st. destruct (Hm st) as (a & st1 & l1 & E1 & C1).
  destruct (Hk a st1) as (b & st2 & l2 & E2 & C2).
  exists b, st2, (l1 ++ l2). rewrite (bind_Ok _ _ _ _ _ E1).
  split; [exact E2|]. now rewrite C2, C1, app_assoc.
Qed.

Lemma prints_log line : prints (log line).
Proof. intros st. exists tt, (snd (log line st)), [line]. now unfold log. Qed.

Lemma prints_sleep ms : prints (sleep ms).
Proof.
  intros st. exists tt, (snd (sleep ms st)), []. unfold sleep; simpl.
  now rewrite app_nil_r.
Qed.

Lemma prints_Date_now : prints Date_now.
Proof. intros st. exists (now st), st, []. now rewrite app_nil_r. Qed.

Lemma prints_isPortInUse port : prints (isPortInUse port).
Proof.
  intros st. rewrite isPortInUse_eq. eexists _, _, [].
  split; [reflexivity|]. simpl. now rewrite app_nil_r.
Qed.

Lemma prints_getProcessOnPort port : prints (getProcessOnPort port).
Proof.
  intros st. unfold getProcessOnPort, try_catch, bind, call, ret.
  destruct (findProcess port (world st)) as [[[|p l]|e] w]; simpl;
    eexists _, _, []; (split; [reflexivity|]); simpl; now rewrite app_nil_r.
Qed.

Lemma prints_for_each {A} (l : list A) (body : A -> M unit) :
  (forall x, prints (body x)) -> prints (for_each l body).
Proof.
  intros Hb. induction l as [|x l IH]; simpl.
  - apply prints_ret.
  - apply prints_bind; [apply Hb|]. intros _. exact IH.
Qed.

(** a guarded kill: [try { await killProcess(pid); log(line) } catch {}] *)
Lemma prints_guarded_kill pid line :
  prints (try_catch (killProcess pid;;; log line) (fun _ => ret tt)).
Proof.
  intros st. unfold try_catch, bind. rewrite killProcess_eq.
  destruct (fst (treeKill pid (world st))) as [e|];
    [destruct (is_process_not_found e)|]; simpl.
  - eexists _, _, [line]. split; reflexivity.
  - eexists _, _, []. split; [reflexivity|]. simpl. now rewrite app_nil_r.
  - eexists _, _, [line]. split; reflexivity.
Qed.

Lemma prints_waitForPortFree_loop fuel port startTime timeoutMs :
  prints (waitForPortFree_loop fuel port startTime timeoutMs).
Proof.
  induction fuel as [|fuel IH]; simpl; [apply prints_ret|].
  apply prints_bind; [apply prints_Date_now|]. intros t.
  destruct (t - startTime <? timeoutMs); [|apply prints_ret].
  apply prints_bind; [apply prints_isPortInUse|]. intros inUse.
  destruct (negb inUse); [apply prints_ret|].
  apply prints_bind; [apply prints_sleep|]. intros _. exact IH.
Qed.

Lemma prints_stopAll_registry : prints stopAll_registry.
Proof.
  intros st. rewrite stopAll_registry_eq. eexists _, _, _.
  split; reflexivity.
Qed.

Lemma prints_stopAll_ports allPorts : prints (stopAll_ports allPorts).
Proof.
  unfold stopAll_ports. apply prints_for_each. intros port.
  apply prints_bind; [apply prints_getProcessOnPort|].
  intros [p|]; [apply prints_guarded_kill|apply prints_ret].
Qed.

Lemma prints_stopAll_wait allPorts : prints (stopAll_wait allPorts).
Proof.
  unfold stopAll_wait. destruct (0 <? length allPorts)%nat;
    [|apply prints_ret].
  apply prints_bind; [apply prints_log|]. intros _.
  apply prints_for_each. intros port.
  apply prints_bind; [|intros _; apply prints_ret].
  unfold waitForPortFree.
  apply prints_bind; [apply prints_Date_now|]. intros t.
  apply prints_waitForPortFree_loop.
Qed.

(** [stopAll] never throws; its first console line announces the
    teardown *)
Lemma stopAll_announces (config : WebperfConfig) (st : State) :
  exists st' lines,
    stopAll config st = (Ok tt, st')
    /\ console st' = console st ++ stopping_line :: lines.
Proof.
  assert (P : prints (stopAll_registry;;;
                      stopAll_ports (map service_port (services config));;;
                      stopAll_wait (map service_port (services config));;;
                      log "All processes stopped.")).
  { apply prints_bind; [apply prints_stopAll_registry|]. intros _.
    apply prints_bind; [apply prints_stopAll_ports|]. intros _.
    apply prints_bind; [apply prints_stopAll_wait|]. intros _.
    apply prints_log. }
  unfold stopAll, bind at 1, log at 1.
  match goal with |- context [_ ?s = (Ok tt, _)] =>
    destruct (P s) as ([] & st' & lines & E & C) end.
  exists st', lines. split; [exact E|].
  rewrite C. cbn [console]. now rewrite <- app_assoc.
Qed.

(** the scan of [ensurePortsFree], when the lookup is a query *)
Lemma any_port_in_use_query (allPorts : list Z) (st : State) :
  lookup_is_query ->
  exists b,
    any_port_in_use allPorts st = (Ok b, st)
    /\ (b = true <-> exists port, In port allPorts
                                   /\ port_answers port (world st)).
Proof.
  intros Hq. induction allPorts as [|port rest IH]; simpl.
  - exists false. split; [reflexivity|]. split; [discriminate|].
    intros (? & [] & _).
  - unfold bind. rewrite isPortInUse_eq, Hq.
    assert (Est : set_world (world st) st = st) by now destruct st.
    rewrite Est.
    destruct (fst (findProcess port (world st))) as [[|p l]|e] eqn:E.
    + destruct IH as (b & Eb & Hb). exists b. split; [exact Eb|].
      rewrite Hb. split.
      * intros (q & Hin & Hq'). eauto.
      * intros (q & [<-|Hin] & Hq'); [|eauto].
        destruct Hq' as (? & ? & Hq'). rewrite E in Hq'. discriminate.
    + exists true. split; [reflexivity|]. split; [|reflexivity].
      intros _. exists port. split; [now left|].
      unfold port_answers. rewrite E. eauto.
    + destruct IH as (b & Eb & Hb). exists b. split; [exact Eb|].
      rewrite Hb. split.
      * intros (q & Hin & Hq'). eauto.
      * intros (q & [<-|Hin] & Hq'); [|eauto].
        destruct Hq' as (? & ? & Hq'). rewrite E in Hq'. discriminate.
Qed.

(** C9.  When the port lookup is a query of the world, [ensurePortsFree]
    runs [stopAll] (and so prints its announcement) if and only if some
    declared service port answers; otherwise it leaves the state as it
    is.  With no service declared it never runs [stopAll]. *)
Theorem ensurePortsFree_teardown_iff
    (config : WebperfConfig) (st : State) :
  lookup_is_query ->
  let in_use :=
    exists s, In s (services config)
              /\ port_answers (service_port s) (world st) in
  (exists st' lines,
      ensurePortsFree config st = (Ok tt, st')
      /\ console st' = console st ++ lines
      /\ (In stopping_line lines <-> in_use)
      /\ (in_use ->
          ensurePortsFree config st
          = (log "Detected running services. Stopping them first...";;;
             stopAll config) st)
      /\ (~ in_use -> st' = st))
  /\ (services config = [] -> ensurePortsFree config st = (Ok tt, st)).
Proof.
  intros Hq in_use.
  destruct (any_port_in_use_query (map service_port (services config)) st Hq)
    as (b & Eb & Hb).
  assert (Hiff : b = true <-> in_use).
  { rewrite Hb. unfold in_use. split.
    - intros (port & Hin & Hp). apply in_map_iff in Hin.
      destruct Hin as (s & <- & Hs). eauto.
    - intros (s & Hs & Hp). exists (service_port s). split; [|exact Hp].
      now apply in_map. }
  split.
  - unfold ensurePortsFree. rewrite (bind_Ok _ _ _ _ _ Eb).
    destruct b.
    + unfold bind at 1, log at 1.
      match goal with |- context [stopAll config ?s] =>
        destruct (stopAll_announces config s) as (st' & lines & E & C) end.
      exists st', ("Detected running services. Stopping them first..."
                   :: stopping_line :: lines).
      split; [exact E|]. split.
      { rewrite C. cbn [console]. now rewrite <- app_assoc. }
      split; [split; [intros _; now apply Hiff|intros _; right; now left]|].
      split; [reflexivity|].
      intros Hn. exfalso. apply Hn. now apply Hiff.
    + exists st, []. split; [reflexivity|].
      split; [now rewrite app_nil_r|].
      split; [split; [intros []|intros Hi; apply Hiff in Hi; discriminate]|].
      split; [|reflexivity].
      intros Hi. apply Hiff in Hi. discriminate.
  - intros Hnil. unfold ensurePortsFree. rewrite Hnil. reflexivity.
Qed.

End Teardown.

(* ===================================================================== *)
(** * Result log: properties *)
(* ===================================================================== *)

Section SaveLemmas.
Context `{Collaborators}.
Variable settings : UserSettings.

Lemma file_chunks_append (path data p : string)
    (fs : gmap string (list string)) :
  file_chunks (append_file path data fs) p
  = file_chunks fs p ++ (if bool_decide (p = path) then [data] else []).
Proof.
  unfold file_chunks at 1, append_file. case_bool_decide as E.
  - subst p. now rewrite lookup_insert_eq.
  - rewrite lookup_insert_ne by congruence.
    now rewrite app_nil_r.
Qed.

Lemma file_chunks_write (path data p : string)
    (fs : gmap string (list string)) :
  file_chunks (write_file path data fs) p
  = if bool_decide (p = path) then [data] else file_chunks fs p.
Proof.
  unfold file_chunks at 1, write_file. case_bool_decide as E.
  - subst p. now rewrite lookup_insert_eq.
  - now rewrite lookup_insert_ne by congruence.
Qed.

Lemma lines_appended_eq tags scenarioId path :
  lines_appended settings tags scenarioId path
  = ((if bool_decide (path = jsonlLogPath settings) then 1 else 0)
     + count_occ string_dec
         (map (getLogPathForTag settings) (tag_list tags)) path
     + match scenarioId with
       | Some id =>
           if nonempty id
              && bool_decide (path = getLogPathForScenario settings id)
           then 1 else 0
       | None => 0
       end)%nat.
Proof.
  unfold lines_appended, log_paths. cbn [count_occ].
  rewrite count_occ_app.
  assert (E1 : forall a : string,
             count_occ string_dec [a] path
             = if bool_decide (path = a) then 1%nat else 0%nat).
  { intros a. cbn [count_occ]. destruct (string_dec a path) as [->|Hne].
    - now rewrite bool_decide_eq_true_2.
    - now rewrite bool_decide_eq_false_2 by congruence. }
  assert (E2 : (match scenarioId with
                | Some id =>
                    if nonempty id
                       && bool_decide
                            (path = getLogPathForScenario settings id)
                    then 1 else 0
                | None => 0
                end)%nat
               = count_occ string_dec
                   (match scenarioId with
                    | Some id =>
                        if nonempty id
                        then [getLogPathForScenario settings id] else []
                    | None => []
                    end) path).
  { destruct scenarioId as [id|]; [|reflexivity].
    destruct (nonempty id); [|reflexivity]. now rewrite E1. }
  rewrite E2.
  destruct (string_dec (jsonlLogPath settings) path) as [->|Hne].
  - rewrite bool_decide_eq_true_2 by reflexivity. lia.
  - rewrite bool_decide_eq_false_2 by congruence. lia.
Qed.

Lemma replicate_bool (b : bool) (x : string) :
  (if b then [x] else []) = replicate (if b then 1 else 0)%nat x.
Proof. now destruct b. Qed.

(** the loop over the tags *)
Lemma tag_loop_appends (line : string) (tags : list string) : forall st,
  exists st',
    for_each tags (fun tag =>
      let tagLogPath := getLogPathForTag settings tag in
      appendFileSync tagLogPath line;;;
      log ("  → " ++ tagLogPath)) st = (Ok tt, st')
    /\ forall p,
         file_chunks (files st') p
         = file_chunks (files st) p
           ++ replicate
                (count_occ string_dec
                   (map (getLogPathForTag settings) tags) p) line.
Proof.
  induction tags as [|tag tags IH]; intros st.
  - exists st. split; [reflexivity|]. intros p. simpl. now rewrite app_nil_r.
  - cbn [for_each]. unfold bind at 1. unfold bind at 1.
    unfold appendFileSync at 1, log at 1. cbn [files set_files].
    match goal with |- context [for_each _ _ ?s] =>
      destruct (IH s) as (st' & E & F) end.
    exists st'. split; [exact E|]. intros p. rewrite F. cbn [files].
    rewrite file_chunks_append, <- app_assoc. f_equal.
    cbn [map count_occ].
    destruct (string_dec (getLogPathForTag settings tag) p) as [->|Hne].
    + rewrite bool_decide_eq_true_2 by reflexivity. reflexivity.
    + rewrite bool_decide_eq_false_2 by congruence. reflexivity.
Qed.

Lemma appendToJsonlLog_appends (summary : MeasurementSummary)
    (tags : option (list string)) (scenarioId : option string) (st : State) :
  exists st',
    appendToJsonlLog settings summary tags scenarioId st = (Ok tt, st')
    /\ forall p,
         file_chunks (files st') p
         = file_chunks (files st) p
           ++ replicate (lines_appended settings tags scenarioId p)
                (json_line summary tags scenarioId st).
Proof.
  unfold appendToJsonlLog, bind at 1, Date_iso at 1.
  fold (json_line summary tags scenarioId st).
  set (line := json_line summary tags scenarioId st).
  unfold bind at 1, appendFileSync at 1. unfold bind at 1, log at 1.
  cbn [files set_files]. unfold bind at 1.
  match goal with |- context [(if has_tags tags then ?loop else ret tt) ?s] =>
    assert (L : exists st1,
               (if has_tags tags then loop else ret tt) s = (Ok tt, st1)
               /\ forall p,
                    file_chunks (files st1) p
                    = file_chunks (files s) p
                      ++ replicate
                           (count_occ string_dec
                              (map (getLogPathForTag settings)
                                 (tag_list tags)) p) line)
  end.
  { destruct tags as [[|t ts]|]; cbn [has_tags tag_list].
    - eexists. split; [reflexivity|]. intros p. simpl. now rewrite app_nil_r.
    - apply tag_loop_appends.
    - eexists. split; [reflexivity|]. intros p. simpl. now rewrite app_nil_r. }
  destruct L as (st1 & E1 & F1). rewrite E1.
  setoid_rewrite lines_appended_eq.
  destruct scenarioId as [id|]; [destruct (nonempty id) eqn:Hid|].
  - unfold bind, appendFileSync, log. cbn [files set_files].
    eexists. split; [reflexivity|]. intros p. cbn [files].
    rewrite file_chunks_append, F1. cbn [files].
    rewrite file_chunks_append. cbn [andb].
    rewrite !replicate_bool, <- !app_assoc, <- !replicate_add.
    do 2 f_equal. lia.
  - exists st1. split; [reflexivity|]. intros p. rewrite F1. cbn [files].
    rewrite file_chunks_append. cbn [andb].
    rewrite !replicate_bool, <- !app_assoc, <- !replicate_add.
    do 2 f_equal. lia.
  - exists st1. split; [reflexivity|]. intros p. rewrite F1. cbn [files].
    rewrite file_chunks_append.
    rewrite !replicate_bool, <- !app_assoc, <- !replicate_add.
    do 2 f_equal. lia.
Qed.

Lemma last_char_app (a b : string) :
  b <> EmptyString -> last_char (a ++ b) = last_char b.
Proof.
  intros Hb. induction a as [|c a IH]; [reflexivity|].
  rewrite <- IH. change (String c a ++ b)%string with (String c (a ++ b)).
  destruct (a ++ b)%string eqn:E; [|reflexivity].
  exfalso. destruct a; [apply Hb; exact E|discriminate E].
Qed.

Lemma last_char_join (dir name : string) :
  name <> EmptyString -> last_char (join dir name) = last_char name.
Proof.
  intros Hn. unfold join. rewrite last_char_app by discriminate.
  cbn [append last_char]. now destruct name.
Qed.

(** every per-tag and per-scenario log has a name ending in [l], every
    summary document a name ending in [n] *)
Lemma last_char_jsonl (dir name : string) :
  last_char (join dir (name ++ ".jsonl")) = Some "l"%char.
Proof.
  rewrite last_char_join by (destruct name; discriminate).
  now rewrite last_char_app by discriminate.
Qed.

Lemma jsonl_not_summary (dir name sessionDir : string) :
  join dir (name ++ ".jsonl") <> join sessionDir "summary.json".
Proof.
  intros E. apply (f_equal last_char) in E.
  rewrite last_char_jsonl, last_char_join in E by discriminate.
  discriminate.
Qed.

(** what one save does to the files *)
Lemma saveResults_files (options : SaveResultsOptions) (st : State) :
  exists sessionDir st' doc line,
    saveResults settings options st = (Ok sessionDir, st')
    /\ forall p,
         file_chunks (files st') p
         = (if bool_decide (p = join sessionDir "summary.json")
            then [doc] else file_chunks (files st) p)
           ++ replicate
                (lines_appended settings (save_tags options)
                   (save_scenarioId options) p) line.
Proof.
  unfold saveResults, bind at 1, generateTimestamp, bind at 1, Date_iso, ret.
  unfold bind at 1, writeFileSync at 1.
  unfold bind at 1.
  match goal with |- context [appendToJsonlLog settings ?sm ?tg ?sc ?s] =>
    destruct (appendToJsonlLog_appends sm tg sc s) as (st1 & E & F);
    rewrite E; set (line := json_line sm tg sc s) in *;
    set (summary := sm) in *
  end.
  unfold bind, log.
  eexists _, _, (JSON_stringify_summary summary), line.
  split; [reflexivity|].
  intros p. cbn [files]. rewrite F. cbn [files set_files].
  now rewrite file_chunks_write.
Qed.


End SaveLemmas.

(* ===================================================================== *)
(** * Batch scheduler: properties *)
(* ===================================================================== *)

Section BatchLemmas.
Context `{Collaborators}.
Variable args : BatchArgs.
Variable config : WebperfConfig.
Variable settings : UserSettings.

Lemma returns_saveResults options :
  returns (saveResults settings options) (fun _ => True).
Proof.
  intros st.
  destruct (saveResults_files settings options st)
    as (dir & st' & _ & _ & E & _).
  eauto.
Qed.

Lemma returns_runScenario_begin scenario :
  returns (runScenario_begin args settings scenario)
    (fun s => started_scenario s = scenario).
Proof.
  unfold runScenario_begin.
  eapply returns_bind; [apply returns_Date_iso|]. intros startedAt _.
  returns_log_step.
  now apply returns_ret.
Qed.

(** the two ways [runScenario] comes to its end *)
Lemma runScenario_settle_cases (s : Started) (b : BatchResult) (st : State) :
  (exists out st1 o st',
      runMeasurements (scenario_options s) config st = (Ok out, st1)
      /\ runScenario_settle config settings s b st
         = (Ok (record_success o b), st')
      /\ outcome_scenario o = started_scenario s
      /\ outcome_error o = None /\ is_Some (outcome_summary o))
  \/ (exists e st1 st',
        runMeasurements (scenario_options s) config st = (Throw e, st1)
        /\ runScenario_settle config settings s b st
           = (Ok (record_failure
                    (failed_outcome s e (toISOString (now st1))) b), st')).
Proof.
  unfold runScenario_settle, try_catch.
  destruct (runMeasurements (scenario_options s) config st)
    as [[out|e] st1] eqn:E.
  - left. rewrite (bind_Ok _ _ _ _ _ E).
    unfold bind at 1, Date_iso at 1.
    match goal with |- context [saveResults settings ?o] =>
      destruct (returns_saveResults o st1) as (dir & st2 & Es & _) end.
    rewrite (bind_Ok _ _ _ _ _ Es).
    unfold bind, log, ret.
    eexists out, st1, _, _. split; [reflexivity|].
    split; [reflexivity|]. cbn. eauto.
  - right. rewrite (bind_Throw _ _ _ _ _ E).
    unfold bind, Date_iso, log, ret. eauto.
Qed.

Lemma returns_runScenario_settle (s : Started) (b : BatchResult) :
  returns (runScenario_settle config settings s b)
    (one_more (started_scenario s) b).
Proof.
  intros st.
  destruct (runScenario_settle_cases s b st)
    as [(out & st1 & o & st' & _ & E & Ho & He & Hs)
       |(e & st1 & st' & _ & E)].
  - exists (record_success o b), st'. split; [exact E|].
    exists o. split; [exact Ho|]. left. auto.
  - eexists _, st'. split; [exact E|].
    exists (failed_outcome s e (toISOString (now st1))).
    split; [reflexivity|]. right.
    split; [reflexivity|]. cbn. eauto.
Qed.

Lemma accounted_one_more filtered queue running s b b' :
  accounted filtered queue (s :: running) b ->
  one_more (started_scenario s) b b' ->
  accounted filtered queue running b'.
Proof.
  intros (Ht & Hc & Hp & Hw) (o & Ho & Hcase).
  assert (Hperm : map outcome_scenario (results b ++ [o])
                  ++ map started_scenario running ++ queue ≡ₚ filtered).
  { rewrite <- Hp, map_app, <- app_assoc. cbn [map app]. now rewrite Ho. }
  assert (Hw' : Forall outcome_tagged (results b ++ [o])).
  { apply Forall_app. split; [exact Hw|]. constructor; [|constructor].
    destruct Hcase as [(_ & ? & ?)|(_ & ? & ?)]; [now left|now right]. }
  destruct Hcase as [(-> & _)|(-> & _)];
    unfold accounted, record_success, record_failure;
    cbn [totalScenarios completed failed results];
    (split; [exact Ht|split; [|split; [exact Hperm|exact Hw']]]);
    rewrite length_app; simpl; lia.
Qed.

Lemma accounted_running_perm filtered queue running running' b :
  running ≡ₚ running' ->
  accounted filtered queue running b -> accounted filtered queue running' b.
Proof.
  intros Hr (Ht & Hc & Hp & Hw). repeat split; auto. now rewrite <- Hr.
Qed.

Lemma splice_perm {A} (k : nat) (l : list A) (x : A) :
  l !! k = Some x -> l ≡ₚ x :: splice k l.
Proof.
  intros Hk. unfold splice.
  rewrite <- (take_drop_middle l k x Hk) at 1.
  now rewrite Permutation_middle.
Qed.

Lemma splice_length {A} (k : nat) (l : list A) (x : A) :
  l !! k = Some x -> S (length (splice k l)) = length l.
Proof.
  intros Hk. apply splice_perm in Hk. apply Permutation_length in Hk.
  simpl in Hk. lia.
Qed.

(** the sequential loop resolves the scenarios in their order *)
Lemma returns_run_sequential (scenarios : list TestScenario) : forall b,
  returns (run_sequential args config settings scenarios b)
    (fun b' =>
       totalScenarios b' = totalScenarios b
       /\ (completed b' + failed b'
           = completed b + failed b + length scenarios)%nat
       /\ exists outcomes,
            results b' = results b ++ outcomes
            /\ map outcome_scenario outcomes = scenarios
            /\ Forall outcome_tagged outcomes).
Proof.
  induction scenarios as [|sc rest IH]; intros b; simpl.
  - apply returns_ret. repeat split; try lia.
    exists []. now rewrite app_nil_r.
  - unfold runScenario.
    apply (returns_bind _ _ (one_more sc b)).
    { eapply returns_bind; [apply returns_runScenario_begin|].
      intros s Hs. simpl in Hs. subst sc.
      apply returns_runScenario_settle. }
    intros b1 (o & Ho & Hcase).
    eapply returns_weaken; [apply IH|].
    intros b' (Ht & Hc & outcomes & Hr & Hm & Hw).
    assert (Ho' : outcome_tagged o).
    { destruct Hcase as [(_ & ? & ?)|(_ & ? & ?)];
        [now left|now right]. }
    destruct Hcase as [(-> & _)|(-> & _)];
      unfold record_success, record_failure in *;
      cbn [totalScenarios completed failed results] in *;
      (split; [exact Ht|split; [lia|]]);
      exists (o :: outcomes); rewrite Hr, <- app_assoc;
      (split; [reflexivity|split; [now cbn [map]; rewrite Ho, Hm|]]);
      now constructor.
Qed.

End BatchLemmas.

Section PoolLemmas.
Context `{Collaborators}.
Variable args : BatchArgs.
Variable config : WebperfConfig.
Variable settings : UserSettings.
Variable filtered : list TestScenario.

Let accounted := accounted filtered.

(** admission moves scenarios from the queue to [running]; with a bound
    of at least 1 it leaves [running] empty only if the queue was *)
Lemma returns_start_queued concurrency queue : forall running b,
  accounted queue running b ->
  returns (start_queued args settings concurrency queue running)
    (fun qr =>
       accounted (fst qr) (snd qr) b
       /\ (length (fst qr) + length (snd qr)
           = length queue + length running)%nat
       /\ (1 <= concurrency -> snd qr = [] -> queue = [] /\ running = [])).
Proof.
  induction queue as [|sc queue IH]; intros running b Hacc; simpl.
  - apply returns_ret. cbn [fst snd]. split; [exact Hacc|].
    split; [reflexivity|]. intros _ Hr. now split.
  - destruct (Z.of_nat (length running) <? concurrency) eqn:Hlt.
    + eapply returns_bind; [apply returns_runScenario_begin|].
      intros s Hs.
      eapply returns_weaken.
      * apply (IH (running ++ [s]) b).
        destruct Hacc as (Ht & Hc & Hp & Hw). repeat split; auto.
        rewrite <- Hp, map_app, <- !app_assoc. cbn [map app].
        now rewrite Hs.
      * intros [q' r'] (Hacc' & Hlen & Hne). cbn [fst snd] in *.
        split; [exact Hacc'|]. split.
        { rewrite Hlen, length_app. simpl. lia. }
        intros Hc Hr. destruct (Hne Hc Hr) as (_ & Hr').
        destruct running; discriminate.
    + apply returns_ret. cbn [fst snd]. split; [exact Hacc|].
      split; [reflexivity|].
      intros Hc ->. apply Z.ltb_ge in Hlt. simpl in Hlt. lia.
Qed.

(** one resolution keeps the account and never lengthens [running] *)
Lemma returns_settle_at i queue running b :
  accounted queue running b ->
  returns (settle_at config settings i running b)
    (fun rb =>
       accounted queue (fst rb) (snd rb)
       /\ (length (fst rb) <= length running)%nat
       /\ (running <> [] -> (length (fst rb) < length running)%nat)).
Proof.
  intros Hacc. unfold settle_at.
  destruct (running !! (i mod length running)%nat) as [s|] eqn:Hk.
  - eapply returns_bind; [apply returns_runScenario_settle|].
    intros b' Hb'. apply returns_ret. cbn [fst snd].
    pose proof (splice_length _ _ _ Hk) as Hlen.
    split; [|lia].
    apply (accounted_one_more filtered queue _ s b b'); [|exact Hb'].
    eapply accounted_running_perm; [|exact Hacc].
    now apply splice_perm.
  - apply returns_ret. cbn [fst snd]. split; [exact Hacc|].
    split; [lia|]. intros Hne. exfalso.
    apply lookup_ge_None in Hk.
    assert (length running <> 0)%nat by (destruct running; simpl; congruence).
    pose proof (Nat.mod_upper_bound i (length running)). lia.
Qed.

Lemma returns_settle_more picks queue : forall running b,
  accounted queue running b ->
  returns (settle_more config settings picks running b)
    (fun rb =>
       accounted queue (fst rb) (snd rb)
       /\ (length (fst rb) <= length running)%nat).
Proof.
  induction picks as [|i picks IH]; intros running b Hacc; simpl.
  - apply returns_ret. cbn [fst snd]. split; [exact Hacc|lia].
  - eapply returns_bind; [now apply (returns_settle_at i queue)|].
    intros [r1 b1] (Hacc1 & Hlen1 & _). cbn [fst snd] in *.
    eapply returns_weaken; [now apply IH|].
    intros [r2 b2] (Hacc2 & Hlen2). cbn [fst snd] in *.
    split; [exact Hacc2|lia].
Qed.

(** a round of the race resolves at least one running scenario *)
Lemma returns_race picks queue running b :
  accounted queue running b -> running <> [] ->
  returns (race config settings picks running b)
    (fun rb =>
       accounted queue (fst rb) (snd rb)
       /\ (length (fst rb) < length running)%nat).
Proof.
  intros Hacc Hne. unfold race.
  eapply returns_bind; [now apply (returns_settle_at (fst picks) queue)|].
  intros [r1 b1] (Hacc1 & _ & Hlt). cbn [fst snd] in *.
  eapply returns_weaken; [now apply (returns_settle_more (snd picks) queue)|].
  intros [r2 b2] (Hacc2 & Hlen2). cbn [fst snd] in *.
  split; [exact Hacc2|]. specialize (Hlt Hne). lia.
Qed.

(** the pool never throws; when it stops, every scenario is resolved; with
    a bound of at least 1 it stops within one iteration per scenario *)
Lemma returns_run_pool concurrency sched fuel : forall round queue running b,
  accounted queue running b ->
  returns (run_pool args config settings fuel sched round concurrency
             queue running b)
    (fun r =>
       (forall b', r = Some b' -> accounted [] [] b')
       /\ (1 <= concurrency ->
           (length queue + length running < fuel)%nat ->
           exists b', r = Some b')).
Proof.
  induction fuel as [|fuel IH]; intros round queue running b Hacc.
  - apply returns_ret. split; [discriminate|]. intros _ Hlt. lia.
  - cbn [run_pool].
    assert (Hstep :
      returns
        (started <- start_queued args settings concurrency queue running;;
         let queue0 := fst started in
         let running0 := snd started in
         match running0 with
         | [] => run_pool args config settings fuel sched (S round)
                   concurrency queue0 running0 b
         | _ :: _ =>
             raced <- race config settings (sched round) running0 b;;
             run_pool args config settings fuel sched (S round)
               concurrency queue0 (fst raced) (snd raced)
         end)
        (fun r =>
           (forall b', r = Some b' -> accounted [] [] b')
           /\ (1 <= concurrency ->
               queue <> [] \/ running <> [] ->
               (length queue + length running < S fuel)%nat ->
               exists b', r = Some b'))).
    { eapply returns_bind; [apply (returns_start_queued concurrency queue running b Hacc)|].
      intros [q1 r1] (Hacc1 & Hlen1 & Hne1). cbn [fst snd] in *.
      destruct r1 as [|s r1].
      - eapply returns_weaken; [now apply IH|].
        intros r (Hsafe & Hlive). split; [exact Hsafe|].
        intros Hc Hnonempty Hlt.
        destruct (Hne1 Hc eq_refl) as (-> & ->).
        destruct Hnonempty; congruence.
      - eapply returns_bind;
          [apply (returns_race (sched round) q1 (s :: r1) b Hacc1);
           discriminate|].
        intros [r2 b2] (Hacc2 & Hlen2). cbn [fst snd] in *.
        eapply returns_weaken; [now apply IH|].
        intros r (Hsafe & Hlive). split; [exact Hsafe|].
        intros Hc _ Hlt. apply Hlive; [exact Hc|].
        simpl in *. lia. }
    destruct queue as [|sc queue]; [destruct running as [|s running]|].
    + apply returns_ret. split.
      * intros b' [= <-]. exact Hacc.
      * eauto.
    + eapply returns_weaken; [exact Hstep|].
      intros r (Hsafe & Hlive). split; [exact Hsafe|].
      intros Hc Hlt. apply Hlive; [exact Hc| |exact Hlt]. right. discriminate.
    + eapply returns_weaken; [exact Hstep|].
      intros r (Hsafe & Hlive). split; [exact Hsafe|].
      intros Hc Hlt. apply Hlive; [exact Hc| |exact Hlt]. left. discriminate.
Qed.

End PoolLemmas.

Section BatchTheorems.
Context `{Collaborators}.
Variable args : BatchArgs.
Variable config : WebperfConfig.
Variable settings : UserSettings.

Lemma accounted_finalize filtered d completedAt b :
  accounted filtered [] [] b ->
  accounted filtered [] [] (finalize d completedAt b).
Proof. intros Hacc. exact Hacc. Qed.

(** [run_batch] never throws.  When it finishes, every scenario of the
    batch has exactly one outcome, counted once; sequential execution
    keeps the order.  With a bound of at least 1 it finishes as soon as
    the fuel exceeds the number of scenarios. *)
Lemma returns_run_batch fuel sched filtered concurrency :
  returns (run_batch args config settings fuel sched filtered concurrency)
    (fun r =>
       (forall b, r = Some b ->
                  accounted filtered [] [] b
                  /\ (concurrency = 1 ->
                      map outcome_scenario (results b) = filtered))
       /\ (1 <= concurrency -> (length filtered < fuel)%nat ->
           exists b, r = Some b)).
Proof.
  unfold run_batch.
  eapply returns_bind; [apply returns_Date_iso|]. intros iso _.
  returns_log_step.
  returns_log_step.
  eapply returns_bind;
    [destruct (1 <? concurrency); apply returns_log|]. intros _ _.
  returns_log_step.
  eapply returns_bind; [apply returns_Date_now|]. intros startTime _.
  eapply returns_bind; [apply returns_Date_iso|]. intros startedAt _.
  set (b0 := {| batchId := _ |}).
  assert (Hacc0 : accounted filtered filtered [] b0).
  { repeat split; cbn; auto. }
  eapply returns_bind.
  - instantiate (1 := fun r =>
       (forall b, r = Some b ->
                  accounted filtered [] [] b
                  /\ (concurrency = 1 ->
                      map outcome_scenario (results b) = filtered))
       /\ (1 <= concurrency -> (length filtered < fuel)%nat ->
           exists b, r = Some b)).
    destruct (concurrency =? 1) eqn:Hc.
    + eapply returns_bind; [apply returns_run_sequential|].
      intros b (Ht & Hcount & outcomes & Hr & Hm & Hw).
      apply returns_ret. split; [|eauto].
      intros b' [= <-]. cbn in Hr, Hcount, Ht.
      split; [|intros _; now rewrite Hr].
      unfold accounted. rewrite Hr, Hm.
      split; [exact Ht|]. split; [|split; [|exact Hw]].
      * rewrite Hcount, <- Hm, length_map. reflexivity.
      * now rewrite !app_nil_r.
    + eapply returns_weaken;
        [apply (returns_run_pool args config settings filtered concurrency
                  sched fuel 0%nat filtered [] b0 Hacc0)|].
      intros r (Hsafe & Hlive). split.
      * intros b Hb. split; [now apply Hsafe|].
        intros ->. discriminate.
      * intros H1 Hlt. apply Hlive; [exact H1|]. simpl. lia.
  - intros [b|] (Hsafe & Hlive).
    + eapply returns_bind; [apply returns_Date_now|]. intros t _.
      eapply returns_bind; [apply returns_Date_iso|]. intros completedAt _.
      apply returns_ret. split; [|eauto].
      intros b' [= <-]. destruct (Hsafe b eq_refl) as (Hacc & Hseq).
      split; [now apply accounted_finalize|exact Hseq].
    + apply returns_ret. split; [discriminate|exact Hlive].
Qed.

(** C1.  Whatever the number of scenarios, the concurrency bound and the
    order in which running scenarios resolve, a batch that finishes has
    [completed + failed = totalScenarios = length results], and
    [totalScenarios] is the number of filtered scenarios.  With a bound
    of at least 1 the batch does finish. *)
Theorem batch_counts_add_up
    (filtered : list TestScenario) (concurrency : Z) (sched : Schedule) :
  (forall fuel st b st',
      run_batch args config settings fuel sched filtered concurrency st
      = (Ok (Some b), st') ->
      (completed b + failed b)%nat = totalScenarios b
      /\ totalScenarios b = length (results b)
      /\ totalScenarios b = length filtered)
  /\ (1 <= concurrency ->
      forall fuel st, (length filtered < fuel)%nat ->
      exists b st',
        run_batch args config settings fuel sched filtered concurrency st
        = (Ok (Some b), st')).
Proof.
  split.
  - intros fuel st b st' E.
    destruct (returns_run_batch fuel sched filtered concurrency st)
      as (r & st1 & E1 & Hsafe & _).
    rewrite E in E1. injection E1 as <- <-.
    destruct (Hsafe b eq_refl) as ((Ht & Hc & Hp & _) & _).
    apply Permutation_length in Hp.
    rewrite !app_nil_r, length_map in Hp. lia.
  - intros Hc fuel st Hlt.
    destruct (returns_run_batch fuel sched filtered concurrency st)
      as (r & st1 & E1 & _ & Hlive).
    destruct (Hlive Hc Hlt) as (b & ->). eauto.
Qed.


(** With a bound below 1 and a scenario to run, the pool admits nothing and
    spins for ever: no amount of fuel lets it finish. *)
Lemma run_pool_spins concurrency sched fuel : forall round sc queue b st,
  concurrency <= 0 ->
  run_pool args config settings fuel sched round concurrency (sc :: queue)
    [] b st = (Ok None, st).
Proof.
  induction fuel as [|fuel IH]; intros round sc queue b st Hc;
    [reflexivity|].
  cbn [run_pool start_queued length].
  assert (E : (Z.of_nat 0 <? concurrency) = false) by (apply Z.ltb_ge; simpl; lia).
  cbn [length] in *. rewrite E. unfold bind at 1, ret at 1. cbn [fst snd].
  now apply IH.
Qed.

End BatchTheorems.

(* ===================================================================== *)
(** * Strings: further properties                                         *)
(* ===================================================================== *)

Lemma length_append (a b : string) :
  String.length (a ++ b) = (String.length a + String.length b)%nat.
Proof.
  induction a as [|c a IH]; [reflexivity|].
  change (S (String.length (a ++ b))
          = S (String.length a + String.length b)%nat).
  now f_equal.
Qed.

Lemma substring_all (b : string) :
  String.substring 0 (String.length b) b = b.
Proof. induction b as [|d b IH]; simpl; [reflexivity|now rewrite IH]. Qed.

Lemma substring_append_r (a b : string) :
  String.substring (String.length a) (String.length b) (a ++ b) = b.
Proof.
  induction a as [|c a IH]; [apply substring_all|exact IH].
Qed.

Lemma prefix_refl_append (a b : string) : String.prefix a (a ++ b) = true.
Proof.
  induction a as [|c a IH]; simpl; [now destruct b|].
  destruct (ascii_dec c c); [exact IH|congruence].
Qed.

Lemma includes_append_r (a b sub : string) :
  includes b sub = true -> includes (a ++ b) sub = true.
Proof.
  intros Hb. induction a as [|c a IH]; [exact Hb|].
  change (String c a ++ b)%string with (String c (a ++ b)).
  cbn [includes]. rewrite IH. now destruct (String.prefix sub _).
Qed.

Lemma includes_prefix (s sub : string) :
  String.prefix sub s = true -> includes s sub = true.
Proof. intros Hp. destruct s; simpl in *; now rewrite Hp. Qed.

Lemma includes_join (dir name : string) : includes (join dir name) "/" = true.
Proof.
  unfold join. apply includes_append_r. apply includes_prefix.
  apply (prefix_refl_append "/" name).
Qed.

Lemma endsWith_append (a b : string) : endsWith (a ++ b) b = true.
Proof.
  unfold endsWith. rewrite length_append.
  replace (String.length a + String.length b - String.length b)%nat
    with (String.length a) by lia.
  rewrite substring_append_r, String.eqb_refl.
  rewrite andb_true_r. apply Nat.leb_le. lia.
Qed.

Lemma append_assoc (a b c : string) : ((a ++ b) ++ c = a ++ (b ++ c))%string.
Proof.
  induction a as [|x a IH]; [reflexivity|].
  change (String x ((a ++ b) ++ c) = String x (a ++ (b ++ c)))%string.
  now f_equal.
Qed.

Lemma endsWith_summary_json (dir : string) :
  endsWith (join dir "summary.json") ".json" = true.
Proof.
  unfold join.
  change "summary.json" with ("summary" ++ ".json")%string.
  rewrite <- !append_assoc. apply endsWith_append.
Qed.

Lemma string_forall_map (p : ascii -> bool) (f : ascii -> ascii) (s : string) :
  (forall c, p (f c) = true) -> string_forall p (map_string f s) = true.
Proof.
  intros Hf. induction s as [|c s IH]; simpl; [reflexivity|].
  now rewrite Hf, IH.
Qed.

Lemma map_string_id (p : ascii -> bool) (f : ascii -> ascii) (s : string) :
  (forall c, p c = true -> f c = c) ->
  string_forall p s = true -> map_string f s = s.
Proof.
  intros Hf. induction s as [|c s IH]; simpl; [reflexivity|].
  intros Hs. apply andb_prop in Hs. destruct Hs as [Hc Hs].
  now rewrite (Hf c Hc), IH.
Qed.

Lemma map_string_length (f : ascii -> ascii) (s : string) :
  String.length (map_string f s) = String.length s.
Proof. induction s as [|c s IH]; simpl; [reflexivity|now rewrite IH]. Qed.

Lemma map_string_compose (f g : ascii -> ascii) (s : string) :
  map_string f (map_string g s) = map_string (fun c => f (g c)) s.
Proof. induction s as [|c s IH]; simpl; [reflexivity|now rewrite IH]. Qed.

Lemma string_forall_includes (p : ascii -> bool) (c : ascii) (s : string) :
  p c = false -> string_forall p s = true ->
  includes s (String c EmptyString) = false.
Proof.
  intros Hc. induction s as [|d s IH]; simpl; [reflexivity|].
  intros Hs. apply andb_prop in Hs. destruct Hs as [Hd Hs].
  destruct (ascii_dec c d) as [->|Hne]; [congruence|].
  now apply IH.
Qed.

Lemma safe_after_sanitize (c : ascii) :
  is_safe_char (lower_char (safe_char c)) = true.
Proof. destruct c as [[] [] [] [] [] [] [] []]; reflexivity. Qed.

Lemma sanitize_fixes_safe (c : ascii) :
  is_safe_char c = true -> lower_char (safe_char c) = c.
Proof.
  destruct c as [[] [] [] [] [] [] [] []]; intros Hc;
    first [reflexivity | discriminate Hc].
Qed.

(** X1.  [sanitize] gives a name of the same length made of lower-case
    letters, digits, dashes and underscores only, so a name with no slash,
    backslash or dot; it leaves such a name as it is, and applying it twice
    changes nothing more. *)
Theorem sanitize_safe_name (name : string) :
  string_forall is_safe_char (sanitize name) = true
  /\ String.length (sanitize name) = String.length name
  /\ includes (sanitize name) "/" = false
  /\ includes (sanitize name) backslash = false
  /\ includes (sanitize name) "." = false
  /\ (string_forall is_safe_char name = true -> sanitize name = name)
  /\ sanitize (sanitize name) = sanitize name.
Proof.
  assert (Hsafe : forall s, string_forall is_safe_char (sanitize s) = true).
  { intros s. unfold sanitize. rewrite map_string_compose.
    apply string_forall_map. apply safe_after_sanitize. }
  assert (Hid : forall s, string_forall is_safe_char s = true ->
                          sanitize s = s).
  { intros s Hs. unfold sanitize. rewrite map_string_compose.
    apply (map_string_id is_safe_char); [apply sanitize_fixes_safe|exact Hs]. }
  split; [apply Hsafe|].
  split; [unfold sanitize; now rewrite !map_string_length|].
  split; [apply (string_forall_includes is_safe_char); [reflexivity|apply Hsafe]|].
  split; [apply (string_forall_includes is_safe_char); [reflexivity|apply Hsafe]|].
  split; [apply (string_forall_includes is_safe_char); [reflexivity|apply Hsafe]|].
  split; [apply Hid|].
  apply Hid, Hsafe.
Qed.

(* ===================================================================== *)
(** * Result log: loading, comparing, batch entries                       *)
(* ===================================================================== *)

Section LoadLemmas.
Context `{Collaborators}.
Variable settings : UserSettings.

(** [loadSummary], in one step *)
Lemma loadSummary_eq (pathOrTimestamp : string) (st : State) :
  loadSummary settings pathOrTimestamp st
  = (Ok match files st !! resolved_summary_path settings pathOrTimestamp with
        | Some chunks => JSON_parse_summary (String.concat EmptyString chunks)
        | None => None
        end, st).
Proof.
  unfold loadSummary. fold (resolved_summary_path settings pathOrTimestamp).
  set (path := resolved_summary_path settings pathOrTimestamp).
  unfold try_catch, bind at 1, existsSync.
  destruct (files st !! path) as [chunks|] eqn:E.
  - rewrite bool_decide_eq_true_2 by eauto.
    unfold bind, readFileSync. rewrite E.
    now destruct (JSON_parse_summary _).
  - rewrite bool_decide_eq_false_2; [reflexivity|].
    intros [x Hx]. discriminate.
Qed.


(** X3.  A summary saved by [saveResults] is read back by [loadSummary],
    from the path of its document and from the session directory that
    [saveResults] returns, provided [JSON.parse] reads the document that
    [JSON.stringify] wrote and the global log is not itself a file named
    [summary.json]. *)
Theorem save_then_load (options : SaveResultsOptions) (st : State) :
  let summary := summary_of_options options (stamp_of st) in
  parses_back summary ->
  endsWith (jsonlLogPath settings) "/summary.json" = false ->
  exists sessionDir st',
    saveResults settings options st = (Ok sessionDir, st')
    /\ loadSummary settings (join sessionDir "summary.json") st'
       = (Ok (Some summary), st')
    /\ (endsWith sessionDir ".json" = false ->
        loadSummary settings sessionDir st' = (Ok (Some summary), st')).
Proof.
  intros summary Hparse Hlog.
  unfold saveResults, bind at 1, generateTimestamp, bind at 1, Date_iso, ret.
  fold (stamp_of st). fold summary.
  unfold bind at 1, writeFileSync at 1.
  unfold bind at 1.
  match goal with |- context [appendToJsonlLog settings ?sm ?tg ?sc ?s] =>
    destruct (appendToJsonlLog_appends settings sm tg sc s) as (st1 & E & F);
    rewrite E
  end.
  unfold bind, log.
  match type of F with context [join ?d "summary.json"] =>
    set (sessionDir := d) in * end.
  eexists sessionDir, _. split; [reflexivity|].
  assert (Hnot : forall p, In p (log_paths settings (save_tags options)
                                   (save_scenarioId options)) ->
                           p <> join sessionDir "summary.json").
  { intros p [<-|Hin] Hp.
    - rewrite Hp in Hlog. unfold join in Hlog.
      now rewrite endsWith_append in Hlog.
    - apply in_app_or in Hin. destruct Hin as [Hin|Hin].
      + apply in_map_iff in Hin. destruct Hin as (t & <- & _).
        now apply jsonl_not_summary in Hp.
      + destruct (save_scenarioId options) as [id|]; [|destruct Hin].
        destruct (nonempty id); [|destruct Hin].
        destruct Hin as [<-|[]]. now apply jsonl_not_summary in Hp. }
  assert (Hdoc : files st1 !! join sessionDir "summary.json"
                 = Some [JSON_stringify_summary summary]).
  { pose proof (F (join sessionDir "summary.json")) as Hf.
    cbn [files set_files] in Hf. rewrite file_chunks_write in Hf.
    rewrite bool_decide_eq_true_2 in Hf by reflexivity.
    unfold lines_appended in Hf.
    rewrite (proj1 (count_occ_not_In string_dec _ _)
               (fun Hin => Hnot _ Hin eq_refl)) in Hf.
    simpl in Hf. unfold file_chunks in Hf.
    destruct (files st1 !! join sessionDir "summary.json") as [chunks|] eqn:Ef.
    - simpl in Hf. now subst.
    - discriminate. }
  assert (Hload : forall p,
             resolved_summary_path settings p = join sessionDir "summary.json" ->
             forall st2, files st2 = files st1 ->
             loadSummary settings p st2 = (Ok (Some summary), st2)).
  { intros p Hp st2 Hf. rewrite loadSummary_eq, Hp, Hf, Hdoc.
    cbn [String.concat]. now rewrite Hparse. }
  split.
  - apply Hload; [|reflexivity].
    unfold resolved_summary_path.
    now rewrite includes_join, endsWith_summary_json.
  - intros Hend. apply Hload; [|reflexivity].
    unfold resolved_summary_path. unfold sessionDir at 1 2.
    rewrite includes_join. cbn [negb andb]. fold sessionDir.
    now rewrite Hend.
Qed.


End LoadLemmas.

(* ===================================================================== *)
(** * Result log: stamps, session directories, batch entries              *)
(* ===================================================================== *)

Lemma string_forall_substring (p : ascii -> bool) (s : string) :
  forall n m, string_forall p s = true ->
              string_forall p (String.substring n m s) = true.
Proof.
  induction s as [|c s IH]; intros n m Hs.
  - now destruct n, m.
  - simpl in Hs. apply andb_prop in Hs. destruct Hs as [Hc Hs].
    destruct n as [|n]; [destruct m as [|m]|]; simpl; [reflexivity| |].
    + rewrite Hc. now apply IH.
    + now apply IH.
Qed.

Lemma substring_length_le (s : string) :
  forall n m, (String.length (String.substring n m s) <= m)%nat.
Proof.
  induction s as [|c s IH]; intros n m.
  - destruct n, m; simpl; lia.
  - destruct n as [|n]; [destruct m as [|m]|]; simpl; [lia| |apply IH].
    specialize (IH 0%nat m). lia.
Qed.

Lemma substring_length_prefix (s : string) :
  forall m, (m <= String.length s)%nat ->
            String.length (String.substring 0 m s) = m.
Proof.
  induction s as [|c s IH]; intros m Hm.
  - simpl in Hm. now replace m with 0%nat by lia.
  - destruct m as [|m]; simpl; [reflexivity|].
    simpl in Hm. rewrite IH; lia.
Qed.

Lemma stamp_char_ok (c : ascii) : is_stamp_char (stamp_char c) = true.
Proof.
  unfold is_stamp_char, stamp_char.
  destruct (Ascii.eqb c ":") eqn:E1; [reflexivity|].
  destruct (Ascii.eqb c ".") eqn:E2; [reflexivity|].
  simpl. now rewrite E1, E2.
Qed.

Section StampLemmas.
Context `{Collaborators}.
Variable settings : UserSettings.

(** X5.  [generateTimestamp] changes nothing and gives at most 19
    characters, none of them a colon or a dot; it gives exactly 19 when the
    ISO form of the date has that many, and the same stamp for two dates
    whose ISO forms agree on their first 19 characters. *)
Theorem generateTimestamp_shape (st : State) :
  exists stamp,
    generateTimestamp st = (Ok stamp, st)
    /\ (String.length stamp <= 19)%nat
    /\ includes stamp ":" = false
    /\ includes stamp "." = false
    /\ ((19 <= String.length (toISOString (now st)))%nat ->
        String.length stamp = 19%nat)
    /\ (forall st2 stamp2,
          String.substring 0 19 (toISOString (now st2))
          = String.substring 0 19 (toISOString (now st)) ->
          generateTimestamp st2 = (Ok stamp2, st2) -> stamp2 = stamp).
Proof.
  exists (stamp_of st). split; [reflexivity|].
  assert (Hok : string_forall is_stamp_char (stamp_of st) = true).
  { unfold stamp_of. apply string_forall_substring.
    apply string_forall_map. apply stamp_char_ok. }
  split; [apply substring_length_le|].
  split; [now apply (string_forall_includes is_stamp_char)|].
  split; [now apply (string_forall_includes is_stamp_char)|].
  split.
  - intros Hlen. unfold stamp_of. apply substring_length_prefix.
    now rewrite map_string_length.
  - intros st2 stamp2 Hiso [= <-]. unfold stamp_of.
    assert (Hmap : forall s n,
               String.substring 0 n (map_string stamp_char s)
               = map_string stamp_char (String.substring 0 n s)).
    { induction s as [|c s IH]; intros [|n]; simpl; try reflexivity.
      now rewrite IH. }
    now rewrite !Hmap, Hiso.
Qed.

(** the loop over the tags, for any naming of the per-tag file *)
Lemma path_loop_appends (path_of : string -> string) (line : string)
    (tags : list string) : forall st,
  exists st',
    for_each tags (fun tag =>
      appendFileSync (path_of tag) line;;;
      log ("  → " ++ path_of tag)) st = (Ok tt, st')
    /\ pidFile st' = pidFile st /\ world st' = world st /\ now st' = now st
    /\ console st' = console st ++ map (fun tag => "  → " ++ path_of tag)%string tags
    /\ forall p,
         file_chunks (files st') p
         = file_chunks (files st) p
           ++ replicate (count_occ string_dec (map path_of tags) p) line.
Proof.
  induction tags as [|tag tags IH]; intros st.
  - exists st. split; [reflexivity|]. repeat split.
    + simpl. now rewrite app_nil_r.
    + intros p. simpl. now rewrite app_nil_r.
  - cbn [for_each]. unfold bind at 1. unfold bind at 1.
    unfold appendFileSync at 1, log at 1. cbn [files set_files].
    match goal with |- context [for_each _ _ ?s] =>
      destruct (IH s) as (st' & E & Hp & Hw & Hn & Hc & F) end.
    exists st'. split; [exact E|].
    split; [exact Hp|]. split; [exact Hw|]. split; [exact Hn|].
    split.
    + rewrite Hc. cbn [console map]. now rewrite <- app_assoc.
    + intros p. rewrite F. cbn [files].
      rewrite file_chunks_append, <- app_assoc. f_equal.
      cbn [map count_occ].
      destruct (string_dec (path_of tag) p) as [->|Hne].
      * rewrite bool_decide_eq_true_2 by reflexivity. reflexivity.
      * rewrite bool_decide_eq_false_2 by congruence. reflexivity.
Qed.


End StampLemmas.

(** a pattern that starts with a character it does not hold again cannot
    start inside [a] and run into a copy of itself that follows [a] *)
Lemma prefix_not_across (d : ascii) (q a r : string) :
  string_forall (fun c => negb (Ascii.eqb c d)) q = true ->
  String.prefix q a = false ->
  String.prefix q (a ++ String d r) = false.
Proof.
  revert a. induction q as [|x q IH]; intros a Hq Hp.
  - now destruct a.
  - simpl in Hq. apply andb_prop in Hq. destruct Hq as [Hx Hq].
    destruct a as [|y a]; simpl.
    + destruct (ascii_dec x d) as [->|Hne]; [|reflexivity].
      now rewrite Ascii.eqb_refl in Hx.
    + simpl in Hp. destruct (ascii_dec x y); [now apply IH|reflexivity].
Qed.

Lemma replace_first_absent (s pat by_ : string) :
  includes s pat = false -> replace_first s pat by_ = s.
Proof.
  induction s as [|c s IH]; intros Hs.
  - cbn [replace_first]. cbn [includes] in Hs.
    destruct (String.prefix pat EmptyString); [discriminate|reflexivity].
  - cbn [replace_first]. cbn [includes] in Hs.
    destruct (String.prefix pat (String c s)); [discriminate|].
    now rewrite IH.
Qed.

Lemma replace_first_at (d : ascii) (q by_ a r : string) :
  string_forall (fun c => negb (Ascii.eqb c d)) q = true ->
  includes a (String d q) = false ->
  replace_first (a ++ String d q ++ r) (String d q) by_ = (a ++ by_ ++ r)%string.
Proof.
  intros Hq. induction a as [|c a IH]; intros Ha.
  - change (EmptyString ++ String d q ++ r)%string with (String d q ++ r)%string.
    change (EmptyString ++ by_ ++ r)%string with (by_ ++ r)%string.
    destruct (String d q ++ r)%string eqn:E; [discriminate|].
    cbn [replace_first]. rewrite <- E, prefix_refl_append.
    f_equal. rewrite length_append.
    replace (String.length (String d q) + String.length r
             - String.length (String d q))%nat
      with (String.length r) by lia.
    apply substring_append_r.
  - change (String c a ++ String d q ++ r)%string
      with (String c (a ++ String d q ++ r)).
    cbn [replace_first]. cbn [includes] in Ha.
    destruct (String.prefix (String d q) (String c a)) eqn:Hp;
      [discriminate|].
    assert (Hno : String.prefix (String d q)
                    (String c (a ++ String d q ++ r)) = false).
    { simpl. simpl in Hp. destruct (ascii_dec d c); [|reflexivity].
      change (String d q ++ r)%string with (String d (q ++ r)).
      now apply prefix_not_across. }
    rewrite Hno. rewrite IH by exact Ha. reflexivity.
Qed.

(** X7.  The batch log is the measurements log with its first [.jsonl]
    turned into [.batch.jsonl], wherever that is in the path; a
    measurements log whose path holds no [.jsonl] is itself the batch log,
    so batch entries and measurement entries then share one file. *)
Theorem batch_log_path_cases (settings : UserSettings) :
  (includes (jsonlLogPath settings) ".jsonl" = false ->
   batch_log_path settings = jsonlLogPath settings)
  /\ (forall stem rest,
        jsonlLogPath settings = (stem ++ ".jsonl" ++ rest)%string ->
        includes stem ".jsonl" = false ->
        batch_log_path settings = (stem ++ ".batch.jsonl" ++ rest)%string).
Proof.
  split.
  - apply replace_first_absent.
  - intros stem rest E Hstem. unfold batch_log_path. rewrite E.
    now apply (replace_first_at "." "jsonl").
Qed.

Lemma ltb_irrefl (a : number) : JS.ltb a a = false.
Proof.
  destruct a as [| |q|]; try reflexivity.
  unfold JS.ltb. now rewrite (proj1 (Qceq_alt q q) eq_refl).
Qed.

Lemma ltb_asym (a b : number) : JS.ltb a b = true -> JS.ltb b a = false.
Proof.
  destruct a as [| |x|], b as [| |y|]; try reflexivity; try discriminate.
  unfold JS.ltb. destruct (x ?= y)%Qc eqn:E; try discriminate. intros _.
  apply Qclt_alt in E. apply Qclt_not_le in E.
  destruct (y ?= x)%Qc eqn:E2; try reflexivity.
  exfalso. apply E. apply Qclt_le_weak. now apply Qclt_alt.
Qed.

Lemma sub_self (q : Qc) : JS.sub (JS.Fin q) (JS.Fin q) = JS.zero.
Proof.
  unfold JS.sub, JS.neg, JS.add. rewrite Qcplus_opp_r.
  unfold JS.zero, JS.of_Z. f_equal. now apply Qc_is_canon.
Qed.

(** X8.  A comparison never reports an improvement both ways: a metric
    that improved from the first session to the second did not improve
    from the second to the first, and the rows of the two directions pair
    up, metric by metric, with before and after exchanged.  A session
    compared with itself shows no improvement and, where its average is
    finite, no difference. *)
Theorem comparisons_direction (s1 s2 : MeasurementSummary) :
  Forall2 (fun c c' =>
             metric c' = metric c
             /\ before c' = after c /\ after c' = before c
             /\ (improved c = true -> improved c' = false))
    (comparisons s1 s2) (comparisons s2 s1)
  /\ Forall (fun c =>
               improved c = false
               /\ forall q, before c = JS.Fin q -> diff c = JS.zero)
       (comparisons s1 s1).
Proof.
  unfold comparisons, compare_metric. split.
  - repeat constructor; cbn [improved]; unfold JS.gtb; apply ltb_asym.
  - repeat constructor; cbn [improved before diff]; unfold JS.gtb;
      first [apply ltb_irrefl | intros q ->; apply sub_self].
Qed.

(* ===================================================================== *)
(** * What a computation leaves alone                                     *)
(* ===================================================================== *)

Ltac split_all := repeat match goal with |- _ /\ _ => split end.

Ltac frame_done :=
  unfold same_files, same_registry, same_world, same_clock, same_console,
    clock_forward, console_grows;
  cbn [files pidFile world now console set_files set_pidFile];
  first [ reflexivity | lia | now exists [] ; rewrite app_nil_r
        | now eexists ].

Section Frames.
Context `{Collaborators}.

#[global] Instance same_files_refl : Reflexive same_files.
Proof. now intros st. Qed.
#[global] Instance same_files_trans : Transitive same_files.
Proof. unfold same_files. intros a b c H1 H2. congruence. Qed.
#[global] Instance same_registry_refl : Reflexive same_registry.
Proof. now intros st. Qed.
#[global] Instance same_registry_trans : Transitive same_registry.
Proof. unfold same_registry. intros a b c H1 H2. congruence. Qed.
#[global] Instance same_world_refl : Reflexive same_world.
Proof. now intros st. Qed.
#[global] Instance same_world_trans : Transitive same_world.
Proof. unfold same_world. intros a b c H1 H2. congruence. Qed.
#[global] Instance same_clock_refl : Reflexive same_clock.
Proof. now intros st. Qed.
#[global] Instance same_clock_trans : Transitive same_clock.
Proof. unfold same_clock. intros a b c H1 H2. congruence. Qed.
#[global] Instance same_console_refl : Reflexive same_console.
Proof. now intros st. Qed.
#[global] Instance same_console_trans : Transitive same_console.
Proof. unfold same_console. intros a b c H1 H2. congruence. Qed.
#[global] Instance console_grows_refl : Reflexive console_grows.
Proof. intros st. exists []. now rewrite app_nil_r. Qed.
#[global] Instance console_grows_trans : Transitive console_grows.
Proof.
  intros a b c [l1 H1] [l2 H2]. exists (l1 ++ l2).
  now rewrite H2, H1, app_assoc.
Qed.
#[global] Instance clock_forward_refl : Reflexive clock_forward.
Proof. intros st. unfold clock_forward. lia. Qed.
#[global] Instance clock_forward_trans : Transitive clock_forward.
Proof. unfold clock_forward. intros a b c H1 H2. lia. Qed.

Section Generic.
Variable R : State -> State -> Prop.
Context {R_refl : Reflexive R} {R_trans : Transitive R}.

Lemma preserves_ret {A} (a : A) : preserves R (ret a).
Proof. intros st r st' [= _ <-]. reflexivity. Qed.

Lemma preserves_bind {A B} (m : M A) (k : A -> M B) :
  preserves R m -> (forall a, preserves R (k a)) -> preserves R (bind m k).
Proof.
  intros Hm Hk st r st' E. unfold bind in E.
  destruct (m st) as [[a|e] st1] eqn:E1.
  - transitivity st1; [exact (Hm _ _ _ E1)|exact (Hk _ _ _ _ E)].
  - injection E as _ <-. exact (Hm _ _ _ E1).
Qed.

Lemma preserves_try_catch {A} (body : M A) (handler : Error -> M A) :
  preserves R body -> (forall e, preserves R (handler e)) ->
  preserves R (try_catch body handler).
Proof.
  intros Hm Hk st r st' E. unfold try_catch in E.
  destruct (body st) as [[a|e] st1] eqn:E1.
  - injection E as _ <-. exact (Hm _ _ _ E1).
  - transitivity st1; [exact (Hm _ _ _ E1)|exact (Hk _ _ _ _ E)].
Qed.

Lemma preserves_try_finally {A} (body : M A) (fin : M unit) :
  preserves R body -> preserves R fin -> preserves R (try_finally body fin).
Proof.
  intros Hm Hf st r st' E. unfold try_finally in E.
  destruct (body st) as [r1 st1] eqn:E1.
  destruct (fin st1) as [[u|e] st2] eqn:E2; injection E as _ <-;
    (transitivity st1; [exact (Hm _ _ _ E1)|exact (Hf _ _ _ E2)]).
Qed.

Lemma preserves_for_each {A} (l : list A) (body : A -> M unit) :
  (forall x, preserves R (body x)) -> preserves R (for_each l body).
Proof.
  intros Hb. induction l as [|x l IH]; cbn [for_each].
  - apply preserves_ret.
  - apply preserves_bind; [apply Hb|intros _; exact IH].
Qed.

End Generic.

(** what a line printed leaves alone *)
Lemma log_frame line :
  preserves same_files (log line) /\ preserves same_registry (log line)
  /\ preserves same_world (log line) /\ preserves same_clock (log line)
  /\ preserves console_grows (log line)
  /\ preserves clock_forward (log line).
Proof.
  unfold preserves, log. split_all; intros st r st' [= _ <-]; frame_done.
Qed.

End Frames.

(** a step of the program that is one of the primitives of the monad, of
    the file system or of the registry *)
Ltac frame_prim :=
  let st := fresh "st" in
  let r := fresh "r" in
  let st' := fresh "st'" in
  let E := fresh "E" in
  intros st r st' E;
  unfold log, sleep, call, Date_now, Date_iso, appendFileSync, writeFileSync,
    existsSync, readFileSync, savePids, loadPids, clearPids, ret, throw in E;
  cbv beta in E;
  repeat match type of E with
         | context [match ?x with _ => _ end] => destruct x
         end;
  injection E as _ <-; frame_done.

Create HintDb frames discriminated.

Ltac frame_step :=
  first
    [ solve [auto 1 with frames nocore]
    | apply preserves_bind; try exact _; [|intros ?]
    | apply preserves_try_catch; try exact _; [|intros ?]
    | apply preserves_try_finally; try exact _
    | apply preserves_for_each; try exact _; intros ?
    | match goal with
      | |- preserves _ (match ?x with _ => _ end) => destruct x
      end
    | solve [frame_prim] ].

Ltac frame := repeat frame_step.

Section LookupFrames.
Context `{Collaborators}.

Lemma isPortInUse_frame port :
  preserves same_files (isPortInUse port)
  /\ preserves same_registry (isPortInUse port)
  /\ preserves same_clock (isPortInUse port)
  /\ preserves same_console (isPortInUse port).
Proof. unfold isPortInUse. split_all; frame. Qed.

Lemma getProcessOnPort_frame port :
  preserves same_files (getProcessOnPort port)
  /\ preserves same_registry (getProcessOnPort port)
  /\ preserves same_clock (getProcessOnPort port)
  /\ preserves same_console (getProcessOnPort port).
Proof. unfold getProcessOnPort. split_all; frame. Qed.

Lemma killProcess_frame pid :
  preserves same_files (killProcess pid)
  /\ preserves same_registry (killProcess pid)
  /\ preserves same_clock (killProcess pid)
  /\ preserves same_console (killProcess pid).
Proof. unfold killProcess. split_all; frame. Qed.

End LookupFrames.

#[global] Hint Extern 1 (preserves _ (isPortInUse _)) =>
  apply isPortInUse_frame : frames.
#[global] Hint Extern 1 (preserves _ (getProcessOnPort _)) =>
  apply getProcessOnPort_frame : frames.
#[global] Hint Extern 1 (preserves _ (killProcess _)) =>
  apply killProcess_frame : frames.

Section TeardownFrames.
Context `{Collaborators}.

Lemma stopAll_ports_frame allPorts :
  preserves same_files (stopAll_ports allPorts)
  /\ preserves same_registry (stopAll_ports allPorts)
  /\ preserves same_clock (stopAll_ports allPorts).
Proof.
  unfold stopAll_ports. split_all; frame.
Qed.

End TeardownFrames.

#[global] Hint Extern 1 (preserves _ (stopAll_ports _)) =>
  apply stopAll_ports_frame : frames.

(* ===================================================================== *)
(** * Measurement runner: what a measurement touches, closing, pauses     *)
(* ===================================================================== *)

Section RunnerExtras.
Context `{Collaborators}.

Lemma run_loop_frame url runs n : forall i acc,
  preserves same_files (run_loop n url i runs acc)
  /\ preserves same_registry (run_loop n url i runs acc)
  /\ preserves console_grows (run_loop n url i runs acc)
  /\ preserves clock_forward (run_loop n url i runs acc).
Proof.
  induction n as [|n IH]; intros i acc; cbn [run_loop].
  - split_all; frame.
  - unfold runSingleMeasurement.
    split_all; frame; apply IH.
Qed.

Lemma runMeasurements_frame (options : MeasureOptions)
    (config : WebperfConfig) :
  preserves same_files (runMeasurements options config)
  /\ preserves same_registry (runMeasurements options config)
  /\ preserves console_grows (runMeasurements options config)
  /\ preserves clock_forward (runMeasurements options config).
Proof.
  unfold runMeasurements, applyCustomOverrides.
  split_all; frame; apply run_loop_frame.
Qed.

(** X9.  Whatever happens during a measurement, also when it throws,
    [runMeasurements] writes no file and leaves the registry of started
    processes alone; nothing printed is taken back and the clock does not
    go back. *)
Theorem runMeasurements_leaves_disk (options : MeasureOptions)
    (config : WebperfConfig) :
  preserves same_files (runMeasurements options config)
  /\ preserves same_registry (runMeasurements options config)
  /\ preserves console_grows (runMeasurements options config)
  /\ preserves clock_forward (runMeasurements options config).
Proof. apply runMeasurements_frame. Qed.

(** what a [finally] block made of one call does *)
Lemma try_finally_call {A} (body : M A) (op : World -> Result unit * World)
    (st : State) :
  let r1 := fst (body st) in
  let st1 := snd (body st) in
  world (snd (try_finally body (call op) st)) = snd (op (world st1))
  /\ fst (try_finally body (call op) st)
     = match fst (op (world st1)) with
       | Ok _ => r1
       | Throw e => Throw e
       end.
Proof.
  unfold try_finally. destruct (body st) as [r1 st1] eqn:E1.
  unfold call. cbn [fst snd].
  destruct (op (world st1)) as [[b|e] w] eqn:Eop; now split.
Qed.

Lemma bind_log {A} (line : string) (k : unit -> M A) (st : State) :
  bind (log line) k st
  = k tt {| world := world st; now := now st; files := files st;
            pidFile := pidFile st; console := console st ++ [line] |}.
Proof. reflexivity. Qed.

(** X10.  A browser that was launched is closed: when the launch succeeds,
    the last thing [runMeasurements] does to the world is the call of
    [browser.close], whether the measurement returned or threw, and a
    failure of that call is what [runMeasurements] throws.  When the launch
    fails, its error is thrown and nothing else is attempted. *)
Theorem runMeasurements_closes_browser (options : MeasureOptions)
    (config : WebperfConfig) (st : State) :
  let run := runMeasurements options config st in
  match fst (puppeteer_launch (world st)) with
  | Throw e =>
      fst run = Throw e
      /\ world (snd run) = snd (puppeteer_launch (world st))
  | Ok _ =>
      exists w,
        world (snd run) = snd (browser_close w)
        /\ forall e, fst (browser_close w) = Throw e -> fst run = Throw e
  end.
Proof.
  cbv zeta.
  assert (Hrun : exists body st0,
             world st0 = world st
             /\ runMeasurements options config st
                = (call puppeteer_launch;;;
                   try_finally body (call browser_close)) st0).
  { unfold runMeasurements.
    set (body := try_finally _ _).
    set (note := match opt_note options with Some n => _ | None => _ end).
    assert (Hnote : forall st0, exists st1,
               note st0 = (Ok tt, st1) /\ world st1 = world st0).
    { intros st0. unfold note.
      destruct (opt_note options) as [n|];
        [destruct (String.eqb n EmptyString)|];
        eexists; (split; [reflexivity|reflexivity]). }
    clearbody note.
    do 3 (unfold bind at 1, log at 1). unfold bind at 1.
    match goal with |- context [note ?s] =>
      destruct (Hnote s) as (st1 & -> & Hw1) end.
    cbn [world] in Hw1.
    do 2 (unfold bind at 1, log at 1).
    eexists _, _. split; [|reflexivity]. exact Hw1. }
  destruct Hrun as (body & st0 & Hw0 & ->).
  assert (E : (call puppeteer_launch;;;
               try_finally body (call browser_close)) st0
              = match fst (puppeteer_launch (world st)) with
                | Ok _ =>
                    try_finally body (call browser_close)
                      (set_world (snd (puppeteer_launch (world st))) st0)
                | Throw e =>
                    (Throw e,
                     set_world (snd (puppeteer_launch (world st))) st0)
                end).
  { unfold bind at 1, call at 1. rewrite Hw0.
    now destruct (puppeteer_launch (world st)) as [[u|e] w0]. }
  rewrite E. clear E.
  destruct (fst (puppeteer_launch (world st))) as [u|e].
  - set (s := set_world _ st0).
    destruct (try_finally_call body browser_close s) as [Hw Hr].
    exists (world (snd (body s))).
    split; [exact Hw|]. intros e He. rewrite Hr, He. reflexivity.
  - now split.
Qed.

Lemma try_finally_inv_Ok {A} (body : M A) (fin : M unit) st a st' :
  try_finally body fin st = (Ok a, st') ->
  exists st1, body st = (Ok a, st1) /\ fin st1 = (Ok tt, st').
Proof.
  unfold try_finally. destruct (body st) as [r1 st1].
  destruct (fin st1) as [[[]|e] st2] eqn:Ef; intros E; inversion E; subst;
    eauto.
Qed.

(** a step that leaves the clock alone, in front of a run that returns *)
Lemma bind_same_clock {A B} (m : M A) (k : A -> M B) st b st' :
  preserves same_clock m ->
  bind m k st = (Ok b, st') ->
  exists a st1, k a st1 = (Ok b, st') /\ now st1 = now st.
Proof.
  intros Hm E. apply bind_inv_Ok in E. destruct E as (a & st1 & E1 & E).
  exists a, st1. split; [exact E|exact (Hm _ _ _ E1)].
Qed.

Lemma runSingleMeasurement_same_clock url i runs :
  preserves same_clock (runSingleMeasurement url i runs).
Proof. unfold runSingleMeasurement. frame. Qed.

Lemma run_loop_clock url runs n : forall i acc st metrics st',
  run_loop n url i runs acc st = (Ok metrics, st') ->
  now st' = now st + 2000 * Z.max 0 (Z.min (i + Z.of_nat n) runs - i).
Proof.
  induction n as [|n IH]; intros i acc st metrics st' E; cbn [run_loop] in E.
  - injection E as _ <-. lia.
  - apply bind_same_clock in E; [|apply runSingleMeasurement_same_clock].
    destruct E as (result & st1 & E & H1).
    apply bind_inv_Ok in E. destruct E as ([] & st2 & E2 & E).
    apply IH in E. rewrite E.
    destruct (i <? runs) eqn:Hi.
    + apply Z.ltb_lt in Hi. injection E2 as <-. cbn [now]. lia.
    + apply Z.ltb_ge in Hi. injection E2 as <-. lia.
Qed.


End RunnerExtras.

(* ===================================================================== *)
(** * Process manager: lookups, waits, teardown                           *)
(* ===================================================================== *)

Section ProcessExtras.
Context `{Collaborators}.

Lemma getProcessOnPort_eq (port : Z) (st : State) :
  getProcessOnPort port st
  = (Ok match fst (findProcess port (world st)) with
        | Ok (first :: _) => Some first
        | _ => None
        end,
     set_world (snd (findProcess port (world st))) st).
Proof.
  unfold getProcessOnPort, try_catch, bind, call, ret, set_world.
  destruct (findProcess port (world st)) as [[[|first others]|e] w];
    reflexivity.
Qed.

(** X12.  [getProcessOnPort] never throws: it gives the first process the
    lookup found, and [null] when the lookup found none or failed.  It
    agrees with [isPortInUse]: on the same state the two leave the same
    state behind, and the port is reported in use exactly when a process is
    returned. *)
Theorem getProcessOnPort_agrees (port : Z) (st : State) :
  exists proc,
    getProcessOnPort port st = (Ok proc, snd (isPortInUse port st))
    /\ fst (isPortInUse port st) = Ok (bool_decide (is_Some proc))
    /\ (forall first others,
          fst (findProcess port (world st)) = Ok (first :: others) ->
          proc = Some first)
    /\ (fst (findProcess port (world st)) = Ok [] -> proc = None)
    /\ (lookup_fails port (world st) -> proc = None).
Proof.
  rewrite getProcessOnPort_eq, isPortInUse_eq. cbn [fst snd].
  eexists. split; [reflexivity|].
  unfold lookup_fails.
  destruct (fst (findProcess port (world st))) as [[|first others]|e];
    (split; [reflexivity|]); repeat split; intros;
    repeat match goal with Hx : exists _, _ |- _ => destruct Hx end;
    congruence.
Qed.

(** whether a lookup answers can be told from its result *)
Lemma classic_answers (port : Z) (w : World) :
  port_answers port w \/ ~ port_answers port w.
Proof.
  unfold port_answers.
  destruct (fst (findProcess port w)) as [[|first others]|e].
  - right. intros (f & o & E). discriminate.
  - left. now exists first, others.
  - right. intros (f & o & E). discriminate.
Qed.

(** the outcome of the polling loop of [waitForPort] *)
Lemma waitForPort_loop_outcome (port startTime timeoutMs : Z) (fuel : nat) :
  forall st,
    timeoutMs - (now st - startTime) <= 1000 * Z.of_nat fuel ->
    exists b polls st',
      waitForPort_loop fuel port startTime timeoutMs st = (Ok b, st')
      /\ now st' = now st + 1000 * Z.of_nat polls
      /\ files st' = files st /\ pidFile st' = pidFile st
      /\ console st' = console st
      /\ (polls = 0%nat -> b = false -> st' = st)
      /\ if b
         then now st' - startTime < timeoutMs
              /\ exists w, port_answers port w
                           /\ world st' = snd (findProcess port w)
         else timeoutMs <= now st' - startTime
              /\ ((0 < polls)%nat ->
                  now st' - 1000 - startTime < timeoutMs).
Proof.
  induction fuel as [|fuel IH]; intros st Hfuel.
  - exists false, 0%nat, st. cbn [waitForPort_loop]. unfold ret.
    repeat split; try lia.
  - rewrite waitForPort_loop_step.
    destruct (now st - startTime <? timeoutMs) eqn:Ht.
    + apply Z.ltb_lt in Ht. cbv zeta.
      destruct (fst (findProcess port (world st))) as [[|first others]|e]
        eqn:Ef.
      1,3: destruct (IH (snd (sleep 1000
                                  (set_world
                                     (snd (findProcess port (world st))) st))))
             as (b & polls & st' & E & Hn & Hf & Hp & Hc & _ & Hb);
           [cbn; lia|];
           exists b, (S polls), st'; rewrite E;
           (split; [reflexivity|]);
           (split; [rewrite Hn; cbn; lia|]);
           (split; [exact Hf|]); (split; [exact Hp|]); (split; [exact Hc|]);
           (split; [discriminate|]);
           destruct b; [exact Hb|];
           destruct Hb as [Hb1 Hb2]; (split; [exact Hb1|]); intros _;
           destruct polls as [|polls];
           [rewrite Hn; cbn; lia|apply Hb2; lia].
      exists true, 0%nat, (set_world (snd (findProcess port (world st))) st).
      split; [reflexivity|]. cbn [now files pidFile console set_world].
      repeat split; try lia; try discriminate.
      exists (world st). split; [|reflexivity]. now exists first, others.
    + apply Z.ltb_ge in Ht. exists false, 0%nat, st.
      repeat split; try lia.
Qed.

Lemma poll_budget_enough (timeoutMs interval : Z) :
  0 < interval ->
  timeoutMs <= interval * Z.of_nat (poll_budget timeoutMs interval).
Proof.
  intros Hi. unfold poll_budget.
  destruct (Z.le_gt_cases timeoutMs 0) as [Hle|Hgt]; [lia|].
  rewrite !Nat2Z.inj_succ, Z2Nat.id by (apply Z.div_pos; lia).
  pose proof (Z.mul_succ_div_gt timeoutMs interval Hi). lia.
Qed.

(** one wait for a port *)
Lemma waitForPort_outcome_aux (port timeoutMs : Z) (st : State) :
  exists b polls st',
    waitForPort port timeoutMs st = (Ok b, st')
    /\ now st' = now st + 1000 * Z.of_nat polls
    /\ files st' = files st /\ pidFile st' = pidFile st
    /\ console st' = console st
    /\ (timeoutMs <= 0 -> b = false /\ st' = st)
    /\ if b
       then 1000 * Z.of_nat polls < timeoutMs
            /\ exists w, port_answers port w
                         /\ world st' = snd (findProcess port w)
       else timeoutMs <= 1000 * Z.of_nat polls
            /\ ((0 < polls)%nat ->
                1000 * Z.of_nat polls < timeoutMs + 1000).
Proof.
  unfold waitForPort, bind, Date_now.
  destruct (waitForPort_loop_outcome port (now st) timeoutMs
              (poll_budget timeoutMs 1000) st)
    as (b & polls & st' & E & Hn & Hf & Hp & Hc & H0 & Hb).
  { pose proof (poll_budget_enough timeoutMs 1000). lia. }
  exists b, polls, st'. split; [exact E|].
  split; [exact Hn|]. split; [exact Hf|]. split; [exact Hp|].
  split; [exact Hc|]. split.
  - intros Hle. destruct b.
    + destruct Hb as [Hb _]. lia.
    + destruct Hb as [Hb1 Hb2]. split; [reflexivity|].
      apply H0; [|reflexivity].
      destruct polls as [|polls]; [reflexivity|].
      assert (0 < S polls)%nat as Hpos by lia. specialize (Hb2 Hpos). lia.
  - destruct b.
    + destruct Hb as [Hb Hw]. split; [lia|exact Hw].
    + destruct Hb as [Hb1 Hb2]. split; [lia|].
      intros Hpos. specialize (Hb2 Hpos). lia.
Qed.


(** the outcome of the polling loop of [waitForPortFree] *)
Lemma waitForPortFree_loop_outcome (port startTime timeoutMs : Z)
    (fuel : nat) :
  forall st,
    timeoutMs - (now st - startTime) <= 500 * Z.of_nat fuel ->
    exists b polls st',
      waitForPortFree_loop fuel port startTime timeoutMs st = (Ok b, st')
      /\ now st' = now st + 500 * Z.of_nat polls
      /\ files st' = files st /\ pidFile st' = pidFile st
      /\ console st' = console st
      /\ (polls = 0%nat -> b = false -> st' = st)
      /\ if b
         then now st' - startTime < timeoutMs
              /\ exists w, ~ port_answers port w
                           /\ world st' = snd (findProcess port w)
         else timeoutMs <= now st' - startTime
              /\ ((0 < polls)%nat ->
                  now st' - 500 - startTime < timeoutMs).
Proof.
  induction fuel as [|fuel IH]; intros st Hfuel.
  - exists false, 0%nat, st. cbn [waitForPortFree_loop]. unfold ret.
    repeat split; try lia.
  - rewrite waitForPortFree_loop_step.
    destruct (now st - startTime <? timeoutMs) eqn:Ht.
    + apply Z.ltb_lt in Ht. cbv zeta.
      destruct (fst (findProcess port (world st))) as [[|first others]|e]
        eqn:Ef.
      2: destruct (IH (snd (sleep 500
                                (set_world
                                   (snd (findProcess port (world st))) st))))
             as (b & polls & st' & E & Hn & Hf & Hp & Hc & _ & Hb);
           [cbn; lia|];
           exists b, (S polls), st'; rewrite E;
           (split; [reflexivity|]);
           (split; [rewrite Hn; cbn; lia|]);
           (split; [exact Hf|]); (split; [exact Hp|]); (split; [exact Hc|]);
           (split; [discriminate|]);
           destruct b; [exact Hb|];
           destruct Hb as [Hb1 Hb2]; (split; [exact Hb1|]); intros _;
           destruct polls as [|polls];
           [rewrite Hn; cbn; lia|apply Hb2; lia].
      all: exists true, 0%nat,
             (set_world (snd (findProcess port (world st))) st);
        (split; [reflexivity|]); cbn [now files pidFile console set_world];
        repeat split; try lia; try discriminate;
        exists (world st); (split; [|reflexivity]);
        intros (f & o & Hfo); congruence.
    + apply Z.ltb_ge in Ht. exists false, 0%nat, st.
      repeat split; try lia.
Qed.

(** one wait for a port to go free *)
Lemma waitForPortFree_outcome_aux (port timeoutMs : Z) (st : State) :
  exists b polls st',
    waitForPortFree port timeoutMs st = (Ok b, st')
    /\ now st' = now st + 500 * Z.of_nat polls
    /\ files st' = files st /\ pidFile st' = pidFile st
    /\ console st' = console st
    /\ (timeoutMs <= 0 -> b = false /\ st' = st)
    /\ if b
       then 500 * Z.of_nat polls < timeoutMs
            /\ exists w, ~ port_answers port w
                         /\ world st' = snd (findProcess port w)
       else timeoutMs <= 500 * Z.of_nat polls
            /\ ((0 < polls)%nat ->
                500 * Z.of_nat polls < timeoutMs + 500).
Proof.
  unfold waitForPortFree, bind, Date_now.
  destruct (waitForPortFree_loop_outcome port (now st) timeoutMs
              (poll_budget timeoutMs 500) st)
    as (b & polls & st' & E & Hn & Hf & Hp & Hc & H0 & Hb).
  { pose proof (poll_budget_enough timeoutMs 500). lia. }
  exists b, polls, st'. split; [exact E|].
  split; [exact Hn|]. split; [exact Hf|]. split; [exact Hp|].
  split; [exact Hc|]. split.
  - intros Hle. destruct b.
    + destruct Hb as [Hb _]. lia.
    + destruct Hb as [Hb1 Hb2]. split; [reflexivity|].
      apply H0; [|reflexivity].
      destruct polls as [|polls]; [reflexivity|].
      assert (0 < S polls)%nat as Hpos by lia. specialize (Hb2 Hpos). lia.
  - destruct b.
    + destruct Hb as [Hb Hw]. split; [lia|exact Hw].
    + destruct Hb as [Hb1 Hb2]. split; [lia|].
      intros Hpos. specialize (Hb2 Hpos). lia.
Qed.


(** the third phase of the teardown: at most five seconds per port *)
Lemma stopAll_wait_outcome (allPorts : list Z) (st : State) :
  exists st',
    stopAll_wait allPorts st = (Ok tt, st')
    /\ now st <= now st' <= now st + 5000 * Z.of_nat (length allPorts)
    /\ files st' = files st /\ pidFile st' = pidFile st
    /\ console st'
       = console st ++ match allPorts with
                       | [] => []
                       | _ :: _ => ["Waiting for ports to be free..."]
                       end.
Proof.
  assert (Hloop : forall l st0, exists st1,
             for_each l (fun port => _ <- waitForPortFree port 5000;; ret tt)
               st0 = (Ok tt, st1)
             /\ now st0 <= now st1 <= now st0 + 5000 * Z.of_nat (length l)
             /\ files st1 = files st0 /\ pidFile st1 = pidFile st0
             /\ console st1 = console st0).
  { induction l as [|port l IH]; intros st0.
    - exists st0. cbn [for_each length]. unfold ret. repeat split; lia.
    - cbn [for_each]. unfold bind at 1. unfold bind at 1.
      destruct (waitForPortFree_outcome_aux port 5000 st0)
        as (b & polls & st1 & E & Hn & Hf & Hp & Hc & _ & Hb).
      rewrite E. unfold ret at 1.
      destruct (IH st1) as (st2 & E2 & Hn2 & Hf2 & Hp2 & Hc2).
      exists st2. split; [exact E2|].
      split; [|split; [congruence|split; [congruence|congruence]]].
      cbn [length]. destruct b; [destruct Hb as [Hb _]|destruct Hb as [_ Hb]];
        [lia|].
      destruct polls as [|polls]; [lia|].
      assert (0 < S polls)%nat as Hpos by lia. specialize (Hb Hpos). lia. }
  unfold stopAll_wait. destruct allPorts as [|port rest].
  - exists st. cbn. unfold ret. rewrite app_nil_r. repeat split; lia.
  - change (0 <? length (port :: rest))%nat with true. cbv iota.
    unfold bind at 1, log at 1.
    match goal with |- context [for_each _ _ ?s] =>
      destruct (Hloop (port :: rest) s) as (st1 & E & Hn & Hf & Hp & Hc) end.
    exists st1. split; [exact E|]. cbn [now files pidFile console] in *.
    repeat split; try lia; assumption.
Qed.

(** the teardown as a whole *)
Lemma stopAll_total_aux (config : WebperfConfig) (st : State) :
  exists st' lines,
    stopAll config st = (Ok tt, st')
    /\ pidFile st' = NoPidFile
    /\ files st' = files st
    /\ console st'
       = console st ++ stopping_line :: lines ++ ["All processes stopped."]
    /\ now st <= now st'
       <= now st + 5000 * Z.of_nat (length (services config)).
Proof.
  unfold stopAll. unfold bind at 1, log at 1. unfold bind at 1.
  rewrite stopAll_registry_eq. cbn [world now files pidFile console].
  unfold bind at 1.
  match goal with |- context [stopAll_ports ?l ?s] =>
    destruct (prints_stopAll_ports l s) as ([] & st3 & l3 & E3 & Hc3);
    pose proof (proj1 (stopAll_ports_frame l) _ _ _ E3) as Hf3;
    pose proof (proj1 (proj2 (stopAll_ports_frame l)) _ _ _ E3) as Hp3;
    pose proof (proj2 (proj2 (stopAll_ports_frame l)) _ _ _ E3) as Hn3;
    rewrite E3
  end.
  unfold bind at 1.
  destruct (stopAll_wait_outcome (map service_port (services config)) st3)
    as (st4 & E4 & Hn4 & Hf4 & Hp4 & Hc4).
  rewrite E4. unfold log.
  unfold same_files, same_registry, same_clock in *.
  cbn [world now files pidFile console] in *.
  rewrite length_map in Hn4.
  eexists _, (stopped_lines (registry (pidFile st)) (world st) ++ l3
              ++ match map service_port (services config) with
                 | [] => []
                 | _ :: _ => ["Waiting for ports to be free..."]
                 end).
  split; [reflexivity|]. cbn [now files pidFile console].
  split.
  { now rewrite Hp4. }
  split.
  { now rewrite Hf4. }
  split; [|lia].
  rewrite Hc4, Hc3. rewrite <- !app_assoc. cbn [app]. reflexivity.
Qed.


(** in a world where lookups change nothing, one wait for a port *)
Lemma waitForPort_static (port timeoutMs : Z) (st : State) :
  lookup_is_query ->
  0 < timeoutMs ->
  exists b st',
    waitForPort port timeoutMs st = (Ok b, st')
    /\ world st' = world st /\ files st' = files st
    /\ pidFile st' = pidFile st /\ console st' = console st
    /\ (port_answers port (world st) -> b = true /\ now st' = now st)
    /\ (~ port_answers port (world st) ->
        b = false
        /\ exists polls : nat,
             now st' = now st + 1000 * Z.of_nat polls
             /\ timeoutMs <= 1000 * Z.of_nat polls < timeoutMs + 1000).
Proof.
  intros Hq Hpos.
  assert (Hloop : forall fuel st0 startTime,
             world st0 = world st ->
             exists b st1,
               waitForPort_loop fuel port startTime timeoutMs st0 = (Ok b, st1)
               /\ world st1 = world st
               /\ (port_answers port (world st) ->
                   now st0 - startTime < timeoutMs -> (0 < fuel)%nat ->
                   b = true /\ st1 = st0)
               /\ (~ port_answers port (world st) -> b = false)).
  { induction fuel as [|fuel IH]; intros st0 startTime Hw.
    - exists false, st0. cbn [waitForPort_loop]. unfold ret.
      repeat split; try assumption; lia.
    - rewrite waitForPort_loop_step. cbv zeta.
      assert (Est : set_world (snd (findProcess port (world st0))) st0 = st0).
      { rewrite Hq. now destruct st0. }
      rewrite Est, Hw.
      destruct (now st0 - startTime <? timeoutMs) eqn:Ht.
      + destruct (fst (findProcess port (world st))) as [[|first others]|e]
          eqn:Ef.
        2: { exists true, st0. repeat split; try assumption.
             intros Hno. exfalso. apply Hno. now exists first, others. }
        all: destruct (IH (snd (sleep 1000 st0)) startTime Hw)
               as (b & st1 & E & Hw1 & _ & Hno);
          exists b, st1; (split; [exact E|]); (split; [exact Hw1|]);
          (split; [|exact Hno]);
          intros (f & o & Hfo); congruence.
      + exists false, st0. apply Z.ltb_ge in Ht.
        repeat split; try assumption; lia. }
  destruct (waitForPort_outcome_aux port timeoutMs st)
    as (b & polls & st' & E & Hn & Hf & Hp & Hc & _ & Hb).
  exists b, st'. split; [exact E|].
  unfold waitForPort, bind, Date_now in E.
  destruct (Hloop (poll_budget timeoutMs 1000) st (now st) eq_refl)
    as (b2 & st2 & E2 & Hw2 & Hyes & Hno).
  rewrite E in E2. injection E2 as <- <-.
  split; [exact Hw2|]. split; [exact Hf|]. split; [exact Hp|].
  split; [exact Hc|]. split.
  - intros Ha. destruct (Hyes Ha) as [-> ->]; [lia|unfold poll_budget; lia|].
    now split.
  - intros Ha. rewrite (Hno Ha) in Hb. split; [now apply Hno|].
    destruct Hb as [Hb1 Hb2]. exists polls. split; [exact Hn|].
    destruct polls as [|polls]; [lia|].
    assert (0 < S polls)%nat as Hpp by lia. specialize (Hb2 Hpp). lia.
Qed.


End ProcessExtras.

(* ===================================================================== *)
(** * Starting services                                                   *)
(* ===================================================================== *)

Section LaunchTheorems.
Context `{Launcher}.

(** [startService], in one step *)
Lemma startService_eq (service : Service) (st : State) :
  startService service st
  = if directoryExists (service_cwd service) (world st)
    then
      let st1 := {| world := world st; now := now st; files := files st;
                    pidFile := pidFile st;
                    console := console st
                               ++ [("Starting " ++ service_id service
                                    ++ "...")%string] |} in
      let r := spawn (service_command service) (service_cwd service)
                 (negb isWindows) (world st) in
      match fst r with
      | Ok (Some pid) =>
          if pid =? 0
          then (Ok (Some (Some pid)), set_world (snd r) st1)
          else (Ok (Some (Some pid)),
                {| world := snd r; now := now st; files := files st;
                   pidFile := SavedPids (registry (pidFile st)
                                         ++ [launched (service, pid)]);
                   console := console st1
                              ++ [(service_id service ++ " started (PID: "
                                   ++ pretty pid ++ ")")%string] |})
      | Ok None => (Ok (Some None), set_world (snd r) st1)
      | Throw e => (Throw e, set_world (snd r) st1)
      end
    else (Ok None,
          {| world := world st; now := now st; files := files st;
             pidFile := pidFile st;
             console := console st
                        ++ [("Service directory not found: "
                             ++ service_cwd service)%string] |}).
Proof.
  unfold startService, startProcess, bind, call, log, ret, loadPids, savePids,
    set_pidFile, set_world, launched.
  cbn [world now files pidFile console fst snd].
  destruct (directoryExists (service_cwd service) (world st));
    cbn [negb]; [|reflexivity].
  destruct (spawn (service_command service) (service_cwd service)
              (negb isWindows) (world st)) as [[[pid|]|e] w];
    cbn [fst snd]; try reflexivity.
  destruct (pid =? 0); [reflexivity|].
  destruct (pidFile st); reflexivity.
Qed.

(** what the start of one service does to the registry *)
Lemma startService_outcome (service : Service) (st : State) :
  let run := startService service st in
  files (snd run) = files st
  /\ (spawn_never_throws -> exists child, fst run = Ok child)
  /\ ((pidFile (snd run) = pidFile st
       /\ exists lines, console (snd run) = console st ++ lines)
      \/ exists pid,
           pid <> 0
           /\ fst run = Ok (Some (Some pid))
           /\ pidFile (snd run)
              = SavedPids (registry (pidFile st) ++ [launched (service, pid)]))
  /\ (always_starts [service] -> pidFile (snd run) <> pidFile st).
Proof.
  cbv zeta. rewrite startService_eq.
  assert (Hne : forall pf x, SavedPids (registry pf ++ [x]) <> pf).
  { intros [| |l] x; try discriminate. cbn [registry]. intros [= E].
    apply (f_equal (@length _)) in E. rewrite length_app in E.
    cbn [length] in E. lia. }
  match goal with |- _ /\ _ /\ _ /\ ?Q => assert (G4 : Q) end.
  { intros Ha.
    destruct (Ha service (world st) (or_introl eq_refl))
      as (Hd & pid & w' & Hpid & Es).
    rewrite Hd. cbv zeta. rewrite Es. cbn [fst snd].
    apply Z.eqb_neq in Hpid. rewrite Hpid. cbn [snd pidFile]. apply Hne. }
  revert G4.
  destruct (directoryExists (service_cwd service) (world st)).
  - cbv zeta.
    destruct (spawn (service_command service) (service_cwd service)
                (negb isWindows) (world st)) as [[[pid|]|e] w] eqn:Es;
      cbn [fst snd].
    + destruct (pid =? 0) eqn:Hpid;
        cbn [fst snd files pidFile console set_world]; intros G4.
      * split; [reflexivity|]. split; [intros _; eauto|].
        split; [|exact G4]. left. eauto.
      * split; [reflexivity|]. split; [intros _; eauto|].
        split; [|exact G4]. right. exists pid.
        apply Z.eqb_neq in Hpid. now repeat split.
    + cbn [fst snd files pidFile console set_world]. intros G4.
      split; [reflexivity|]. split; [intros _; eauto|].
      split; [|exact G4]. left. eauto.
    + cbn [fst snd files pidFile console set_world]. intros G4.
      split; [reflexivity|]. split; [|split; [|exact G4]].
      * intros Hs. destruct (Hs (service_command service)
                               (service_cwd service) (negb isWindows)
                               (world st)) as (a & w' & Ea).
        rewrite Es in Ea. discriminate.
      * left. eauto.
  - cbn [fst snd files pidFile console]. intros G4.
    split; [reflexivity|]. split; [intros _; eauto|].
    split; [|exact G4]. left. eauto.
Qed.

Lemma start_loop_step (service : Service) (l : list Service) (st : State) :
  for_each (service :: l) (fun service => _ <- startService service;; ret tt)
    st
  = match startService service st with
    | (Ok _, st1) =>
        for_each l (fun service => _ <- startService service;; ret tt) st1
    | (Throw e, st1) => (Throw e, st1)
    end.
Proof.
  cbn [for_each]. unfold bind, ret.
  now destruct (startService service st) as [[child|e] st1].
Qed.

(** the loop of [startAllServices] *)
Lemma start_loop_outcome (l : list Service) : forall st,
  let run := for_each l (fun service => _ <- startService service;; ret tt)
               st in
  exists started : list (Service * Z),
    registry (pidFile (snd run))
    = registry (pidFile st) ++ map launched started
    /\ sublist (map fst started) l
    /\ Forall (fun p => snd p <> 0) started
    /\ files (snd run) = files st
    /\ (started = [] -> pidFile (snd run) = pidFile st)
    /\ (spawn_never_throws -> fst run = Ok tt)
    /\ (always_starts l -> map fst started = l).
Proof.
  induction l as [|service l IH]; intros st; cbv zeta.
  - exists []. cbn. rewrite app_nil_r. repeat split; constructor.
  - rewrite start_loop_step.
    destruct (startService_outcome service st) as (Hf & Hok & Hreg & Hst).
    assert (Hhd : always_starts (service :: l) -> always_starts [service]).
    { intros Ha s w [<-|[]]. apply Ha. now left. }
    assert (Htl : always_starts (service :: l) -> always_starts l).
    { intros Ha s w Hin. apply Ha. now right. }
    destruct (startService service st) as [[child|e] st1] eqn:E;
      cbn [fst snd] in *.
    + destruct (IH st1)
        as (started & Hr & Hsub & Hnz & Hf1 & Hnone & Hok1 & Hall).
      destruct Hreg as [[Hp _]|(pid & Hpid & _ & Hp)].
      * exists started. rewrite Hr, Hp.
        split; [reflexivity|]. split; [now apply sublist_cons|].
        split; [exact Hnz|]. split; [now rewrite Hf1|].
        split; [intros Hs; rewrite (Hnone Hs); exact Hp|].
        split; [exact Hok1|].
        intros Ha. now destruct (Hst (Hhd Ha)).
      * exists ((service, pid) :: started). rewrite Hr, Hp.
        cbn [registry map fst]. rewrite <- app_assoc.
        split; [reflexivity|]. split; [now apply sublist_skip|].
        split; [now constructor|]. split; [now rewrite Hf1|].
        split; [discriminate|]. split; [exact Hok1|].
        intros Ha. now rewrite (Hall (Htl Ha)).
    + exists []. cbn [map]. rewrite app_nil_r.
      destruct Hreg as [[Hp _]|(pid & _ & Hx & _)]; [|discriminate].
      rewrite Hp. split; [reflexivity|]. split; [apply sublist_nil_l|].
      split; [constructor|]. split; [exact Hf|]. split; [reflexivity|].
      split.
      * intros Hs. destruct (Hok Hs). discriminate.
      * intros Ha. now destruct (Hst (Hhd Ha)).
Qed.

(** X17.  [startAllServices] writes no file.  It adds to the registry one
    entry for each service whose process was started with a pid, in the
    order of the configuration, after the entries already there, each with
    the id and the port of its service; it leaves the registry file as it
    is when nothing was started.  When [spawn] does not throw it returns,
    whether or not anything was started; when every service has its
    directory and gets a pid, every service is recorded. *)
Theorem startAllServices_registry (config : WebperfConfig) (st : State) :
  let run := startAllServices config st in
  exists started : list (Service * Z),
    registry (pidFile (snd run))
    = registry (pidFile st) ++ map launched started
    /\ sublist (map fst started) (services config)
    /\ Forall (fun p => snd p <> 0) started
    /\ files (snd run) = files st
    /\ (started = [] -> pidFile (snd run) = pidFile st)
    /\ (spawn_never_throws -> fst run = Ok tt)
    /\ (always_starts (services config) ->
        map fst started = services config).
Proof.
  cbv zeta. unfold startAllServices.
  destruct (length (services config) =? 0)%nat eqn:Hlen.
  - exists []. unfold log. cbn [fst snd pidFile files map].
    rewrite app_nil_r. split; [reflexivity|].
    split; [apply sublist_nil_l|]. split; [constructor|].
    split; [reflexivity|]. split; [reflexivity|]. split; [reflexivity|].
    intros _. apply Nat.eqb_eq in Hlen. now destruct (services config).
  - set (loop := for_each (services config) _).
    assert (E : forall s,
               (log "Starting all services...";;; loop;;;
                log "All services started!") s
               = match loop (snd (log "Starting all services..." s)) with
                 | (Ok _, st1) => log "All services started!" st1
                 | (Throw e, st1) => (Throw e, st1)
                 end).
    { intros s. unfold bind, log at 1. cbn [snd]. reflexivity. }
    rewrite E. clear E. unfold loop.
    destruct (start_loop_outcome (services config)
                (snd (log "Starting all services..." st)))
      as (started & Hr & Hsub & Hnz & Hf & Hnone & Hok & Hall).
    destruct (for_each (services config) _ _) as [[[]|e] st1];
      cbn [fst snd pidFile files log] in *; exists started.
    + repeat split; assumption.
    + repeat split; assumption.
Qed.

End LaunchTheorems.

(* ===================================================================== *)
(** * Status of the services                                              *)
(* ===================================================================== *)

Section StatusTheorems.
Context `{Collaborators}.

(** the entry [getStatus] builds for a service in world [w] *)
Lemma getStatus_loop_outcome (l : list Service) : forall results st,
  exists new st',
    getStatus_loop l results st = (Ok (results ++ new), st')
    /\ map info_name new = map service_id l
    /\ map info_port new = map service_port l
    /\ Forall (fun i => info_running i = bool_decide (is_Some (info_pid i)))
         new
    /\ files st' = files st /\ pidFile st' = pidFile st
    /\ console st' = console st /\ now st' = now st
    /\ (lookup_is_query ->
        world st' = world st
        /\ map info_running new = map (fun s => answers (world st) (service_port s)) l).
Proof.
  induction l as [|service l IH]; intros results st.
  - exists [], st. cbn [getStatus_loop map]. unfold ret. rewrite app_nil_r.
    repeat split; constructor.
  - cbn [getStatus_loop]. unfold bind. rewrite getProcessOnPort_eq.
    match goal with |- context [getStatus_loop l (results ++ [?i]) ?s] =>
      destruct (IH (results ++ [i]) s)
        as (new & st' & E & Hn & Hp & Hr & Hf & Hpf & Hc & Hnow & Hq);
      exists (i :: new), st'
    end.
    rewrite E, <- app_assoc. split; [reflexivity|].
    cbn [map info_name info_port info_running info_pid].
    split; [now rewrite Hn|]. split; [now rewrite Hp|].
    split.
    { constructor; [|exact Hr]. cbn [info_running info_pid].
      destruct (fst (findProcess (service_port service) (world st)))
        as [[|first others]|e]; reflexivity. }
    split; [exact Hf|]. split; [exact Hpf|]. split; [exact Hc|].
    split; [exact Hnow|].
    intros Hquery. destruct (Hq Hquery) as [Hw Hrun].
    cbn [world set_world] in Hw, Hrun. rewrite Hquery in Hw, Hrun.
    split; [exact Hw|]. rewrite Hrun. f_equal.
    unfold answers.
    destruct (fst (findProcess (service_port service) (world st)))
      as [[|first others]|e]; reflexivity.
Qed.

(** the report of [getStatus] *)
Lemma getStatus_report_aux (config : WebperfConfig) (st : State) :
  exists statuses st',
    getStatus config st = (Ok statuses, st')
    /\ map info_name statuses = map service_id (services config)
    /\ map info_port statuses = map service_port (services config)
    /\ Forall (fun i => info_running i = bool_decide (is_Some (info_pid i)))
         statuses
    /\ files st' = files st /\ pidFile st' = pidFile st
    /\ console st' = console st /\ now st' = now st
    /\ (lookup_is_query ->
        world st' = world st
        /\ map info_running statuses
           = map (fun s => answers (world st) (service_port s))
               (services config)).
Proof.
  unfold getStatus.
  destruct (getStatus_loop_outcome (services config) [] st)
    as (new & st' & E & Hrest).
  exists new, st'. split; [exact E|exact Hrest].
Qed.

(** X18.  [getStatus] never throws and changes nothing but, possibly, the
    world of the lookups.  It reports the services in the order of the
    configuration, each under its id and its port, as running exactly when
    a pid is reported; where a lookup changes nothing, a service is
    reported as running exactly when the lookup of its port finds a
    process. *)
Theorem getStatus_report (config : WebperfConfig) (st : State) :
  exists statuses st',
    getStatus config st = (Ok statuses, st')
    /\ map info_name statuses = map service_id (services config)
    /\ map info_port statuses = map service_port (services config)
    /\ Forall (fun i => info_running i = bool_decide (is_Some (info_pid i)))
         statuses
    /\ files st' = files st /\ pidFile st' = pidFile st
    /\ console st' = console st /\ now st' = now st
    /\ (lookup_is_query ->
        world st' = world st
        /\ map info_running statuses
           = map (fun s => answers (world st) (service_port s))
               (services config)).
Proof. apply getStatus_report_aux. Qed.

(** the loop of [printStatus]: one line per service, and the count *)
Lemma printStatus_loop_outcome (statuses : list ProcessInfo) :
  forall count st,
  exists lines,
    printStatus_loop statuses count st
    = (Ok (count + length (List.filter (fun i => info_running i) statuses))%nat,
       {| world := world st; now := now st; files := files st;
          pidFile := pidFile st; console := console st ++ lines |})
    /\ length lines = length statuses.
Proof.
  induction statuses as [|status rest IH]; intros count st.
  - exists []. cbn. unfold ret. rewrite app_nil_r, Nat.add_0_r.
    now destruct st.
  - cbn [printStatus_loop List.filter].
    destruct (info_running status) eqn:Hr.
    + rewrite bind_log.
      match goal with |- context [printStatus_loop rest (S count) ?s] =>
        destruct (IH (S count) s) as (lines & E & Hl) end.
      rewrite E. cbn [world now files pidFile console length].
      match goal with |- context [(console st ++ [?line]) ++ lines] =>
        exists (line :: lines) end.
      rewrite <- app_assoc. cbn [app length].
      split; [|now rewrite Hl].
      replace (S count + length (List.filter (fun i => info_running i) rest))%nat
        with (count + S (length (List.filter (fun i => info_running i) rest)))%nat
        by lia.
      reflexivity.
    + rewrite bind_log.
      match goal with |- context [printStatus_loop rest count ?s] =>
        destruct (IH count s) as (lines & E & Hl) end.
      rewrite E. cbn [world now files pidFile console length].
      match goal with |- context [(console st ++ [?line]) ++ lines] =>
        exists (line :: lines) end.
      rewrite <- app_assoc. cbn [app length].
      split; [reflexivity|now rewrite Hl].
Qed.

(** X19.  Where a lookup changes nothing, [printStatus] prints its title,
    one line per declared service and a closing line with the number of
    services whose port answers out of the number declared; the closing
    line says that all are running exactly when every port answers.  With
    no service declared it says so instead.  It never throws and changes
    nothing but the console. *)
Theorem printStatus_counts (config : WebperfConfig) (st : State) :
  lookup_is_query ->
  let total := length (services config) in
  let up := length (List.filter (fun s => answers (world st) (service_port s))
                      (services config)) in
  exists lines closing,
    printStatus config st
    = (Ok tt,
       {| world := world st; now := now st; files := files st;
          pidFile := pidFile st;
          console := console st ++ "Service Status:" :: lines ++ [closing] |})
    /\ length lines = total
    /\ closing
       = (if (total =? 0)%nat then "  No services configured."
          else if (up =? total)%nat
               then "All " ++ pretty up ++ "/" ++ pretty total
                    ++ " services are running!"
               else pretty up ++ "/" ++ pretty total ++ " services running")%string
    /\ (up = total <->
        Forall (fun s => port_answers (service_port s) (world st))
          (services config)).
Proof.
  intros Hq total up. unfold printStatus. rewrite bind_log.
  unfold bind at 1.
  match goal with |- context [getStatus config ?s] =>
    destruct (getStatus_report_aux config s)
      as (statuses & st1 & E & Hn & Hp & _ & Hf & Hpf & Hc & Hnow & Hw)
  end.
  rewrite E. destruct (Hw Hq) as [Hw1 Hrun]. clear Hw.
  cbn [world now files pidFile console] in *.
  assert (Hlen : length statuses = total).
  { unfold total. rewrite <- (length_map service_id), <- Hn.
    now rewrite length_map. }
  assert (Hup : length (List.filter (fun i => info_running i) statuses) = up).
  { unfold up. clear -Hrun. revert statuses Hrun.
    induction (services config) as [|s l IH]; intros [|i statuses] Hrun;
      try discriminate; [reflexivity|].
    cbn [map] in Hrun. injection Hrun as Hi Hrun.
    cbn [List.filter]. rewrite Hi.
    destruct (answers (world st) (service_port s)); cbn [length];
      now rewrite (IH _ Hrun). }
  assert (Hall : up = total <->
                 Forall (fun s => port_answers (service_port s) (world st))
                   (services config)).
  { unfold up, total. clear. induction (services config) as [|s l IH].
    - split; [constructor|reflexivity].
    - cbn [List.filter length].
      assert (Hs : answers (world st) (service_port s) = true
                   <-> port_answers (service_port s) (world st)).
      { unfold answers, port_answers.
        destruct (fst (findProcess (service_port s) (world st)))
          as [[|first others]|e]; split; try discriminate; eauto;
          intros (f & o & Ef); discriminate. }
      pose proof (List.filter_length_le
                    (fun s => answers (world st) (service_port s)) l) as Hle.
      destruct (answers (world st) (service_port s)); cbn [length].
      + split.
        * intros Hx. constructor; [now apply Hs|]. apply IH. lia.
        * intros Hx. apply Forall_cons in Hx. destruct Hx as [_ Hx].
          apply IH in Hx. lia.
      + split; [lia|].
        intros Hx. apply Forall_cons in Hx. destruct Hx as [Hx _].
        apply Hs in Hx. discriminate. }
  assert (Est : st1 = {| world := world st; now := now st; files := files st;
                         pidFile := pidFile st;
                         console := console st ++ ["Service Status:"] |}).
  { destruct st1. cbn in *. now subst. }
  rewrite Hlen.
  destruct (total =? 0)%nat eqn:Ht.
  - exists [], "  No services configured."%string. unfold log. rewrite Est.
    cbn [world now files pidFile console]. rewrite <- app_assoc.
    apply Nat.eqb_eq in Ht.
    split; [reflexivity|]. split; [cbn [length]; lia|].
    split; [reflexivity|exact Hall].
  - unfold bind at 1.
    destruct (printStatus_loop_outcome statuses 0 st1) as (lines & E2 & Hl).
    rewrite E2, Hup, Nat.add_0_l, Est.
    cbn [world now files pidFile console].
    exists lines,
      (if (up =? total)%nat
       then "All " ++ pretty up ++ "/" ++ pretty total
            ++ " services are running!"
       else pretty up ++ "/" ++ pretty total ++ " services running")%string.
    split.
    + destruct (up =? total)%nat; unfold log;
        cbn [world now files pidFile console];
        rewrite <- !app_assoc; reflexivity.
    + split; [now rewrite Hl|]. split; [reflexivity|exact Hall].
Qed.

End StatusTheorems.

(* ===================================================================== *)
(** * The command line                                                    *)
(* ===================================================================== *)

Lemma or_Z_nonzero (a : option Z) (b : Z) : b <> 0 -> or_Z a b <> 0.
Proof.
  intros Hb. unfold or_Z. destruct a as [x|]; [|exact Hb].
  destruct (x =? 0) eqn:E; [exact Hb|now apply Z.eqb_neq].
Qed.

Lemma or_Z_cases (a : option Z) (b : Z) :
  or_Z a b = b \/ a = Some (or_Z a b).
Proof.
  unfold or_Z. destruct a as [x|]; [|now left].
  destruct (x =? 0); [now left|now right].
Qed.

Lemma parseInt_None_value (value : option string) (z : Z) :
  parseInt value = Some z -> exists v, value = Some v.
Proof. destruct value; [eauto|discriminate]. Qed.

Lemma apply_flag_invariant defaultRuns args f value r :
  (forall v, value = Some v -> In v args) ->
  args_invariant defaultRuns args r ->
  args_invariant defaultRuns args (apply_flag f value r).
Proof.
  intros Hv (H1 & H2 & H3 & H4 & H5 & H6 & H7 & H8 & H9 & H10 & H11).
  destruct f; unfold args_invariant;
    cbn [apply_flag set_runs set_note push_tag set_concurrency set_scenarioId
         parsed_runs parsed_concurrency parsed_command parsed_tags parsed_note
         parsed_scenarioId parsed_url parsed_file1 parsed_file2].
  - split; [apply or_Z_nonzero; lia|]. split; [exact H2|].
    split; [|split_all; assumption].
    destruct (or_Z_cases (parseInt value) 5) as [E|E]; [now right; left|].
    right; right. destruct (parseInt_None_value _ _ E) as [v ->].
    exists v. split; [now apply Hv|exact E].
  - split_all; assumption.
  - split_all; try assumption.
    apply Forall_app. split; [exact H6|]. constructor; [|constructor].
    exact Hv.
  - split; [exact H1|]. split.
    { intros [= E]. revert E. apply or_Z_nonzero. lia. }
    split; [exact H3|]. split; [|split_all; assumption].
    intros c [= <-].
    destruct (or_Z_cases (parseInt value) 1) as [E|E]; [now left|].
    right. destruct (parseInt_None_value _ _ E) as [v ->].
    exists v. split; [now apply Hv|exact E].
  - split_all; assumption.
Qed.

Lemma positional_invariant defaultRuns args command arg r :
  In arg args ->
  args_invariant defaultRuns args r ->
  args_invariant defaultRuns args (positional command arg r).
Proof.
  intros Hin Hinv. unfold positional.
  assert (Hu : args_invariant defaultRuns args (set_url (Some arg) r)).
  { destruct Hinv as (H1 & H2 & H3 & H4 & H5 & H6 & H7 & H8 & H9 & H10 & H11).
    unfold args_invariant.
    cbn [set_url set_file1 set_file2
         parsed_runs parsed_concurrency parsed_command parsed_tags parsed_note
         parsed_scenarioId parsed_url parsed_file1 parsed_file2].
    split_all; try assumption; now intros v [= <-]. }
  assert (Hf1 : args_invariant defaultRuns args (set_file1 (Some arg) r)).
  { destruct Hinv as (H1 & H2 & H3 & H4 & H5 & H6 & H7 & H8 & H9 & H10 & H11).
    unfold args_invariant.
    cbn [set_url set_file1 set_file2
         parsed_runs parsed_concurrency parsed_command parsed_tags parsed_note
         parsed_scenarioId parsed_url parsed_file1 parsed_file2].
    split_all; try assumption; now intros v [= <-]. }
  assert (Hf2 : args_invariant defaultRuns args (set_file2 (Some arg) r)).
  { destruct Hinv as (H1 & H2 & H3 & H4 & H5 & H6 & H7 & H8 & H9 & H10 & H11).
    unfold args_invariant.
    cbn [set_url set_file1 set_file2
         parsed_runs parsed_concurrency parsed_command parsed_tags parsed_note
         parsed_scenarioId parsed_url parsed_file1 parsed_file2].
    split_all; try assumption; now intros v [= <-]. }
  repeat match goal with
         | |- context [if ?b then _ else _] => destruct b
         end; assumption.
Qed.

Lemma parse_loop_invariant defaultRuns args command (rest : list string) :
  forall r,
    (forall v, In v rest -> In v args) ->
    args_invariant defaultRuns args r ->
    args_invariant defaultRuns args (parse_loop command rest r).
Proof.
  induction rest as [rest IH] using (induction_ltof1 _ (@length string)).
  unfold ltof in IH. intros r Hsub Hinv.
  destruct rest as [|arg rest]; [exact Hinv|].
  cbn [parse_loop].
  destruct (flag_of arg) as [f|].
  - destruct rest as [|value rest].
    + apply apply_flag_invariant; [discriminate|exact Hinv].
    + apply IH; [cbn; lia| |].
      * intros v Hin. apply Hsub. now right; right.
      * apply apply_flag_invariant; [|exact Hinv].
        intros v [= <-]. apply Hsub. now right; left.
  - assert (Hrest : forall v, In v rest -> In v args).
    { intros v Hin. apply Hsub. now right. }
    destruct (String.eqb arg "--help" || String.eqb arg "-h").
    + apply IH; [cbn; lia|exact Hrest|].
      destruct Hinv as (H1 & H2 & H3 & H4 & H5 & H6 & H7 & H8 & H9 & H10 & H11).
      unfold args_invariant.
      cbn [set_command
           parsed_runs parsed_concurrency parsed_command parsed_tags
           parsed_note parsed_scenarioId parsed_url parsed_file1
           parsed_file2].
      split_all; try assumption. now left.
    + destruct (String.prefix "--" arg).
      * apply IH; [cbn; lia|exact Hrest|exact Hinv].
      * apply IH; [cbn; lia|exact Hrest|].
        apply positional_invariant; [|exact Hinv]. apply Hsub. now left.
Qed.

(** X20.  Whatever the arguments, [parseArgs] gives a run count that is
    not 0 and a concurrency that, when given, is not 0; either may be
    negative.  The run count is the default of the settings (5 when that
    is missing or 0), or 5, or the integer read from an argument; the
    concurrency is 1 or the integer read from an argument.  The command is
    [help] or the first argument, and every tag, note, scenario id, URL and
    file is one of the arguments. *)
Theorem parseArgs_invariants (defaultRuns : option Z) (args : list string) :
  args_invariant defaultRuns args (parseArgs defaultRuns args).
Proof.
  unfold parseArgs. apply parse_loop_invariant.
  - intros v Hin. destruct args; [destruct Hin|now right].
  - unfold args_invariant.
    cbn [parsed_runs parsed_concurrency parsed_command parsed_tags parsed_note
         parsed_scenarioId parsed_url parsed_file1 parsed_file2].
    split; [apply or_Z_nonzero; lia|]. split; [discriminate|].
    split; [now left|]. split; [discriminate|].
    split.
    { destruct args as [|c args]; [now left|]. cbn [head truthy_str].
      unfold nonempty. destruct (String.eqb c EmptyString); [now left|].
      now right. }
    split_all; try discriminate. constructor.
Qed.

(* ===================================================================== *)
(** * Saving a measurement: sessions; the commands                        *)
(* ===================================================================== *)

Section OnlyPrints.
Context `{Collaborators}.

Lemma only_prints_ret {A} (a : A) : only_prints (ret a).
Proof. intros st. exists a, []. rewrite app_nil_r. now destruct st. Qed.

Lemma only_prints_log line : only_prints (log line).
Proof. intros st. now exists tt, [line]. Qed.

Lemma only_prints_bind {A B} (m : M A) (k : A -> M B) :
  only_prints m -> (forall a, only_prints (k a)) -> only_prints (bind m k).
Proof.
  intros Hm Hk st. destruct (Hm st) as (a & l1 & E1).
  unfold bind. rewrite E1.
  destruct (Hk a {| world := world st; now := now st; files := files st;
                    pidFile := pidFile st; console := console st ++ l1 |})
    as (b & l2 & E2).
  rewrite E2. exists b, (l1 ++ l2). cbn [world now files pidFile console].
  now rewrite app_assoc.
Qed.

Lemma only_prints_if {A} (b : bool) (m1 m2 : M A) :
  only_prints m1 -> only_prints m2 -> only_prints (if b then m1 else m2).
Proof. now destruct b. Qed.

Lemma printResults_only_prints averages minScore maxScore runs note :
  only_prints (printResults averages minScore maxScore runs note).
Proof.
  unfold printResults, tableRow.
  repeat first [ apply only_prints_bind; [|intros ?]
               | apply only_prints_if
               | apply only_prints_log
               | apply only_prints_ret ].
Qed.

End OnlyPrints.

Section SessionLemmas.
Context `{Collaborators}.
Variable settings : UserSettings.

Lemma saveResults_frame (options : SaveResultsOptions) :
  preserves same_registry (saveResults settings options)
  /\ preserves same_world (saveResults settings options)
  /\ preserves same_clock (saveResults settings options).
Proof.
  unfold saveResults, generateTimestamp, appendToJsonlLog.
  split_all; frame.
Qed.

(** one save: the directory, the document and the log lines *)
Lemma saveResults_session (options : SaveResultsOptions) (st : State) :
  exists st',
    saveResults settings options st = (Ok (session_dir settings options st), st')
    /\ pidFile st' = pidFile st /\ world st' = world st /\ now st' = now st
    /\ forall p,
         file_chunks (files st') p
         = (if bool_decide (p = join (session_dir settings options st)
                                  "summary.json")
            then [JSON_stringify_summary
                    (summary_of_options options (stamp_of st))]
            else file_chunks (files st) p)
           ++ replicate
                (lines_appended settings (save_tags options)
                   (save_scenarioId options) p)
                (json_line (summary_of_options options (stamp_of st))
                   (save_tags options) (save_scenarioId options) st).
Proof.
  destruct (saveResults settings options st) as [r st'] eqn:Erun.
  pose proof (proj1 (saveResults_frame options) _ _ _ Erun) as Hp.
  pose proof (proj1 (proj2 (saveResults_frame options)) _ _ _ Erun) as Hw.
  pose proof (proj2 (proj2 (saveResults_frame options)) _ _ _ Erun) as Hn.
  revert Erun.
  unfold saveResults, bind at 1, generateTimestamp, bind at 1, Date_iso, ret.
  fold (stamp_of st). fold (session_dir settings options st).
  unfold bind at 1, writeFileSync at 1.
  unfold bind at 1.
  match goal with |- context [appendToJsonlLog settings ?sm ?tg ?sc ?s] =>
    destruct (appendToJsonlLog_appends settings sm tg sc s) as (st1 & E & F);
    rewrite E
  end.
  unfold bind, log. intros [= <- <-].
  eexists. split; [reflexivity|]. cbn [files pidFile world now] in *.
  split; [exact Hp|]. split; [exact Hw|]. split; [exact Hn|].
  intros p. rewrite F. cbn [files set_files].
  now rewrite file_chunks_write.
Qed.

(** no log of a save is the summary document of a session *)
Lemma log_paths_not_summary (tags : option (list string))
    (scenarioId : option string) (dir : string) :
  endsWith (jsonlLogPath settings) "/summary.json" = false ->
  lines_appended settings tags scenarioId (join dir "summary.json") = 0%nat.
Proof.
  intros Hlog. unfold lines_appended. apply count_occ_not_In.
  intros [Hp|Hin].
  - rewrite Hp in Hlog. unfold join in Hlog.
    now rewrite endsWith_append in Hlog.
  - apply in_app_or in Hin. destruct Hin as [Hin|Hin].
    + apply in_map_iff in Hin. destruct Hin as (t & Hp & _).
      now apply jsonl_not_summary in Hp.
    + destruct scenarioId as [id|]; [|destruct Hin].
      destruct (nonempty id); [|destruct Hin].
      destruct Hin as [Hp|[]]. now apply jsonl_not_summary in Hp.
Qed.

(** X21.  A session directory is named by the second alone when the save
    carries no tag.  So two such saves whose stamps agree, as within one
    second, share one session directory, and the summary of the second
    replaces that of the first. *)
Theorem saveResults_same_stamp_overwrites (o1 o2 : SaveResultsOptions)
    (st st2 : State) :
  has_tags (save_tags o1) = false ->
  has_tags (save_tags o2) = false ->
  endsWith (jsonlLogPath settings) "/summary.json" = false ->
  stamp_of st2 = stamp_of st ->
  files st2 = files (snd (saveResults settings o1 st)) ->
  let dir := join (resultsPath settings) (stamp_of st) in
  fst (saveResults settings o1 st) = Ok dir
  /\ fst (saveResults settings o2 st2) = Ok dir
  /\ file_chunks (files st2) (join dir "summary.json")
     = [JSON_stringify_summary (summary_of_options o1 (stamp_of st))]
  /\ file_chunks (files (snd (saveResults settings o2 st2)))
       (join dir "summary.json")
     = [JSON_stringify_summary (summary_of_options o2 (stamp_of st))].
Proof.
  intros Ht1 Ht2 Hlog Hstamp Hfiles dir.
  assert (Hdir : forall o s, has_tags (save_tags o) = false ->
                             stamp_of s = stamp_of st ->
                             session_dir settings o s = dir).
  { intros o s Ht Hs. unfold session_dir, session_dirName, dir.
    now rewrite Ht, Hs. }
  destruct (saveResults_session o1 st) as (st1 & E1 & _ & _ & _ & F1).
  destruct (saveResults_session o2 st2) as (st3 & E2 & _ & _ & _ & F2).
  rewrite (Hdir o1 st Ht1 eq_refl) in E1, F1.
  rewrite (Hdir o2 st2 Ht2 Hstamp) in E2, F2.
  rewrite E1 in Hfiles. cbn [snd] in Hfiles.
  rewrite E1, E2. cbn [fst snd].
  split; [reflexivity|]. split; [reflexivity|].
  assert (Hchunks : forall p,
             file_chunks (files st2) p = file_chunks (files st1) p).
  { intros p. unfold file_chunks. now rewrite Hfiles. }
  split.
  - rewrite Hchunks, F1, bool_decide_eq_true_2 by reflexivity.
    rewrite log_paths_not_summary by exact Hlog. cbn [replicate].
    now rewrite app_nil_r.
  - rewrite F2, bool_decide_eq_true_2 by reflexivity.
    rewrite log_paths_not_summary by exact Hlog. cbn [replicate].
    rewrite app_nil_r. now rewrite Hstamp.
Qed.

End SessionLemmas.

Section ManagerFrames.
Context `{Collaborators}.

Lemma waitForPort_loop_files fuel port startTime timeoutMs :
  preserves same_files (waitForPort_loop fuel port startTime timeoutMs).
Proof.
  induction fuel as [|fuel IH]; cbn [waitForPort_loop]; frame; exact IH.
Qed.

Lemma isPortInUse_console port : preserves console_grows (isPortInUse port).
Proof. unfold isPortInUse. frame. Qed.

Lemma getProcessOnPort_console port :
  preserves console_grows (getProcessOnPort port).
Proof. unfold getProcessOnPort. frame. Qed.

Lemma killProcess_console pid : preserves console_grows (killProcess pid).
Proof. unfold killProcess. frame. Qed.

Lemma waitForPort_loop_console fuel port startTime timeoutMs :
  preserves console_grows (waitForPort_loop fuel port startTime timeoutMs).
Proof.
  induction fuel as [|fuel IH]; cbn [waitForPort_loop]; frame;
    first [apply isPortInUse_console | exact IH].
Qed.

Lemma waitForPortFree_loop_console fuel port startTime timeoutMs :
  preserves console_grows
    (waitForPortFree_loop fuel port startTime timeoutMs).
Proof.
  induction fuel as [|fuel IH]; cbn [waitForPortFree_loop]; frame;
    first [apply isPortInUse_console | exact IH].
Qed.

Lemma waitForPort_console port timeoutMs :
  preserves console_grows (waitForPort port timeoutMs).
Proof. unfold waitForPort. frame. apply waitForPort_loop_console. Qed.

Lemma stopAll_console (config : WebperfConfig) :
  preserves console_grows (stopAll config).
Proof.
  unfold stopAll, stopAll_registry, stopAll_ports, stopAll_wait,
    waitForPortFree.
  frame; first [ apply killProcess_console | apply getProcessOnPort_console
               | apply waitForPortFree_loop_console ].
Qed.

Lemma ensurePortsFree_console (config : WebperfConfig) :
  preserves console_grows (ensurePortsFree config).
Proof.
  unfold ensurePortsFree.
  apply preserves_bind; try exact _.
  - induction (map service_port (services config)) as [|port l IH];
      cbn [any_port_in_use]; frame;
      first [apply isPortInUse_console | exact IH].
  - intros [|]; [|frame].
    apply preserves_bind; try exact _; [frame|intros _; apply stopAll_console].
Qed.

Lemma waitForServices_console (config : WebperfConfig) :
  preserves console_grows (waitForServices config).
Proof.
  unfold waitForServices.
  apply preserves_bind; try exact _; [frame|intros _].
  induction (map service_port (services config)) as [|port l IH];
    cbn [wait_all_ports]; [frame|].
  apply preserves_bind; try exact _; [apply waitForPort_console|].
  intros [|]; [exact IH|frame].
Qed.

Lemma waitForPortFree_loop_files fuel port startTime timeoutMs :
  preserves same_files (waitForPortFree_loop fuel port startTime timeoutMs).
Proof.
  induction fuel as [|fuel IH]; cbn [waitForPortFree_loop]; frame; exact IH.
Qed.

Lemma waitForPort_files port timeoutMs :
  preserves same_files (waitForPort port timeoutMs).
Proof. unfold waitForPort. frame. apply waitForPort_loop_files. Qed.

Lemma waitForPortFree_files port timeoutMs :
  preserves same_files (waitForPortFree port timeoutMs).
Proof. unfold waitForPortFree. frame. apply waitForPortFree_loop_files. Qed.

Lemma stopAll_files (config : WebperfConfig) :
  preserves same_files (stopAll config).
Proof.
  unfold stopAll, stopAll_registry, stopAll_wait.
  frame; apply waitForPortFree_files.
Qed.

Lemma any_port_in_use_files (allPorts : list Z) :
  preserves same_files (any_port_in_use allPorts).
Proof.
  induction allPorts as [|port l IH]; cbn [any_port_in_use]; frame; exact IH.
Qed.

Lemma ensurePortsFree_files (config : WebperfConfig) :
  preserves same_files (ensurePortsFree config).
Proof.
  unfold ensurePortsFree.
  apply preserves_bind; try exact _; [apply any_port_in_use_files|].
  intros [|]; [|frame].
  apply preserves_bind; try exact _; [frame|intros _; apply stopAll_files].
Qed.

Lemma wait_all_ports_files (allPorts : list Z) :
  preserves same_files (wait_all_ports allPorts).
Proof.
  induction allPorts as [|port l IH]; cbn [wait_all_ports]; [frame|].
  apply preserves_bind; try exact _; [apply waitForPort_files|].
  intros [|]; [exact IH|frame].
Qed.

Lemma waitForServices_files (config : WebperfConfig) :
  preserves same_files (waitForServices config).
Proof.
  unfold waitForServices.
  apply preserves_bind; try exact _; [frame|intros _].
  apply wait_all_ports_files.
Qed.

End ManagerFrames.

Ltac inv_bind E :=
  let a := fresh "a" in
  let s := fresh "s" in
  let E1 := fresh "E" in
  apply bind_inv_Ok in E; destruct E as (a & s & E1 & E).

Tactic Notation "inv_bind_as" hyp(E) ident(a) ident(s) ident(E1) :=
  apply bind_inv_Ok in E; destruct E as (a & s & E1 & E).

Section CommandTheorems.
Context `{Launcher}.
Variable args : ParsedArgs.
Variable config : WebperfConfig.
Variable settings : UserSettings.

Lemma startAllServices_files :
  preserves same_files (startAllServices config).
Proof.
  unfold startAllServices, startService, startProcess. frame.
Qed.

Lemma startAllServices_console :
  preserves console_grows (startAllServices config).
Proof.
  unfold startAllServices, startService, startProcess. frame.
Qed.

(** measure, print, save *)
Lemma measure_and_save_outcome (overrides : bool) (st : State) :
  let m := runMeasurements (measure_options args config settings overrides)
             config st in
  match fst m with
  | Throw e =>
      measure_and_save args config settings overrides st = (Throw e, snd m)
  | Ok out =>
      exists lines,
        let st2 := {| world := world (snd m); now := now (snd m);
                      files := files (snd m); pidFile := pidFile (snd m);
                      console := console (snd m) ++ lines |} in
        measure_and_save args config settings overrides st
        = (Ok tt,
           snd (saveResults settings
                  (measured_save args config settings overrides out) st2))
  end.
Proof.
  cbv zeta.
  assert (E : measure_and_save args config settings overrides st
              = match runMeasurements
                        (measure_options args config settings overrides)
                        config st with
                | (Ok out, st1) =>
                    (printResults (out_averages out) (out_minScore out)
                       (out_maxScore out) (parsed_runs args)
                       (full_note settings (parsed_note args));;;
                     _ <- saveResults settings
                            (measured_save args config settings overrides out);;
                     ret tt) st1
                | (Throw e, st1) => (Throw e, st1)
                end) by reflexivity.
  rewrite E. clear E.
  destruct (runMeasurements _ config st) as [[out|e] st1]; cbn [fst snd];
    [|reflexivity].
  unfold bind at 1.
  destruct (printResults_only_prints (out_averages out) (out_minScore out)
              (out_maxScore out) (parsed_runs args)
              (full_note settings (parsed_note args)) st1)
    as ([] & lines & ->).
  exists lines. unfold bind, ret.
  match goal with |- context [saveResults settings ?o ?s] =>
    destruct (saveResults_session settings o s) as (st3 & -> & _) end.
  reflexivity.
Qed.

(** X22.  The [measure] command saves exactly one session when the
    measurement returns: it writes the summary document of a session named
    by the second alone, appends one line to the global log, and touches no
    other file and not the registry.  When the measurement throws, the
    command throws the same error and nothing is written. *)
Theorem measure_command_saves (st : State) :
  let m := runMeasurements (measure_options args config settings false)
             config st in
  let run := measure_command args config settings st in
  match fst m with
  | Throw e =>
      fst run = Throw e
      /\ files (snd run) = files st /\ pidFile (snd run) = pidFile st
  | Ok out =>
      let saved :=
        summary_of_options (measured_save args config settings false out)
          (stamp_of (snd m)) in
      let doc :=
        join (join (resultsPath settings) (stamp_of (snd m))) "summary.json" in
      fst run = Ok Returned
      /\ pidFile (snd run) = pidFile st
      /\ forall p,
           file_chunks (files (snd run)) p
           = (if bool_decide (p = doc) then [JSON_stringify_summary saved]
              else file_chunks (files st) p)
             ++ (if bool_decide (p = jsonlLogPath settings)
                 then [json_line saved None None (snd m)] else [])
  end.
Proof.
  cbv zeta. unfold measure_command.
  pose proof (measure_and_save_outcome false st) as Hm. cbv zeta in Hm.
  destruct (runMeasurements (measure_options args config settings false)
              config st) as [[out|e] st1] eqn:Em; cbn [fst snd] in *.
  - destruct Hm as (lines & Hm). unfold bind. rewrite Hm. unfold ret.
    cbn [fst snd].
    match goal with |- context [saveResults settings ?o ?s] =>
      destruct (saveResults_session settings o s)
        as (st3 & E3 & Hp & _ & _ & F) end.
    rewrite E3. cbn [snd].
    pose proof (proj1 (runMeasurements_frame _ _) _ _ _ Em) as Hf1.
    pose proof (proj1 (proj2 (runMeasurements_frame _ _)) _ _ _ Em) as Hp1.
    unfold same_files, same_registry in *.
    cbn [pidFile files] in *.
    split; [reflexivity|]. split; [now rewrite Hp|].
    intros p. rewrite F. cbn [files].
    assert (Hch : file_chunks (files st1) p = file_chunks (files st) p)
      by (unfold file_chunks; now rewrite Hf1).
    rewrite Hch.
    f_equal. unfold lines_appended, log_paths.
    cbn [measured_save save_tags save_scenarioId tag_list map app count_occ].
    destruct (string_dec (jsonlLogPath settings) p) as [->|Hne].
    + now rewrite bool_decide_eq_true_2.
    + now rewrite bool_decide_eq_false_2 by congruence.
  - unfold bind. rewrite Hm. cbn [fst snd].
    split; [reflexivity|].
    split; [exact (proj1 (runMeasurements_frame _ _) _ _ _ Em)|].
    exact (proj1 (proj2 (runMeasurements_frame _ _)) _ _ _ Em).
Qed.

(** when it gets as far as the measurement, [start-measure] does not exit *)
Lemma measured_end_not_exit (st : State) (code : Z) (st' : State) :
  (measure_and_save args config settings true;;;
   log "Services are still running. Stop with:";;;
   log "  npx tsx perf.ts stop";;;
   ret Returned) st <> (Ok (ProcessExit code), st').
Proof.
  intros E. inv_bind E. inv_bind E. inv_bind E. discriminate E.
Qed.


Lemma measure_and_save_registry (overrides : bool) :
  preserves same_registry (measure_and_save args config settings overrides).
Proof.
  unfold measure_and_save.
  apply preserves_bind; try exact _; [apply runMeasurements_frame|intros out].
  apply preserves_bind; try exact _.
  - intros st r st' E.
    destruct (printResults_only_prints (out_averages out) (out_minScore out)
                (out_maxScore out) (parsed_runs args)
                (full_note settings (parsed_note args)) st)
      as (u & lines & E'). rewrite E' in E. now injection E as _ <-.
  - intros _. apply preserves_bind; try exact _; [|intros ?; frame].
    apply saveResults_frame.
Qed.

(** X24.  When the port of the first declared service answers, and a
    lookup changes nothing, [start-measure] takes the services as running:
    it starts nothing, stops nothing and waits for nothing, whatever the
    state of the other services; it goes straight to the measurement, with
    overrides requested, and leaves the registry as it is. *)
Theorem start_measure_reuses_services (st : State) (first : Service)
    (rest : list Service) :
  lookup_is_query ->
  services config = first :: rest ->
  service_port first <> 0 ->
  port_answers (service_port first) (world st) ->
  start_measure_command args config settings st
  = (log "Performance Test with Services";;;
     log "Services already running";;;
     measure_and_save args config settings true;;;
     log "Services are still running. Stop with:";;;
     log "  npx tsx perf.ts stop";;;
     ret Returned) st
  /\ pidFile (snd (start_measure_command args config settings st))
     = pidFile st.
Proof.
  intros Hq Hs Hport Ha.
  assert (E : start_measure_command args config settings st
              = (log "Performance Test with Services";;;
                 log "Services already running";;;
                 measure_and_save args config settings true;;;
                 log "Services are still running. Stop with:";;;
                 log "  npx tsx perf.ts stop";;;
                 ret Returned) st).
  { unfold start_measure_command. rewrite Hs. cbn [length Nat.eqb head].
    apply Z.eqb_neq in Hport. rewrite Hport.
    rewrite !bind_log. unfold bind at 1.
    match goal with |- context [waitForPort ?p 1000 ?s] =>
      destruct (waitForPort_static p 1000 s Hq ltac:(lia))
        as (b & st1 & E1 & Hw & Hf & Hp & Hc & Hyes & _);
      destruct (Hyes Ha) as [-> Hn];
      assert (Est : st1 = s) by (destruct st1; cbn in *; congruence)
    end.
    rewrite E1, Est. cbn [negb]. unfold bind at 1.
    rewrite bind_log. unfold ret at 1. cbn [negb]. reflexivity. }
  split; [exact E|]. rewrite E.
  assert (Hp : preserves same_registry
                 (log "Performance Test with Services";;;
                  log "Services already running";;;
                  measure_and_save args config settings true;;;
                  log "Services are still running. Stop with:";;;
                  log "  npx tsx perf.ts stop";;;
                  ret Returned)).
  { apply preserves_bind; try exact _; [frame|intros _].
    apply preserves_bind; try exact _; [frame|intros _].
    apply preserves_bind; try exact _;
      [apply measure_and_save_registry|intros _].
    frame. }
  match goal with |- pidFile (snd (?m st)) = _ =>
    destruct (m st) as [r st'] eqn:Erun end.
  exact (Hp _ _ _ Erun).
Qed.

End CommandTheorems.

(* ===================================================================== *)
(** * The batch command: selection, and a pool that cannot start          *)
(* ===================================================================== *)

Section BatchExtras.
Context `{Collaborators}.
Variable args : BatchArgs.
Variable config : WebperfConfig.
Variable settings : UserSettings.

(** X25.  With a concurrency bound of 0 or less and at least one scenario
    to run, the pool of the [batch] command starts no scenario and its loop
    never ends: it is still looping after any number of rounds, having
    measured nothing and written nothing. *)
Theorem batch_pool_never_finishes (filtered : list TestScenario)
    (concurrency : Z) (sched : Schedule) (fuel : nat) (st : State) :
  concurrency <= 0 ->
  filtered <> [] ->
  exists st',
    run_batch args config settings fuel sched filtered concurrency st
    = (Ok None, st')
    /\ world st' = world st /\ files st' = files st /\ now st' = now st.
Proof.
  intros Hc Hne. destruct filtered as [|sc queue]; [congruence|].
  unfold run_batch. unfold bind at 1, Date_iso at 1.
  rewrite !bind_log.
  assert (E1 : (1 <? concurrency) = false) by (apply Z.ltb_ge; lia).
  assert (E2 : (concurrency =? 1) = false) by (apply Z.eqb_neq; lia).
  rewrite E1, E2. rewrite !bind_log.
  unfold bind at 1, Date_now at 1. unfold bind at 1, Date_iso at 1.
  unfold bind at 1. rewrite run_pool_spins by exact Hc.
  unfold ret. eexists. split; [reflexivity|]. now repeat split.
Qed.

Lemma has_all_tags_spec (tags : list string) (s : TestScenario) :
  tags <> [] ->
  (has_all_tags tags s = true
   <-> forall t, In t tags -> In t (tag_list (scenario_tags s))).
Proof.
  intros Hne. unfold has_all_tags, tag_list.
  assert (Hmem : forall (t : string) l,
             existsb (String.eqb t) l = true <-> In t l).
  { intros t l. rewrite existsb_exists. split.
    - intros (x & Hin & Hx). apply String.eqb_eq in Hx. now subst.
    - intros Hin. exists t. split; [exact Hin|apply String.eqb_refl]. }
  destruct (scenario_tags s) as [[|t0 ts]|].
  - split; [discriminate|]. intros Hall.
    destruct tags as [|t tags]; [congruence|].
    destruct (Hall t (or_introl eq_refl)).
  - rewrite forallb_forall. split.
    + intros Hall t Hin. apply Hmem. now apply Hall.
    + intros Hall t Hin. apply Hmem. now apply Hall.
  - split; [discriminate|]. intros Hall.
    destruct tags as [|t tags]; [congruence|].
    destruct (Hall t (or_introl eq_refl)).
Qed.

Lemma is_enabled_spec (s : TestScenario) :
  is_enabled s = true <-> scenario_enabled s <> Some false.
Proof.
  unfold is_enabled. destruct (scenario_enabled s) as [[|]|];
    split; congruence.
Qed.

Lemma In_filter_bool {A} (f : A -> bool) (l : list A) (x : A) :
  In x (filter f l) <-> In x l /\ f x = true.
Proof.
  rewrite <- !list_elem_of_In, list_elem_of_filter, Is_true_true. tauto.
Qed.

(** the scenarios left by the tag filter *)
Lemma tagged_spec (all : list TestScenario) (s : TestScenario) :
  let enabled := filter is_enabled all in
  let tagged :=
    match arg_tags args with
    | [] => enabled
    | _ :: _ => filter (has_all_tags (arg_tags args)) enabled
    end in
  In s tagged
  <-> In s all /\ scenario_enabled s <> Some false
      /\ forall t, In t (arg_tags args) -> In t (tag_list (scenario_tags s)).
Proof.
  cbv zeta. destruct (arg_tags args) as [|t0 ts] eqn:Et.
  - rewrite In_filter_bool, is_enabled_spec. split.
    + intros [Hin He]. split; [exact Hin|]. split; [exact He|].
      intros t [].
    + intros (Hin & He & _). now split.
  - rewrite !In_filter_bool, is_enabled_spec, has_all_tags_spec by discriminate.
    tauto.
Qed.

(** the scenarios left by the three filters *)
Lemma filtered_spec (all : list TestScenario) :
  let enabled := filter is_enabled all in
  let tagged :=
    match arg_tags args with
    | [] => enabled
    | _ :: _ => filter (has_all_tags (arg_tags args)) enabled
    end in
  let filtered :=
    if truthy_str (arg_scenarioId args)
    then filter (fun s => String.eqb (scenario_id s)
                            (default EmptyString (arg_scenarioId args)))
           tagged
    else tagged in
  filtered `sublist_of` all
  /\ forall s, In s filtered <-> In s all /\ selected_by args s.
Proof.
  cbv zeta. split.
  - assert (Ht : match arg_tags args with
                 | [] => filter is_enabled all
                 | _ :: _ => filter (has_all_tags (arg_tags args))
                               (filter is_enabled all)
                 end `sublist_of` all).
    { destruct (arg_tags args).
      - apply sublist_filter.
      - etransitivity; apply sublist_filter. }
    destruct (truthy_str (arg_scenarioId args)); [|exact Ht].
    etransitivity; [apply sublist_filter|exact Ht].
  - intros s. unfold selected_by.
    destruct (arg_scenarioId args) as [id|] eqn:Eid; cbn [truthy_str].
    + unfold nonempty. destruct (String.eqb id EmptyString) eqn:Hid;
        cbn [negb].
      * rewrite tagged_spec. apply String.eqb_eq in Hid. split.
        -- intros (Hin & He & Ht). repeat split; try assumption.
           intros id' [= <-] Hne. congruence.
        -- intros (Hin & He & Ht & _). now repeat split.
      * rewrite In_filter_bool, tagged_spec. cbn [default].
        rewrite String.eqb_eq. apply String.eqb_neq in Hid. split.
        -- intros ((Hin & He & Ht) & Hs). repeat split; try assumption.
           now intros id' [= <-] _.
        -- intros (Hin & He & Ht & Hi). repeat split; try assumption.
           now apply Hi.
    + rewrite tagged_spec. split.
      * intros (Hin & He & Ht). repeat split; try assumption.
        intros id' [=].
      * intros (Hin & He & Ht & _). now repeat split.
Qed.


End BatchExtras.

(* ===================================================================== *)
(** * The model at work: concrete runs                                    *)
(* ===================================================================== *)

Lemma demo_browser_works : @browser_works Demo.collab.
Proof.
  repeat split; repeat intro; simpl; eauto.
Defined.

Lemma demo_audits (url : string) :
  String.eqb url "http://down.test" = false ->
  @always_ok Demo.collab _ (lighthouse url).
Proof.
  intros E w. simpl. rewrite E. destruct (Nat.even w); eauto.
Defined.

Lemma demo_lookup_is_query : @lookup_is_query Demo.collab.
Proof.
  intros port w. simpl.
  destruct (port =? 3000); [reflexivity|]. now destruct (port =? 9999).
Defined.

(** The runner test of the repository: two runs scoring 80 and 90 average
    to 85, with a spread from 80 to 90. *)
Example two_runs_average :
  match fst (runMeasurements (Demo.options 2) Demo.config Demo.state0) with
  | Ok out =>
      (length (out_metrics out) =? 2)%nat
      && JS.eqb (score (out_averages out)) (JS.of_Z 85)
      && JS.eqb (fcp (out_averages out)) (JS.of_Z 1200)
      && JS.eqb (out_minScore out) (JS.of_Z 80)
      && JS.eqb (out_maxScore out) (JS.of_Z 90)
  | Throw _ => false
  end = true.
Proof. vm_compute. reflexivity. Qed.

(** The comparison example of the specification: a score going from 75 to
    85 and an FCP going from 1500 to 1200 are both improvements. *)
Example comparison_75_85 :
  match comparisons Demo.summary_before Demo.summary_after with
  | s :: f :: _ =>
      JS.eqb (diff s) (JS.of_Z 10) && improved s
      && JS.eqb (diff f) (JS.of_Z (-300)) && improved f
      && JS.eqb (percentChange f) (JS.of_Z (-20))
  | _ => false
  end = true.
Proof. vm_compute. reflexivity. Qed.

(** A metric that was 0 before has no finite percentage. *)
Example percentChange_from_zero :
  percentChange (compare_metric "TBT (ms)" true JS.zero (JS.of_Z 150))
  = JS.PosInf
  /\ percentChange (compare_metric "TBT (ms)" true JS.zero JS.zero) = JS.NaN.
Proof. split; vm_compute; reflexivity. Qed.

Example sanitize_examples :
  sanitize "Prod" = "prod" /\ sanitize "checkout flow/v2" = "checkout-flow-v2".
Proof. split; vm_compute; reflexivity. Qed.

(** Two tags with the same sanitized name share one log, which then gains
    one line per tag. *)
Example colliding_tags_share_a_log :
  lines_appended Demo.settings (Some ["Prod"; "prod"]) None
    "/webperf/results/tags/prod.jsonl" = 2%nat.
Proof. vm_compute. reflexivity. Qed.

(** Three scenarios, the second of which cannot be measured, run one after
    the other and then two at a time. *)
Example demo_batch_sequential :
  match fst (run_batch (Demo.args None) Demo.config Demo.settings 0
               Demo.second_first Demo.three 1 Demo.state0) with
  | Ok (Some b) =>
      Some (completed b, failed b, totalScenarios b,
            map (fun o => (scenario_id (outcome_scenario o), outcome_error o))
              (results b))
  | _ => None
  end
  = Some (2%nat, 1%nat, 3%nat,
          [ ("home", None); ("down", Some "net::ERR_CONNECTION_REFUSED");
            ("docs", None) ]).
Proof. vm_compute. reflexivity. Qed.

Example demo_batch_pool :
  match fst (run_batch (Demo.args (Some 2)) Demo.config Demo.settings 4
               Demo.second_first Demo.three 2 Demo.state0) with
  | Ok (Some b) =>
      Some (completed b, failed b, totalScenarios b,
            map (fun o => (scenario_id (outcome_scenario o), outcome_error o))
              (results b))
  | _ => None
  end
  = Some (2%nat, 1%nat, 3%nat,
          [ ("down", Some "net::ERR_CONNECTION_REFUSED"); ("docs", None);
            ("home", None) ]).
Proof. vm_compute. reflexivity. Qed.

(** A registry of three processes: one alive, one already dead, one that may
    not be killed.  All three kills are requested; the last one prints
    nothing. *)
Example demo_stopAll_registry :
  let st :=
    set_pidFile
      (SavedPids [ {| proc_name := "web"; proc_port := 3000; proc_pid := 100 |};
                   {| proc_name := "api"; proc_port := 4000; proc_pid := 101 |};
                   {| proc_name := "db"; proc_port := 5000; proc_pid := 102 |} ])
      Demo.state0 in
  let st' := snd (stopAll_registry st) in
  console st' = ["  Stopped web (PID: 100)"; "  Stopped api (PID: 101)"]
  /\ pidFile st' = NoPidFile.
Proof. split; vm_compute; reflexivity. Qed.

(* ===================================================================== *)
(** * Witnesses and counterexamples                                       *)
(* ===================================================================== *)

Lemma batch_counts_add_up_witness :
  exists b st',
    run_batch (Demo.args (Some 2)) Demo.config Demo.settings 4
      Demo.second_first Demo.three 2 Demo.state0 = (Ok (Some b), st')
    /\ (completed b + failed b)%nat = totalScenarios b
    /\ totalScenarios b = length (results b)
    /\ totalScenarios b = length Demo.three.
Proof.
  destruct (batch_counts_add_up (Demo.args (Some 2)) Demo.config Demo.settings
              Demo.three 2 Demo.second_first) as [Hsafe Hlive].
  destruct (Hlive ltac:(lia) 4%nat Demo.state0 ltac:(simpl; lia))
    as (b & st' & E).
  exists b, st'. split; [exact E|]. exact (Hsafe _ _ _ _ E).
Defined.



Lemma runMeasurements_zero_runs_averages_witness :
  exists out st',
    runMeasurements (Demo.options 0) Demo.config Demo.state0 = (Ok out, st')
    /\ out_metrics out = []
    /\ map score (out_metrics out) = []
    /\ out_averages out = zero_result.
Proof.
  destruct (runMeasurements_zero_runs_averages (Demo.options 0) Demo.config
              Demo.state0 eq_refl) as (Hsafe & Hlive & _).
  destruct (Hlive demo_browser_works) as (out & st' & E).
  exists out, st'. split; [exact E|]. exact (Hsafe _ _ E).
Defined.

Lemma runMeasurements_zero_runs_spread_witness :
  exists out st',
    runMeasurements (Demo.options 0) Demo.config Demo.state0 = (Ok out, st')
    /\ out_minScore out = JS.PosInf
    /\ out_maxScore out = JS.NegInf
    /\ out_averages out = zero_result.
Proof.
  destruct (runMeasurements_zero_runs_spread (Demo.options 0) Demo.config
              Demo.state0 eq_refl) as (Hsafe & Hlive).
  destruct (Hlive demo_browser_works) as (out & st' & E).
  exists out, st'. split; [exact E|]. exact (Hsafe _ _ E).
Defined.

Lemma compareResults_rows_witness :
  exists st',
    compareResults Demo.settings "2024-01-15T10-30-00" "2024-01-15T11-00-00"
      Demo.state_two_sessions = (Ok tt, st')
    /\ console st'
       = console Demo.state_two_sessions
         ++ comparison_header Demo.summary_before Demo.summary_after
         ++ map (@comparison_row Demo.collab)
              (comparisons Demo.summary_before Demo.summary_after).
Proof.
  refine (proj1 (compareResults_rows Demo.settings "2024-01-15T10-30-00"
                   "2024-01-15T11-00-00" Demo.summary_before
                   Demo.summary_after Demo.state_two_sessions
                   Demo.state_two_sessions Demo.state_two_sessions _ _));
    vm_compute; reflexivity.
Defined.

Lemma ensurePortsFree_teardown_iff_witness :
  ensurePortsFree Demo.config Demo.state0
  = (log "Detected running services. Stopping them first...";;;
     stopAll Demo.config) Demo.state0.
Proof.
  destruct (ensurePortsFree_teardown_iff Demo.config Demo.state0
              demo_lookup_is_query) as ((st' & lines & _ & _ & _ & Hrun & _) & _).
  apply Hrun.
  exists {| service_id := "frontend"; service_cwd := "/apps/frontend";
            service_command := "npm start"; service_port := 3000 |}.
  split; [now left|].
  exists {| entry_pid := 123; entry_name := "node" |}, []. reflexivity.
Defined.


(** C7, as stated, fails.  The kill of pid 102 is refused for lack of
    permission: [killProcess] rejects, but [stopAll] catches the rejection,
    prints nothing about it and returns normally. *)
Lemma stopAll_swallows_kill_error :
  let st := Demo.state_tracking 102 in
  fst (killProcess 102 st)
  = Throw {| message := "EPERM: operation not permitted" |}
  /\ fst (stopAll_registry st) = Ok tt
  /\ console (snd (stopAll_registry st)) = []
  /\ fst (stopAll Demo.config st) = Ok tt.
Proof. repeat split; vm_compute; reflexivity. Qed.

(* ===================================================================== *)
(** * Witnesses of the further properties                                 *)
(* ===================================================================== *)

Lemma save_then_load_witness :
  exists sessionDir st',
    @saveResults Bench.archive Demo.settings Demo.untagged_save
      Bench.archive_state0 = (Ok sessionDir, st')
    /\ @loadSummary Bench.archive Demo.settings
         (join sessionDir "summary.json") st'
       = (Ok (Some Bench.saved), st').
Proof.
  destruct (@save_then_load Bench.archive Demo.settings Demo.untagged_save
              Bench.archive_state0 ltac:(vm_compute; reflexivity)
              ltac:(vm_compute; reflexivity))
    as (sessionDir & st' & E & Hload & _).
  exists sessionDir, st'. split; [exact E|exact Hload].
Defined.

Lemma saveResults_same_stamp_overwrites_witness :
  let st1 := snd (saveResults Demo.settings Demo.untagged_save Demo.state0) in
  fst (saveResults Demo.settings Demo.untagged_save st1)
  = Ok "/webperf/results/2024-01-15T10-30-00"
  /\ length (file_chunks
               (files (snd (saveResults Demo.settings Demo.untagged_save st1)))
               "/webperf/results/2024-01-15T10-30-00/summary.json") = 1%nat.
Proof.
  cbv zeta.
  destruct (saveResults_same_stamp_overwrites Demo.settings
              Demo.untagged_save Demo.untagged_save Demo.state0
              (snd (saveResults Demo.settings Demo.untagged_save Demo.state0))
              ltac:(reflexivity) ltac:(reflexivity)
              ltac:(vm_compute; reflexivity) ltac:(vm_compute; reflexivity)
              ltac:(reflexivity))
    as (_ & E2 & _ & Hdoc).
  split; [exact E2|]. 
  change (join (join (resultsPath Demo.settings) (stamp_of Demo.state0))
            "summary.json")
    with "/webperf/results/2024-01-15T10-30-00/summary.json" in Hdoc.
  now rewrite Hdoc.
Defined.



Lemma printStatus_counts_witness :
  exists lines,
    console (snd (printStatus Demo.config Demo.state0))
    = "Service Status:" :: lines ++ ["1/2 services running"]
    /\ length lines = 2%nat.
Proof.
  destruct (printStatus_counts Demo.config Demo.state0 demo_lookup_is_query)
    as (lines & closing & E & Hl & Hc & _).
  exists lines. rewrite E. cbn [snd console app]. rewrite Hc.
  split; [reflexivity|exact Hl].
Defined.


Lemma start_measure_reuses_services_witness :
  pidFile (snd (@start_measure_command _ Bench.launcher Bench.measure_args Demo.config
                  Demo.settings Demo.state0))
  = NoPidFile.
Proof.
  refine (proj2 (@start_measure_reuses_services _ Bench.launcher
                   Bench.measure_args Demo.config
                   Demo.settings Demo.state0
                   {| service_id := "frontend"; service_cwd := "/apps/frontend";
                      service_command := "npm start"; service_port := 3000 |}
                   _ demo_lookup_is_query eq_refl _ _)).
  - discriminate.
  - exists {| entry_pid := 123; entry_name := "node" |}, []. reflexivity.
Defined.

Lemma batch_pool_never_finishes_witness :
  arg_concurrency Bench.pool_args = Some (-1)
  /\ exists st',
       run_batch Bench.pool_args Demo.config Bench.settings 1000
         Demo.second_first Demo.three
         (batch_concurrency Bench.pool_args Bench.settings) Demo.state0
       = (Ok None, st').
Proof.
  split; [reflexivity|].
  destruct (batch_pool_never_finishes Bench.pool_args Demo.config
              Bench.settings Demo.three
              (batch_concurrency Bench.pool_args Bench.settings)
              Demo.second_first 1000 Demo.state0
              ltac:(vm_compute; discriminate) ltac:(discriminate))
    as (st' & E & _).
  now exists st'.
Defined.

